(** * The release version model and support-window engine of [releases/models.py]

    A shallow embedding of the version parser, the [Release] entity, the
    [ReleaseManager] queries, [Release.save] with its end-of-life cascade, and
    the security advisory aggregator ([SecurityRelease], [SecurityIssue]),
    followed by the properties proved about them.

    Conventions.  Python [str] is [string]; the non-negative integers that
    appear as version components are [N]; a [datetime.date] is its proleptic
    ordinal in [Z]; a nullable column is an [option]; a raised exception is the
    [Raise] branch of [result].  The database is SQLite.  A table is the list
    of its rows in the order they were inserted, which is the order a query on
    that table alone yields without [order_by]; a query through the join
    table yields its rows in the order of the index it reads them from. *)

From Stdlib Require Import Bool Ascii String List NArith ZArith Lia.
From Stdlib Require Import DecimalString DecimalN Sorted Permutation.
Import ListNotations.

Local Open Scope list_scope.
Local Open Scope string_scope.

(* ================================================================== *)
(** * Part I.  Definitions                                             *)
(* ================================================================== *)

(** ** Exceptions *)

Inductive exn : Type :=
| IndexError
| KeyError
| ValueError
| AssertionError
| AttributeError
| DoesNotExist
| OverflowError
| IntegrityError
| ValidationError (message : string).

Inductive result (A : Type) : Type :=
| Ok (a : A)
| Raise (e : exn).

Arguments Ok {A} a.
Arguments Raise {A} e.

Definition bind {A B : Type} (r : result A) (k : A -> result B) : result B :=
  match r with
  | Ok a => k a
  | Raise e => Raise e
  end.

Declare Scope py_scope.
Delimit Scope py_scope with py.
Notation "x <- r ;; k" := (bind r (fun x => k))
  (at level 61, r at next level, right associativity) : py_scope.
Notation "' p <- r ;; k" := (bind r (fun v => let p := v in k))
  (at level 61, p pattern, r at next level, right associativity) : py_scope.
Local Open Scope py_scope.

Definition is_ok {A : Type} (r : result A) : bool :=
  match r with Ok _ => true | Raise _ => false end.

(** ** The fragment of the Python runtime the module relies on *)

(** [str(n)] for a non-negative integer. *)
Definition str_int (n : N) : string := NilEmpty.string_of_uint (N.to_uint n).

(** [int(s)] restricted to what a tokenizer can hand it: a non-empty string
    of ASCII digits is read in base ten, anything else is a [ValueError]. *)
Definition int_str (s : string) : result N :=
  match s with
  | EmptyString => Raise ValueError
  | _ =>
      match NilEmpty.uint_of_string s with
      | Some d => Ok (N.of_uint d)
      | None => Raise ValueError
      end
  end.

(** The double quote character as a string. *)
Definition DQUOTE : string := String (ascii_of_N 34) EmptyString.

(** [s.replace(c, empty)] for a one-character [c]. *)
Fixpoint remove_char (c : ascii) (s : string) : string :=
  match s with
  | EmptyString => EmptyString
  | String x s' =>
      if Ascii.eqb x c then remove_char c s' else String x (remove_char c s')
  end.

(** [sep.join(parts)]. *)
Fixpoint join (sep : string) (parts : list string) : string :=
  match parts with
  | [] => EmptyString
  | [p] => p
  | p :: rest => p ++ sep ++ join sep rest
  end.

(** [l[i]]: an [IndexError] past the end. *)
Definition getitem {A : Type} (l : list A) (i : nat) : result A :=
  match nth_error l i with
  | Some x => Ok x
  | None => Raise IndexError
  end.

(** [l[i] = x] for an index already known to be in range. *)
Fixpoint setitem {A : Type} (l : list A) (i : nat) (x : A) : list A :=
  match l, i with
  | [], _ => []
  | _ :: t, O => x :: t
  | h :: t, S j => h :: setitem t j x
  end.

(** [l.insert(i, x)]: past the end the element is appended. *)
Definition list_insert {A : Type} (i : nat) (x : A) (l : list A) : list A :=
  (firstn i l ++ x :: skipn i l)%list.

(** [d[k]] on a dictionary written as a literal: the first binding of [k],
    a [KeyError] when there is none. *)
Fixpoint dict_get {V : Type} (d : list (string * V)) (k : string) : result V :=
  match d with
  | [] => Raise KeyError
  | (k', v) :: d' => if String.eqb k' k then Ok v else dict_get d' k
  end.

(** *** [hash] on a tuple of small non-negative integers (CPython, 64 bit)

    [Release.__hash__] calls the builtin on a 3-tuple.  The definition below
    is CPython's tuple hash with each word operation reduced modulo [2^64]. *)

Definition word64 (z : Z) : Z := Z.modulo z (2 ^ 64).

Definition hash_int (n : N) : Z := Z.modulo (Z.of_N n) (2 ^ 61 - 1).

Definition XXPRIME_1 : Z := 11400714785074694791.
Definition XXPRIME_2 : Z := 14029467366897019727.
Definition XXPRIME_5 : Z := 2870177450012600261.

Definition xxrotate (x : Z) : Z :=
  word64 (Z.lor (Z.shiftl x 31) (Z.shiftr x 33)).

Definition hash_lane (acc : Z) (item : N) : Z :=
  let acc := word64 (acc + hash_int item * XXPRIME_2) in
  let acc := xxrotate acc in
  word64 (acc * XXPRIME_1).

Definition hash_tuple (items : list N) : Z :=
  let acc := fold_left hash_lane items XXPRIME_5 in
  let acc :=
    word64 (acc + Z.lxor (Z.of_nat (length items))
                         (Z.lxor XXPRIME_5 3527539)) in
  if Z.eqb acc (2 ^ 64 - 1) then 1546275796
  else if Z.ltb acc (2 ^ 63) then acc else acc - 2 ^ 64.

Arguments hash_tuple : simpl never.

(** ** Version components *)

(** An item of a version tuple is an [int] or a [str]. *)
Inductive component : Type :=
| CInt (n : N)
| CStr (s : string).

Definition isinstance_int (c : component) : bool :=
  match c with CInt _ => true | CStr _ => false end.

Definition component_eqb (x y : component) : bool :=
  match x, y with
  | CInt n, CInt m => N.eqb n m
  | CStr s, CStr t => String.eqb s t
  | _, _ => false
  end.

(** [str(x)] on a component. *)
Definition str_component (c : component) : string :=
  match c with CInt n => str_int n | CStr s => s end.

(** [x in (s1, s2, ...)] for a tuple of string literals. *)
Definition in_strs (c : component) (l : list string) : bool :=
  existsb (fun s => component_eqb c (CStr s)) l.

(** [d[x]] where the keys of [d] are strings and [x] is any component. *)
Definition dict_get_component {V : Type} (d : list (string * V)) (c : component)
  : result V :=
  match c with
  | CStr s => dict_get d s
  | CInt _ => Raise KeyError
  end.

(** ** The tokenizer [get_loose_version_tuple] *)

Inductive char_class : Type := Numeric | Alphabetic | Delimiter.

Definition char_class_eqb (a b : char_class) : bool :=
  match a, b with
  | Numeric, Numeric | Alphabetic, Alphabetic | Delimiter, Delimiter => true
  | _, _ => false
  end.

Definition classify (c : ascii) : char_class :=
  let n := N_of_ascii c in
  if (48 <=? n)%N && (n <=? 57)%N then Numeric
  else if ((65 <=? n)%N && (n <=? 90)%N) || ((97 <=? n)%N && (n <=? 122)%N)
       then Alphabetic
       else Delimiter.

(** The maximal runs of characters of one class, left to right. *)
Fixpoint runs (s : string) : list (char_class * string) :=
  match s with
  | EmptyString => []
  | String c s' =>
      match runs s' with
      | (k, w) :: rest =>
          if char_class_eqb (classify c) k
          then (k, String c w) :: rest
          else (classify c, String c EmptyString) :: (k, w) :: rest
      | [] => [(classify c, String c EmptyString)]
      end
  end.

Definition component_of_run (r : char_class * string) : list component :=
  match r with
  | (Numeric, w) =>
      match int_str w with
      | Ok n => [CInt n]
      | Raise _ => [CStr w]
      end
  | (Alphabetic, w) => [CStr w]
  | (Delimiter, _) => []
  end.

(** Modelled from the spec: [get_loose_version_tuple] lives in
    [releases/utils.py], which is not among the sources.  The specification
    (section 4.1) has it tokenize into a loose sequence of numeric and
    alphabetic runs: every maximal run of digits becomes an integer, every
    maximal run of letters a string, and whatever separates them (the dots)
    contributes nothing. *)
Definition get_loose_version_tuple (version : string) : list component :=
  flat_map component_of_run (runs version).

(** ** [Release.version_tuple] and [get_version] *)

Definition STATUS_NAMES : list string := ["alpha"; "beta"; "rc"; "final"].

Definition STATUS_ABBREVIATIONS : list (string * string) :=
  [("a", "alpha"); ("b", "beta"); ("c", "rc")].

(** The body of the [version_tuple] property, as a function of the
    [version] attribute. *)
Definition version_tuple (version : string) : result (list component) :=
  let version := remove_char "_" (remove_char "-" version) in
  let version := get_loose_version_tuple version in
  let version :=
    if Nat.eqb (length version) 2 then (version ++ [CInt 0])%list else version in
  v2 <- getitem version 2 ;;
  let version :=
    if negb (isinstance_int v2) then list_insert 2 (CInt 0) version
    else version in
  let version :=
    if Nat.eqb (length version) 3 then (version ++ [CStr "final"])%list
    else version in
  v3 <- getitem version 3 ;;
  version <-
    (if negb (in_strs v3 STATUS_NAMES)
     then k <- dict_get_component STATUS_ABBREVIATIONS v3 ;;
          Ok (setitem version 3 (CStr k))
     else Ok version) ;;
  let version :=
    if Nat.eqb (length version) 4 then (version ++ [CInt 0])%list else version in
  Ok version.

Section DjangoVersion.

(** [django.VERSION], the value [get_complete_version] falls back to when
    it is called without an argument. *)
Variable django_VERSION : list component.

(** [django.utils.version.get_complete_version]. *)
Definition get_complete_version (version : option (list component))
  : result (list component) :=
  match version with
  | None => Ok django_VERSION
  | Some v =>
      if negb (Nat.eqb (length v) 5) then Raise AssertionError
      else
        v3 <- getitem v 3 ;;
        if in_strs v3 STATUS_NAMES then Ok v else Raise AssertionError
  end.

(** [django.utils.version.get_main_version]: [X.Y] when the micro
    component is zero, [X.Y.Z] otherwise. *)
Definition get_main_version (version : option (list component))
  : result string :=
  version <- get_complete_version version ;;
  v2 <- getitem version 2 ;;
  let parts := if component_eqb v2 (CInt 0) then 2%nat else 3%nat in
  Ok (join "." (map str_component (firstn parts version))).

(** The dictionary [mapping] of [get_version]. *)
Definition mapping : list (string * string) :=
  [("alpha", "a"); ("beta", "b"); ("rc", "rc")].

(** [get_version]: the PEP 386 short form of a version tuple. *)
Definition get_version (version : option (list component)) : result string :=
  version <- get_complete_version version ;;
  main <- get_main_version (Some version) ;;
  v3 <- getitem version 3 ;;
  sub <-
    (if negb (component_eqb v3 (CStr "final"))
     then k <- dict_get_component mapping v3 ;;
          v4 <- getitem version 4 ;;
          Ok (k ++ str_component v4)
     else Ok EmptyString) ;;
  Ok (main ++ sub).

End DjangoVersion.

(** ** Ordering rows

    [order_by] is a stable insertion sort: [x] is placed before the first
    element it is allowed to precede.  It models both the [ORDER BY] of a
    query and Python's [sorted]; neither the database nor Python promises
    more about rows the comparison cannot tell apart than that [sorted]
    keeps them in their original order. *)

Fixpoint insert_by {A : Type} (leb : A -> A -> bool) (x : A) (l : list A)
  : list A :=
  match l with
  | [] => [x]
  | y :: l' => if leb x y then x :: l else y :: insert_by leb x l'
  end.

Definition order_by {A : Type} (leb : A -> A -> bool) (l : list A) : list A :=
  fold_right (insert_by leb) [] l.

(** Building blocks of a comparison: a column, a descending column, and one
    comparison refined by the next. *)
Definition on {A K : Type} (key : A -> K) (leb : K -> K -> bool) : A -> A -> bool :=
  fun x y => leb (key x) (key y).

Definition desc {A : Type} (leb : A -> A -> bool) : A -> A -> bool :=
  fun x y => leb y x.

Definition lex {A : Type} (leb1 leb2 : A -> A -> bool) : A -> A -> bool :=
  fun x y => if leb1 x y then (if leb1 y x then leb2 x y else true) else false.

(** A boolean comparison that is total and transitive. *)
Class TotalPreorder {A : Type} (leb : A -> A -> bool) : Prop := {
  leb_total : forall x y, leb x y = true \/ leb y x = true;
  leb_trans : forall x y z, leb x y = true -> leb y z = true -> leb x z = true
}.

(** ** The [Release] model *)

(** The columns of a release.  The three artifact file fields play no part
    in what follows and are left out.  [major] to [iteration] carry no
    meaning on an instance that has not been saved: [save] overwrites them
    before anything is written. *)
Record Release : Type := {
  version : string;
  is_active : bool;
  date : option Z;
  eol_date : option Z;
  major : N;
  minor : N;
  micro : N;
  status : string;
  iteration : N;
  is_lts : bool
}.

Definition RELEASE_STATUS_CHOICES : list (string * string) :=
  [("a", "alpha"); ("b", "beta"); ("c", "release candidate"); ("f", "final")].

Definition RELEASE_STATUS_REVERSE : list (string * string) :=
  [("alpha", "a"); ("beta", "b"); ("rc", "c"); ("final", "f")].

(** Python's [<] on 3-tuples of integers: decided at the first position
    where the two differ. *)
Definition tuple3_ltb (a b : N * N * N) : bool :=
  let '(a1, a2, a3) := a in
  let '(b1, b2, b3) := b in
  if negb (N.eqb a1 b1) then N.ltb a1 b1
  else if negb (N.eqb a2 b2) then N.ltb a2 b2
  else N.ltb a3 b3.

Definition version_triple (r : Release) : N * N * N := (major r, minor r, micro r).

(** [Release.__lt__]. *)
Definition Release_lt (self other : Release) : bool :=
  tuple3_ltb (major self, minor self, micro self)
             (major other, minor other, micro other).

(** [Release.__hash__]. *)
Definition Release_hash (self : Release) : Z :=
  hash_tuple [major self; minor self; micro self].

(** [==] on releases.  The class defines no [__eq__] and [total_ordering]
    supplies none, so the one in force is that of [django.db.models.Model]:
    two instances of the same model are equal when their primary keys are,
    and the primary key of a release is its [version].  (An instance
    without a primary key is equal to itself only; a release always has a
    version string.) *)
Definition Release_eq (self other : Release) : bool :=
  String.eqb (version self) (version other).

(** The derived properties.  [cached_property] keeps their first value on
    the object; they are read here on rows freshly loaded, whose columns
    nothing changes afterwards, so they are functions of the columns. *)

Definition feature_version (self : Release) : string :=
  str_int (major self) ++ "." ++ str_int (minor self).

Definition series (self : Release) : string := str_int (major self) ++ ".x".

Definition stable_branch (self : Release) : string :=
  "stable/" ++ feature_version self ++ ".x".

Definition commit_prefix (self : Release) : string :=
  "[" ++ feature_version self ++ ".x]".

Definition is_pre_release (self : Release) : bool :=
  negb (String.eqb (status self) "f").

Definition is_dot_zero (self : Release) : bool :=
  String.eqb (status self) "f" && N.eqb (micro self) 0.

(** [is_published], with [datetime.date.today()] as [today]. *)
Definition is_published (today : Z) (self : Release) : bool :=
  is_active self
  && match date self with
     | Some d => Z.leb d today
     | None => false
     end.

(** [get_status_display]: the label of the stored choice, the raw value
    when it is not one of the choices. *)
Definition get_status_display (self : Release) : string :=
  match dict_get RELEASE_STATUS_CHOICES (status self) with
  | Ok label => label
  | Raise _ => status self
  end.

(** ** [ReleaseManager] *)

(** A lookup [column__lte=bound] on a nullable date column: a row whose
    column is [NULL] never matches. *)
Definition lte (column : option Z) (bound : Z) : bool :=
  match column with
  | Some d => Z.leb d bound
  | None => false
  end.

(** [order_by("-major", "-minor", "-micro", "-status")]. *)
Definition by_version_status_desc : Release -> Release -> bool :=
  lex (desc (on major N.leb))
      (lex (desc (on minor N.leb))
           (lex (desc (on micro N.leb)) (desc (on status String.leb)))).

(** [order_by("-major", "-minor", "-micro")]. *)
Definition by_version_desc : Release -> Release -> bool :=
  lex (desc (on major N.leb))
      (lex (desc (on minor N.leb)) (desc (on micro N.leb))).

Definition series_eqb (a b : N * N) : bool :=
  N.eqb (fst a) (fst b) && N.eqb (snd a) (snd b).

(** Membership in a Python set of [(major, minor)] pairs, kept as the list
    of what was put in. *)
Definition series_in (s : N * N) (seen : list (N * N)) : bool :=
  existsb (series_eqb s) seen.

(** [queryset.first()]. *)
Definition first {A : Type} (l : list A) : option A := hd_error l.

Section ReleaseManager.

(** [datetime.date.today()]. *)
Variable today : Z.

(** The rows of the table, [self.all()]. *)
Variable objects : list Release.

Definition or_today (at_ : option Z) : Z :=
  match at_ with
  | None => today
  | Some d => d
  end.

Definition published (at_ : option Z) : list Release :=
  let at_ := or_today at_ in
  order_by by_version_status_desc
    (filter (fun r => negb (lte (eol_date r) at_))
       (filter (fun r => N.leb 1 (major r) && lte (date r) at_ && is_active r)
          objects)).

Definition supported (at_ : option Z) : list Release :=
  filter (fun r => String.eqb (status r) "f") (published at_).

(** One turn of the loop of [unsupported]; the state is the running set
    of series and the list built so far. *)
Definition unsupported_step (st : list (N * N) * list Release) (release : Release)
  : list (N * N) * list Release :=
  let '(excluded_major_minor, unsupported) := st in
  if negb (series_in (major release, minor release) excluded_major_minor)
  then ((major release, minor release) :: excluded_major_minor,
        (unsupported ++ [release])%list)
  else st.

Definition unsupported (at_ : option Z) : list Release :=
  let at_ := or_today at_ in
  let excluded_major_minor :=
    map (fun release => (major release, minor release)) (supported (Some at_)) in
  snd (fold_left unsupported_step
         (order_by by_version_desc
            (filter (fun r => N.leb 1 (major r) && lte (eol_date r) at_
                              && String.eqb (status r) "f")
               objects))
         (excluded_major_minor, [])).

Definition current (at_ : option Z) : option Release := first (supported at_).

Definition previous (at_ : option Z) : option Release :=
  first (skipn 1 (supported at_)).

Definition lts (at_ : option Z) : list Release :=
  filter is_lts (supported at_).

Definition current_lts (at_ : option Z) : option Release := first (lts at_).

Definition previous_lts (at_ : option Z) : option Release :=
  first (skipn 1 (lts at_)).

Definition preview (at_ : option Z) : option Release :=
  first (filter (fun r => negb (String.eqb (status r) "f")) (published at_)).

End ReleaseManager.

(** ** Instances and [Release.save] *)

(** A [Release] object in memory: its attributes and the slot in which
    [cached_property] keeps the value of [version_tuple] once it has been
    computed. *)
Record Instance : Type := {
  attrs : Release;
  cached_version_tuple : option (list component)
}.

(** [Release(version=..., is_active=..., is_lts=..., date=..., eol_date=...)],
    every keyword given.  The integer columns are [None] until [save]
    writes them; the record shows 0 there, and nothing below reads them on
    an object that has not been saved. *)
Definition new_release (version : string) (is_active is_lts : bool)
  (date eol_date : option Z) : Instance :=
  {| attrs := {| version := version; is_active := is_active; date := date;
                 eol_date := eol_date; major := 0; minor := 0; micro := 0;
                 status := EmptyString; iteration := 0; is_lts := is_lts |};
     cached_version_tuple := None |}.

(** [self.version = v]. *)
Definition set_version (v : string) (self : Instance) : Instance :=
  let r := attrs self in
  {| attrs := {| version := v; is_active := is_active r; date := date r;
                 eol_date := eol_date r; major := major r; minor := minor r;
                 micro := micro r; status := status r;
                 iteration := iteration r; is_lts := is_lts r |};
     cached_version_tuple := cached_version_tuple self |}.

(** Reading [self.version_tuple]: the cached value when there is one,
    otherwise the value computed from [version], which is then cached. *)
Definition get_version_tuple (self : Instance)
  : result (list component * Instance) :=
  match cached_version_tuple self with
  | Some t => Ok (t, self)
  | None =>
      t <- version_tuple (version (attrs self)) ;;
      Ok (t, {| attrs := attrs self; cached_version_tuple := Some t |})
  end.

(** What is shared by every request: the release table and the entry
    [RELEASE_DEFAULT_CACHE_KEY] of the cache. *)
Record World : Type := {
  release_table : list Release;
  cached_current_version : option string
}.

(** [super().save()]: the row with this primary key takes the attributes of
    the instance, and is appended when there was none. *)
Fixpoint upsert (r : Release) (table : list Release) : list Release :=
  match table with
  | [] => [r]
  | x :: table' =>
      if String.eqb (version x) (version r) then r :: table'
      else x :: upsert r table'
  end.

Definition set_eol_date (d : option Z) (r : Release) : Release :=
  {| version := version r; is_active := is_active r; date := date r;
     eol_date := d; major := major r; minor := minor r; micro := micro r;
     status := status r; iteration := iteration r; is_lts := is_lts r |}.

(** [filter(major=.., minor=.., micro=.., status=..).update(eol_date=d)]. *)
Definition update_eol_date (ma mi mc : N) (st : string) (d : option Z)
  (table : list Release) : list Release :=
  map (fun r =>
         if N.eqb (major r) ma && N.eqb (minor r) mi && N.eqb (micro r) mc
            && String.eqb (status r) st
         then set_eol_date d r else r)
      table.

(** A value bound for an integer column. *)
Definition int_column (c : component) : result N :=
  match c with
  | CInt n => Ok n
  | CStr _ => Raise ValueError
  end.

(** The largest integer SQLite stores.  The columns are declared as small
    integers, but SQLite checks neither that range nor the length of a
    string; what it refuses is an integer beyond 64 bits, and the [sqlite3]
    module raises [OverflowError] when it is handed one. *)
Definition SQLITE_MAX_INTEGER : N := 9223372036854775807.

(** Handing the integers of a statement to SQLite. *)
Definition sqlite_integers (values : list N) : result unit :=
  if forallb (fun n => N.leb n SQLITE_MAX_INTEGER) values then Ok tt
  else Raise OverflowError.

(** [INSERT]: a row whose primary key is taken is refused. *)
Definition insert (r : Release) (table : list Release)
  : result (list Release) :=
  if existsb (fun x => String.eqb (version x) (version r)) table
  then Raise IntegrityError
  else Ok (table ++ [r])%list.

(** [Release.save(force_insert=...)]: the decomposition is taken from
    [version_tuple], the cache entry is deleted, the row is written, and
    then each micro release ends the life of the previous one in the same
    series.  Unpacking a tuple that does not have five items is a
    [ValueError].  [super().save()] prepares the values of the columns, hands
    them to the database, and then updates the row with this primary key or,
    when there is none or an insert is forced, inserts one.  When an
    exception is raised the result is the exception alone: what the call had
    done to the cache by then is not kept. *)
Definition save_with (force_insert : bool) (w : World) (self : Instance)
  : result (World * Instance) :=
  '(t, self) <- get_version_tuple self ;;
  match t with
  | [c_major; c_minor; c_micro; c_status; c_iteration] =>
      st <- dict_get_component RELEASE_STATUS_REVERSE c_status ;;
      ma <- int_column c_major ;;
      mi <- int_column c_minor ;;
      mc <- int_column c_micro ;;
      it <- int_column c_iteration ;;
      written <- sqlite_integers [ma; mi; mc; it] ;;
      let r := attrs self in
      let r := {| version := version r; is_active := is_active r;
                  date := date r; eol_date := eol_date r; major := ma;
                  minor := mi; micro := mc; status := st; iteration := it;
                  is_lts := is_lts r |} in
      let self := {| attrs := r;
                     cached_version_tuple := cached_version_tuple self |} in
      table <- (if force_insert then insert r (release_table w)
                else Ok (upsert r (release_table w))) ;;
      let table :=
        if String.eqb (status r) "f" && N.ltb 0 (micro r) && is_active r
        then update_eol_date (major r) (minor r) (micro r - 1) "f" (date r) table
        else table in
      Ok ({| release_table := table; cached_current_version := None |}, self)
  | _ => Raise ValueError
  end.

(** [release.save()]. *)
Definition save (w : World) (self : Instance) : result (World * Instance) :=
  save_with false w self.

(** [Release.objects.create(...)], which saves with [force_insert=True]. *)
Definition create (w : World) (self : Instance) : result World :=
  '(w, _) <- save_with true w self ;; Ok w.

(** [ReleaseManager.current_version]. *)
Definition current_version (today : Z) (w : World) : string * World :=
  match cached_current_version w with
  | Some v => (v, w)
  | None =>
      let v := match current today (release_table w) None with
               | None => EmptyString
               | Some current_release => version current_release
               end in
      (v, {| release_table := release_table w;
             cached_current_version := Some v |})
  end.

(** ** Timestamps *)

(** A [datetime.datetime]; [utcoffset] is the offset of an aware value in
    seconds, [None] for a naive one. *)
Record datetime : Type := {
  year : N;
  month : N;
  day : N;
  hour : N;
  minute : N;
  second : N;
  microsecond : N;
  utcoffset : option Z
}.

(** The ranges the [datetime] constructor enforces. *)
Definition valid_datetime (t : datetime) : Prop :=
  (1 <= year t <= 9999)%N /\ (1 <= month t <= 12)%N /\ (1 <= day t <= 31)%N /\
  (hour t < 24)%N /\ (minute t < 60)%N /\ (second t < 60)%N /\
  (microsecond t < 1000000)%N.

Fixpoint zeros (n : nat) : string :=
  match n with
  | O => EmptyString
  | S n' => String "0" (zeros n')
  end.

(** ["%0<width>d" % n]. *)
Definition zero_pad (width : nat) (n : N) : string :=
  let s := str_int n in
  zeros (width - String.length s) ++ s.

Definition MONTH_ABBREVIATIONS : list string :=
  ["Jan"; "Feb"; "Mar"; "Apr"; "May"; "Jun";
   "Jul"; "Aug"; "Sep"; "Oct"; "Nov"; "Dec"].

Definition lower_char (c : ascii) : ascii :=
  let n := N_of_ascii c in
  if (65 <=? n)%N && (n <=? 90)%N then ascii_of_N (n + 32) else c.

Fixpoint lower (s : string) : string :=
  match s with
  | EmptyString => EmptyString
  | String c s' => String (lower_char c) (lower s')
  end.

(** [t.strftime("%m/%d/%Y")].  [strftime] is the C library's, and for
    [%Y] glibc prints the year as it is, without leading zeros. *)
Definition strftime_mdY (t : datetime) : string :=
  zero_pad 2 (month t) ++ "/" ++ zero_pad 2 (day t) ++ "/" ++ str_int (year t).

(** [t.strftime("%Y/%b/%d")]. *)
Definition strftime_Ybd (t : datetime) : string :=
  str_int (year t) ++ "/"
  ++ nth (N.to_nat (month t) - 1) MONTH_ABBREVIATIONS EmptyString ++ "/"
  ++ zero_pad 2 (day t).

(** [t.isoformat()]. *)
Definition isoformat (t : datetime) : string :=
  zero_pad 4 (year t) ++ "-" ++ zero_pad 2 (month t) ++ "-" ++ zero_pad 2 (day t)
  ++ "T" ++ zero_pad 2 (hour t) ++ ":" ++ zero_pad 2 (minute t) ++ ":"
  ++ zero_pad 2 (second t)
  ++ (if N.eqb (microsecond t) 0 then EmptyString else "." ++ zero_pad 6 (microsecond t))
  ++ match utcoffset t with
     | None => EmptyString
     | Some off =>
         let a := Z.to_N (Z.abs off) in
         (if Z.ltb off 0 then "-" else "+")
         ++ zero_pad 2 (a / 3600) ++ ":" ++ zero_pad 2 ((a mod 3600) / 60)
         ++ (if N.eqb (a mod 60) 0 then EmptyString else ":" ++ zero_pad 2 (a mod 60))
     end.

(** ** Security releases and issues *)

Definition CVE_TYPE_OTHER : string := "Other or Unknown".

Definition SEVERITY_LEVELS_DOCS : string :=
  "https://docs.djangoproject.com/en/dev/internals/security/"
  ++ "#security-issue-severity-levels".

(** A [SecurityRelease] checklist; the releaser and the two bookkeeping
    timestamps of [ReleaseChecklist] are not read by anything below. *)
Record SecurityRelease : Type := {
  checklist_id : N;
  when : datetime
}.

Record SecurityIssue : Type := {
  id : N;
  cve_year_number : string;
  cve_type : string;
  other_type : string;
  attack_type : string;
  impact : string;
  severity : string;
  summary : string;
  description : string;
  blogdescription : string;
  reporter : string;
  release_id : option N;
  commit_hash_main : string
}.

(** A row of the join table behind [SecurityIssue.releases]. *)
Record SecurityIssueReleasesThrough : Type := {
  through_security_issue_id : N;
  through_release_id : string;
  commit_hash : string
}.

Record Database : Type := {
  releases_of : list Release;
  securityreleases_of : list SecurityRelease;
  securityissues_of : list SecurityIssue;
  through_of : list SecurityIssueReleasesThrough
}.

(** [issue.releases.all()]: the releases joined to the issue through the
    join table.  The query has no [order_by]; SQLite reads the rows of the
    issue from the index of the constraint on (security_issue, release), so
    they come in ascending order of [release_id]. *)
Definition issue_releases (db : Database) (issue : SecurityIssue) : list Release :=
  flat_map
    (fun t =>
       filter (fun r => String.eqb (version r) (through_release_id t))
              (releases_of db))
    (order_by (on through_release_id String.leb)
       (filter (fun t => N.eqb (through_security_issue_id t) (id issue))
               (through_of db))).

(** [checklist.securityissue_set.all()]. *)
Definition securityissue_set (db : Database) (self : SecurityRelease)
  : list SecurityIssue :=
  filter (fun issue => match release_id issue with
                       | Some k => N.eqb k (checklist_id self)
                       | None => false
                       end)
         (securityissues_of db).

(** [issue.release]. *)
Definition issue_release (db : Database) (issue : SecurityIssue)
  : result SecurityRelease :=
  match release_id issue with
  | None => Raise AttributeError
  | Some k =>
      match find (fun c => N.eqb (checklist_id c) k) (securityreleases_of db) with
      | Some c => Ok c
      | None => Raise DoesNotExist
      end
  end.

(** ** Python sets (CPython, 64 bit)

    Adding to a set: an element is already present when one with the same
    hash compares equal to it.  [set_of] is the list of the elements of a
    set in the order they were first added.  Iterating over the set goes
    through the slots of its hash table instead, which is what [set_iter]
    follows: the table starts with 8 slots; an element goes to the first
    unused slot of its probe sequence; and when the table is three fifths
    full it is rebuilt at the least power of two above four times the
    number of its elements. *)
Section PySet.

Context {A : Type} (hash : A -> Z) (eq : A -> A -> bool).

Definition set_add (s : list A) (x : A) : list A :=
  if existsb (fun y => Z.eqb (hash y) (hash x) && eq y x) s
  then s
  else (s ++ [x])%list.

Definition set_of (l : list A) : list A := fold_left set_add l [].

Definition PySet_MINSIZE : nat := 8.
Definition LINEAR_PROBES : nat := 9.
Definition PERTURB_SHIFT : N := 5.

(** The keys of a table, slot by slot. *)
Definition entries (table : list (option A)) : list A :=
  flat_map (fun slot => match slot with Some x => [x] | None => [] end) table.

Definition is_unused (table : list (option A)) (i : N) : bool :=
  match nth_error table (N.to_nat i) with
  | Some None => true
  | _ => false
  end.

(** The first unused slot among [i], [i + 1], ..., [i + probes]. *)
Fixpoint linear_probe (table : list (option A)) (i : N) (probes : nat)
  : option N :=
  if is_unused table i then Some i
  else match probes with
       | O => None
       | S probes' => linear_probe table (i + 1) probes'
       end.

(** The loop of [set_insert_clean]: the slot [i] and, when they all lie
    in the table, the nine after it; then on to [(5 i + 1 + perturb) & mask]
    with the perturbation shifted down.  [rounds] bounds the turns of the
    loop. *)
Fixpoint find_unused (rounds : nat) (table : list (option A))
  (mask i perturb : N) : option N :=
  match rounds with
  | O => None
  | S rounds' =>
      let probes :=
        if N.leb (i + N.of_nat LINEAR_PROBES) mask then LINEAR_PROBES else O in
      match linear_probe table i probes with
      | Some j => Some j
      | None =>
          let perturb := N.shiftr perturb PERTURB_SHIFT in
          find_unused rounds' table mask (N.land (i * 5 + 1 + perturb) mask)
            perturb
      end
  end.

Fixpoint put (table : list (option A)) (i : nat) (x : A) : list (option A) :=
  match table with
  | [] => []
  | slot :: table' =>
      match i with
      | O => Some x :: table'
      | S i' => slot :: put table' i' x
      end
  end.

(** The hash of an object as the unsigned word the table indexes with. *)
Definition unsigned_hash (x : A) : N := Z.to_N (Z.modulo (hash x) (2 ^ 64)).

(** The turns the loop can take on a table: after thirteen shifts the
    perturbation of a 64-bit hash is gone, and from then on the sequence
    goes through every slot before it repeats. *)
Definition rounds_for (table : list (option A)) : nat := 14 + length table.

(** [set_insert_clean]: a key that is equal to none in the table goes to
    the first unused slot of its probe sequence.  A table without an unused
    slot on the sequence, which the resizing rules out, would be extended. *)
Definition set_insert_clean (table : list (option A)) (x : A)
  : list (option A) :=
  let mask := (N.of_nat (length table) - 1)%N in
  let h := unsigned_hash x in
  match find_unused (rounds_for table) table mask (N.land h mask) h with
  | Some i => put table (N.to_nat i) x
  | None => (table ++ [Some x])%list
  end.

(** [while (newsize <= minused) newsize <<= 1]. *)
Fixpoint double_until (turns : nat) (size minused : N) : N :=
  match turns with
  | O => size
  | S turns' =>
      if N.leb size minused then double_until turns' (2 * size) minused
      else size
  end.

Definition new_size (minused : N) : N :=
  double_until (S (N.to_nat (N.log2 minused))) (N.of_nat PySet_MINSIZE) minused.

(** [set_table_resize]: the keys are put into a new table in the order of
    their slots. *)
Definition set_table_resize (table : list (option A)) (minused : N)
  : list (option A) :=
  fold_left set_insert_clean (entries table)
    (repeat None (N.to_nat (new_size minused))).

(** [set_add_entry] for a key that is equal to none in the table. *)
Definition set_add_entry (table : list (option A)) (x : A)
  : list (option A) :=
  let table := set_insert_clean table x in
  let fill := N.of_nat (length (entries table)) in
  let mask := (N.of_nat (length table) - 1)%N in
  if N.ltb (fill * 5) (mask * 3) then table
  else set_table_resize table
         (if N.ltb 50000 fill then fill * 2 else fill * 4)%N.

Definition set_table (l : list A) : list (option A) :=
  fold_left set_add_entry (set_of l) (repeat None PySet_MINSIZE).

(** The elements of [set(l)] in the order iteration yields them. *)
Definition set_iter (l : list A) : list A := entries (set_table l).

End PySet.

(** [sorted(xs, reverse=True)] over releases. *)
Definition sorted_reverse (xs : list Release) : list Release :=
  order_by (fun x y => negb (Release_lt x y)) xs.

Definition slug : string := "security-releases".

Definition blogpost_link (self : SecurityRelease) : string :=
  "https://www.djangoproject.com/weblog/" ++ lower (strftime_Ybd (when self))
  ++ "/" ++ slug ++ "/".

Definition affected_releases (db : Database) (self : SecurityRelease)
  : list Release :=
  sorted_reverse
    (set_iter Release_hash Release_eq
       (flat_map (issue_releases db) (securityissue_set db self))).

Definition affected_branches (db : Database) (self : SecurityRelease)
  : list string :=
  "main" ::
  map (fun r =>
         if negb (is_pre_release r) then feature_version r
         else feature_version r ++ " (currently at " ++ get_status_display r
              ++ " status)")
      (affected_releases db self).

Definition versions (db : Database) (self : SecurityRelease) : list string :=
  map version (filter (fun r => negb (is_pre_release r)) (affected_releases db self)).

Definition checklist_version (db : Database) (self : SecurityRelease) : string :=
  join " / " (versions db self).

Definition latest_release (db : Database) (self : SecurityRelease)
  : result Release :=
  getitem (filter (fun r => negb (is_pre_release r)) (affected_releases db self)) 0.

(** ** The CVE record *)

Set Warnings "-register-all".

(** The values a CVE record is made of. *)
Inductive json : Type :=
| JStr (s : string)
| JList (items : list json)
| JDict (fields : list (string * json)).

(** Modelled from the spec: [enumerate_items] is a template filter of
    [releases/templatetags/generator_extras.py], which is not among the
    sources.  The specification (section 4.4) describes a generated
    enumeration of the fixed version list, e.g. 5.1.8 and 5.0.14, and for
    three or more: Oxford-comma-joined with and before the last. *)
Definition enumerate_items (items : list string) : string :=
  match items with
  | [] => EmptyString
  | [a] => a
  | [a; b] => a ++ " and " ++ b
  | _ => join ", " (removelast items) ++ ", and " ++ last items EmptyString
  end.

Definition affected_entry (release : Release) : json :=
  JDict [("status", JStr "affected");
         ("version", JStr (feature_version release ++ ".0"));
         ("lessThan", JStr (version release));
         ("versionType", JStr "semver")].

Definition unaffected_entry (release : Release) : json :=
  JDict [("status", JStr "unaffected");
         ("version", JStr (version release));
         ("lessThan", JStr (feature_version release ++ ".*"));
         ("versionType", JStr "semver")].

(** One turn of the loop of [cve_data]; the state is the pair of lists the
    loop appends to. *)
Definition cve_data_step (st : list json * list string) (release : Release)
  : list json * list string :=
  let '(affected_unaffected_versions, versions) := st in
  let versions := (versions ++ [version release])%list in
  (affected_unaffected_versions
     ++ [affected_entry release; unaffected_entry release],
   versions)%list.

(** [self.releases.filter(status="f").order_by("-version")]. *)
Definition fixed_releases (db : Database) (self : SecurityIssue) : list Release :=
  order_by (desc (on version String.leb))
    (filter (fun r => String.eqb (status r) "f") (issue_releases db self)).

Definition cve_data (db : Database) (self : SecurityIssue)
  : result (list (string * json)) :=
  let '(affected_unaffected_versions, versions) :=
    fold_left cve_data_step (fixed_releases db self) ([], []) in
  let enumerated_versions := enumerate_items versions in
  release <- issue_release db self ;;
  Ok [("title", JStr (remove_char "`" (summary self)));
      ("metrics",
        JList [JDict [("other",
          JDict [("content", JDict [("value", JStr (severity self));
                                    ("namespace", JStr SEVERITY_LEVELS_DOCS)]);
                 ("type", JStr "Django severity rating")])]]);
      ("descriptions",
        JList [JDict [("lang", JStr "en"); ("value", JStr (description self))]]);
      ("affected",
        JList [JDict [("packageName", JStr "django");
                      ("collectionURL", JStr "https://github.com/django/django/");
                      ("defaultStatus", JStr "affected");
                      ("versions", JList affected_unaffected_versions)]]);
      ("references",
        JList [JDict [("url", JStr (blogpost_link release));
                      ("name", JStr ("Django security releases issued: "
                                     ++ enumerated_versions));
                      ("tags", JList [JStr "vendor-advisory"])]]);
      ("credits",
        JList [JDict [("lang", JStr "en");
                      ("type", JStr "reporter");
                      ("value", JStr ("Django would like to thank "
                                      ++ reporter self
                                      ++ " for reporting this issue."))]]);
      ("timeline",
        JList [JDict [("lang", JStr "en");
                      ("time", JStr (isoformat (when release)));
                      ("value", JStr "Made public.")]]);
      ("datePublic", JStr (strftime_mdY (when release)))].

(** Reading a record: [d.get(k)], [xs[i]]. *)
Definition json_get (k : string) (d : list (string * json)) : option json :=
  match dict_get d k with
  | Ok v => Some v
  | Raise _ => None
  end.

Definition json_field (k : string) (j : json) : option json :=
  match j with
  | JDict d => json_get k d
  | _ => None
  end.

Definition json_item (i : nat) (j : json) : option json :=
  match j with
  | JList l => nth_error l i
  | _ => None
  end.

(** ** [SecurityIssue.clean_fields]

    The method overrides the one of [Model] without calling it, so the two
    tests below are all it does.  The result carries the object as the call
    leaves it. *)
Definition clean_fields (self : SecurityIssue) : result SecurityIssue :=
  if String.eqb (cve_type self) CVE_TYPE_OTHER && String.eqb (other_type self) EmptyString
  then Raise (ValidationError
                (DQUOTE ++ "Other type" ++ DQUOTE ++ " needs to be set when "
                 ++ DQUOTE ++ "Vulnerability type" ++ DQUOTE ++ " is "
                 ++ CVE_TYPE_OTHER))
  else if negb (String.eqb (cve_type self) CVE_TYPE_OTHER)
          && negb (String.eqb (other_type self) EmptyString)
  then Raise (ValidationError
                (DQUOTE ++ "Other type" ++ DQUOTE ++ " should be blank for "
                 ++ DQUOTE ++ cve_type self ++ DQUOTE ++ "."))
  else Ok self.

(** ** Vocabulary of the statements *)

(** A nullable date column holds a date no later than [d]. *)
Definition on_or_before (column : option Z) (d : Z) : Prop :=
  exists v, column = Some v /\ (v <= d)%Z.

(** [x] is no earlier than [y] in the order of (major, minor, micro). *)
Definition version_ge (x y : Release) : Prop :=
  (major y < major x)%N \/
  (major y = major x /\
   ((minor y < minor x)%N \/
    (minor y = minor x /\ (micro y <= micro x)%N))).

(** [x] is no earlier than [y] in the order of (major, minor, micro,
    status), the status being compared as the stored one-letter code. *)
Definition version_status_ge (x y : Release) : Prop :=
  (major y < major x)%N \/
  (major y = major x /\
   ((minor y < minor x)%N \/
    (minor y = minor x /\
     ((micro y < micro x)%N \/
      (micro y = micro x /\ String.leb (status y) (status x) = true))))).

Definition same_series (x y : Release) : Prop :=
  major x = major y /\ minor x = minor y.

(** The two ways in which the category and the free text of a security
    issue can disagree. *)
Definition other_type_inconsistent (self : SecurityIssue) : Prop :=
  (cve_type self = CVE_TYPE_OTHER /\ other_type self = EmptyString) \/
  (cve_type self <> CVE_TYPE_OTHER /\ other_type self <> EmptyString).

(** The (major, minor) pair a release belongs to. *)
Definition series_of (r : Release) : N * N := (major r, minor r).

(** What the loop of [unsupported] keeps of a list: each release whose
    series is not among those already seen, which then counts as seen. *)
Fixpoint first_of_each_series (seen : list (N * N)) (l : list Release)
  : list Release :=
  match l with
  | [] => []
  | r :: l' =>
      if series_in (series_of r) seen then first_of_each_series seen l'
      else r :: first_of_each_series (series_of r :: seen) l'
  end.

(** A final release of major at least 1 whose end of life has come by [d]. *)
Definition reached_end_of_life (objects : list Release) (d : Z) (r : Release)
  : Prop :=
  In r objects /\ status r = "f" /\ (1 <= major r)%N /\
  on_or_before (eol_date r) d.

(** The primary-key constraint of the release table. *)
Definition primary_key_unique (table : list Release) : Prop :=
  NoDup (map version table).

(** A release is attached to a checklist when one of the issues of the
    checklist lists it. *)
Definition attached (db : Database) (self : SecurityRelease) (r : Release)
  : Prop :=
  exists issue, In issue (securityissue_set db self) /\
                In r (issue_releases db issue).

(** How many elements of a list of releases carry a given
    (major, minor, micro). *)
Definition count_version (t : N * N * N) (l : list Release) : nat :=
  length (filter (fun r => negb (tuple3_ltb (version_triple r) t)
                           && negb (tuple3_ltb t (version_triple r))) l).

(** The reading of the aggregation under which equal (major, minor, micro)
    means equal: any two attached releases with the same triple compare
    equal, hash alike, and are one element of [affected_releases]. *)
Definition collapses_equal_versions (db : Database) (self : SecurityRelease)
  : Prop :=
  forall a b,
    attached db self a -> attached db self b ->
    version_triple a = version_triple b ->
    Release_eq a b = true /\ Release_hash a = Release_hash b /\
    count_version (version_triple a) (affected_releases db self) = 1%nat.

(** [ReleaseChecklist.release_status_code], the inverse of
    [RELEASE_STATUS_REVERSE]. *)
Definition release_status_code : list (string * string) :=
  map (fun kv => (snd kv, fst kv)) RELEASE_STATUS_REVERSE.

(** The version tuple a stored row stands for. *)
Definition row_version_tuple (r : Release) : list component :=
  [CInt (major r); CInt (minor r); CInt (micro r);
   CStr (match dict_get release_status_code (status r) with
         | Ok name => name
         | Raise _ => status r
         end);
   CInt (iteration r)].

(** The stored decomposition of a release is the one its version string
    parses to. *)
Definition in_sync (r : Release) : Prop :=
  version_tuple (version r) = Ok (row_version_tuple r).

(** [self.version = v] for each [v] in turn. *)
Definition set_versions (versions : list string) (self : Instance) : Instance :=
  fold_left (fun i v => set_version v i) versions self.

(** The reading of [save] under which the stored decomposition follows the
    version string through any sequence of assignments to [version]. *)
Definition never_drifts : Prop :=
  forall (w : World) (self : Instance) (versions : list string)
         (w' : World) (self' : Instance),
    save w (set_versions versions self) = Ok (w', self') ->
    in_sync (attrs self').

(** [x] is the final release just before [r] in the series of [r]. *)
Definition is_previous_micro (r x : Release) : bool :=
  N.eqb (major x) (major r) && N.eqb (minor x) (minor r)
  && N.eqb (micro x + 1) (micro r) && String.eqb (status x) "f".

(** The rows of a table other than the one with primary key [v]. *)
Definition rows_except (v : string) (table : list Release) : list Release :=
  filter (fun x => negb (String.eqb (version x) v)) table.

Definition is_digit (c : ascii) : bool :=
  (48 <=? N_of_ascii c)%N && (N_of_ascii c <=? 57)%N.

(** [s] consists of exactly two digits, which read as [n]. *)
Definition two_digits (s : string) (n : N) : bool :=
  match s with
  | String a (String b EmptyString) =>
      is_digit a && is_digit b
      && match int_str s with Ok v => N.eqb v n | Raise _ => false end
  | _ => false
  end.

(** [s] consists of exactly four digits, which read as [n]. *)
Definition four_digits (s : string) (n : N) : bool :=
  match s with
  | String a (String b (String c (String d EmptyString))) =>
      is_digit a && is_digit b && is_digit c && is_digit d
      && match int_str s with Ok v => N.eqb v n | Raise _ => false end
  | _ => false
  end.

(** [s] is [MM/DD/YYYY] for the given month, day and year. *)
Definition is_mm_dd_yyyy (s : string) (month day year : N) : bool :=
  Nat.eqb (String.length s) 10
  && two_digits (substring 0 2 s) month
  && String.eqb (substring 2 1 s) "/"
  && two_digits (substring 3 2 s) day
  && String.eqb (substring 5 1 s) "/"
  && four_digits (substring 6 4 s) year.

(** [s] consists of the decimal digits of [n], the first of which is not
    zero. *)
Definition plain_digits (s : string) (n : N) : bool :=
  match s with
  | String a _ =>
      negb (Ascii.eqb a "0")
      && (fix digits (s : string) : bool :=
            match s with
            | EmptyString => true
            | String c s' => is_digit c && digits s'
            end) s
      && match int_str s with Ok v => N.eqb v n | Raise _ => false end
  | EmptyString => false
  end.

(** [s] is [MM/DD/] followed by the year as a plain number. *)
Definition is_mm_dd_y (s : string) (month day year : N) : bool :=
  two_digits (substring 0 2 s) month
  && String.eqb (substring 2 1 s) "/"
  && two_digits (substring 3 2 s) day
  && String.eqb (substring 5 1 s) "/"
  && plain_digits (substring 6 (String.length s - 6) s) year.

(** The value at [affected[0].versions] of a CVE record. *)
Definition affected_versions (record : list (string * json)) : option json :=
  match json_get "affected" record with
  | Some affected =>
      match json_item 0 affected with
      | Some package => json_field "versions" package
      | None => None
      end
  | None => None
  end.

(** The keys of a CVE record, in the order the record lists them. *)
Definition CVE_RECORD_KEYS : list string :=
  ["title"; "metrics"; "descriptions"; "affected"; "references"; "credits";
   "timeline"; "datePublic"].

(** *** The version grammar

    The strings the parser is meant for: major and minor, an optional
    micro, and an optional suffix which is either the word final or a
    pre-release token with an optional iteration; hyphens and underscores
    may be strewn anywhere. *)

Inductive pre_token : Type :=
| tok_a | tok_b | tok_c | tok_alpha | tok_beta | tok_rc.

Inductive suffix : Type :=
| NoSuffix
| FinalSuffix
| PreSuffix (k : pre_token) (it : option N).

Record version_syntax : Type := {
  syn_major : N;
  syn_minor : N;
  syn_micro : option N;
  syn_suffix : suffix
}.

Definition token_text (k : pre_token) : string :=
  match k with
  | tok_a => "a"
  | tok_b => "b"
  | tok_c => "c"
  | tok_alpha => "alpha"
  | tok_beta => "beta"
  | tok_rc => "rc"
  end.

(** The status a token stands for and the suffix that status is printed
    with. *)
Definition token_status (k : pre_token) : string :=
  match k with
  | tok_a | tok_alpha => "alpha"
  | tok_b | tok_beta => "beta"
  | tok_c | tok_rc => "rc"
  end.

Definition token_short (k : pre_token) : pre_token :=
  match k with
  | tok_a | tok_alpha => tok_a
  | tok_b | tok_beta => tok_b
  | tok_c | tok_rc => tok_rc
  end.

Definition render_suffix (x : suffix) : string :=
  match x with
  | NoSuffix => EmptyString
  | FinalSuffix => "final"
  | PreSuffix k None => token_text k
  | PreSuffix k (Some i) => token_text k ++ str_int i
  end.

Definition render_micro (m : option N) : string :=
  match m with
  | None => EmptyString
  | Some m => "." ++ str_int m
  end.

(** The string a syntax tree is written as. *)
Definition render (v : version_syntax) : string :=
  str_int (syn_major v) ++ "." ++ str_int (syn_minor v)
  ++ render_micro (syn_micro v) ++ render_suffix (syn_suffix v).

Definition micro_of (v : version_syntax) : N :=
  match syn_micro v with None => 0 | Some m => m end.

(** The 5-tuple a syntax tree denotes. *)
Definition tuple_of (v : version_syntax) : list component :=
  [CInt (syn_major v); CInt (syn_minor v); CInt (micro_of v);
   CStr (match syn_suffix v with
         | PreSuffix k _ => token_status k
         | _ => "final"
         end);
   CInt (match syn_suffix v with
         | PreSuffix _ (Some i) => i
         | _ => 0
         end)].

(** The normal form of a syntax tree: no micro when it is zero, no word
    final, the short token and an explicit iteration. *)
Definition normalize (v : version_syntax) : version_syntax :=
  {| syn_major := syn_major v;
     syn_minor := syn_minor v;
     syn_micro := if N.eqb (micro_of v) 0 then None else Some (micro_of v);
     syn_suffix := match syn_suffix v with
                   | PreSuffix k None => PreSuffix (token_short k) (Some 0%N)
                   | PreSuffix k (Some i) => PreSuffix (token_short k) (Some i)
                   | _ => NoSuffix
                   end |}.

(** [s] is a version string of the grammar, with syntax tree [v]. *)
Definition spells (s : string) (v : version_syntax) : Prop :=
  remove_char "_" (remove_char "-" s) = render v.

(** Every character of [s] passes [p]. *)
Fixpoint string_forall (p : ascii -> bool) (s : string) : bool :=
  match s with
  | EmptyString => true
  | String c s' => p c && string_forall p s'
  end.

(** The class of the first character of a string. *)
Definition head_class (s : string) : option char_class :=
  match s with
  | EmptyString => None
  | String c _ => Some (classify c)
  end.

(** Neither a hyphen nor an underscore. *)
Definition is_plain (c : ascii) : bool :=
  negb (Ascii.eqb c "-") && negb (Ascii.eqb c "_").

(** ** Sample data *)

(** [Release.objects.create] for each instance in turn. *)
Fixpoint create_all (w : World) (instances : list Instance) : result World :=
  match instances with
  | [] => Ok w
  | i :: rest => w' <- create w i ;; create_all w' rest
  end.

Definition empty_world : World :=
  {| release_table := []; cached_current_version := None |}.

Definition table_after (instances : list Instance) : list Release :=
  match create_all empty_world instances with
  | Ok w => release_table w
  | Raise _ => []
  end.

(** A checklist due on 2 April 2025 with one issue, which affects the
    release candidate and the final build of 5.2 (dated 19 March and
    2 April 2025). *)
Definition sample_checklist : SecurityRelease :=
  {| checklist_id := 1;
     when := {| year := 2025; month := 4; day := 2; hour := 10; minute := 0;
                second := 0; microsecond := 0; utcoffset := Some 0%Z |} |}.

Definition sample_issue : SecurityIssue :=
  {| id := 1; cve_year_number := "CVE-2025-11111";
     cve_type := CVE_TYPE_OTHER; other_type := "DoS";
     attack_type := "Remote"; impact := "Denial of Service";
     severity := "moderate"; summary := "Potential denial-of-service";
     description := "A description."; blogdescription := EmptyString;
     reporter := "a reporter"; release_id := Some 1%N;
     commit_hash_main := EmptyString |}.

Definition sample_db : Database :=
  {| releases_of :=
       table_after [new_release "5.2rc1" true true (Some 739329%Z) None;
                    new_release "5.2" true true (Some 739343%Z) None];
     securityreleases_of := [sample_checklist];
     securityissues_of := [sample_issue];
     through_of :=
       [{| through_security_issue_id := 1; through_release_id := "5.2rc1";
           commit_hash := EmptyString |};
        {| through_security_issue_id := 1; through_release_id := "5.2";
           commit_hash := EmptyString |}] |}.

Definition release_52rc1 : Release :=
  {| version := "5.2rc1"; is_active := true; date := Some 739329%Z;
     eol_date := None; major := 5; minor := 2; micro := 0; status := "c";
     iteration := 1; is_lts := true |}.

Definition release_52 : Release :=
  {| version := "5.2"; is_active := true; date := Some 739343%Z;
     eol_date := None; major := 5; minor := 2; micro := 0; status := "f";
     iteration := 0; is_lts := true |}.

(** The state after [Release.objects.create(version="2.1.1")] on an empty
    table, with the release date at day 739343 and the active flag off. *)
Definition world_211 : World :=
  match create empty_world (new_release "2.1.1" false false (Some 739343%Z) None)
  with
  | Ok w => w
  | Raise _ => empty_world
  end.

(** An active [Release(version="2.1.2")] dated one day later. *)
Definition instance_212 : Instance :=
  new_release "2.1.2" true false (Some 739344%Z) None.

Definition saved_212 : World * Instance :=
  match save world_211 instance_212 with
  | Ok p => p
  | Raise _ => (world_211, instance_212)
  end.

(** A release 5.2 that has been saved once, and the state this left. *)
Definition saved_52 : World * Instance :=
  match save empty_world (new_release "5.2" true true (Some 739343%Z) None) with
  | Ok p => p
  | Raise _ => (empty_world, new_release "5.2" true true (Some 739343%Z) None)
  end.

(** The same object saved again after [self.version = "5.3"]. *)
Definition saved_53 : World * Instance :=
  match save (fst saved_52) (set_versions ["5.3"] (snd saved_52)) with
  | Ok p => p
  | Raise _ => saved_52
  end.

(** A new object whose version is assigned twice before it is saved. *)
Definition saved_new_53 : World * Instance :=
  match save empty_world
          (set_versions ["5.2"; "5.3"] (new_release "5.1" true false None None))
  with
  | Ok p => p
  | Raise _ => (empty_world, new_release "5.1" true false None None)
  end.

(** The data of [test_render_cve_json]: a checklist due on 4 December 2024
    at 10:00 UTC and one issue that affects 5.0.14, 5.1.8 and 5.2rc1. *)
Definition cve_checklist : SecurityRelease :=
  {| checklist_id := 7;
     when := {| year := 2024; month := 12; day := 4; hour := 10; minute := 0;
                second := 0; microsecond := 0; utcoffset := Some 0%Z |} |}.

Definition cve_issue : SecurityIssue :=
  {| id := 3; cve_year_number := "CVE-2024-53907";
     cve_type := CVE_TYPE_OTHER; other_type := "DoS";
     attack_type := "Remote"; impact := "Denial of Service";
     severity := "moderate";
     summary := "Potential denial-of-service in django.utils.html.strip_tags()";
     description := "The strip_tags() method is subject to a potential "
                    ++ "denial-of-service attack.";
     blogdescription := EmptyString;
     reporter := "jiangniao"; release_id := Some 7%N;
     commit_hash_main := EmptyString |}.

Definition cve_db : Database :=
  {| releases_of :=
       table_after [new_release "5.0.14" false false (Some 739343%Z) None;
                    new_release "5.1.8" false false (Some 739343%Z) None;
                    new_release "5.2rc1" false true (Some 739329%Z) None];
     securityreleases_of := [cve_checklist];
     securityissues_of := [cve_issue];
     through_of :=
       [{| through_security_issue_id := 3; through_release_id := "5.0.14";
           commit_hash := EmptyString |};
        {| through_security_issue_id := 3; through_release_id := "5.1.8";
           commit_hash := EmptyString |};
        {| through_security_issue_id := 3; through_release_id := "5.2rc1";
           commit_hash := EmptyString |}] |}.

Definition semver_entry (st v less_than : string) : json :=
  JDict [("status", JStr st); ("version", JStr v); ("lessThan", JStr less_than);
         ("versionType", JStr "semver")].

(** The two entries of a fixed release in [affected[0].versions]. *)
Definition version_range_entries (r : Release) : list json :=
  [semver_entry "affected"
     (str_int (major r) ++ "." ++ str_int (minor r) ++ ".0") (version r);
   semver_entry "unaffected" (version r)
     (str_int (major r) ++ "." ++ str_int (minor r) ++ ".*")].

(** The reading of the CVE record under which the date is always
    MM/DD/YYYY and the final releases of the issue are taken in descending
    order of (major, minor, micro). *)
Definition cve_record_in_version_order (db : Database) (self : SecurityIssue)
  (checklist : SecurityRelease) : Prop :=
  exists record,
    cve_data db self = Ok record /\
    map fst record = CVE_RECORD_KEYS /\
    (exists s, json_get "datePublic" record = Some (JStr s) /\
               is_mm_dd_yyyy s (month (when checklist)) (day (when checklist))
                 (year (when checklist)) = true) /\
    exists releases,
      Permutation releases
        (filter (fun r => String.eqb (status r) "f") (issue_releases db self)) /\
      StronglySorted version_ge releases /\
      affected_versions record
      = Some (JList (flat_map version_range_entries releases)).

(** Three final releases of the 1.x line, a checklist of 1 November 2016
    whose issue affects all three, and a checklist dated in the year 999
    whose issue affects none. *)
Definition checklist_2016 : SecurityRelease :=
  {| checklist_id := 11;
     when := {| year := 2016; month := 11; day := 1; hour := 10; minute := 0;
                second := 0; microsecond := 0; utcoffset := Some 0%Z |} |}.

Definition checklist_999 : SecurityRelease :=
  {| checklist_id := 12;
     when := {| year := 999; month := 1; day := 2; hour := 0; minute := 0;
                second := 0; microsecond := 0; utcoffset := None |} |}.

Definition issue_2016 : SecurityIssue :=
  {| id := 21; cve_year_number := "CVE-2016-9013";
     cve_type := CVE_TYPE_OTHER; other_type := "Hardcoded password";
     attack_type := "Remote"; impact := "Escalation of Privileges";
     severity := "moderate";
     summary := "User with hardcoded password created when running tests";
     description := "A hardcoded password is used for a temporary user.";
     blogdescription := EmptyString;
     reporter := "Marti Raudsepp"; release_id := Some 11%N;
     commit_hash_main := EmptyString |}.

Definition issue_999 : SecurityIssue :=
  {| id := 22; cve_year_number := "CVE-0999-0001";
     cve_type := CVE_TYPE_OTHER; other_type := "None";
     attack_type := "Remote"; impact := "Denial of Service";
     severity := "low"; summary := "An issue of long ago";
     description := "An issue of long ago."; blogdescription := EmptyString;
     reporter := "nobody"; release_id := Some 12%N;
     commit_hash_main := EmptyString |}.

Definition release_1_8_16 : Release :=
  {| version := "1.8.16"; is_active := true; date := Some 736269%Z;
     eol_date := None; major := 1; minor := 8; micro := 16; status := "f";
     iteration := 0; is_lts := true |}.

Definition release_1_9_11 : Release :=
  {| version := "1.9.11"; is_active := true; date := Some 736269%Z;
     eol_date := None; major := 1; minor := 9; micro := 11; status := "f";
     iteration := 0; is_lts := false |}.

Definition release_1_10_3 : Release :=
  {| version := "1.10.3"; is_active := true; date := Some 736269%Z;
     eol_date := None; major := 1; minor := 10; micro := 3; status := "f";
     iteration := 0; is_lts := false |}.

Definition db_2016 : Database :=
  {| releases_of :=
       table_after [new_release "1.8.16" true true (Some 736269%Z) None;
                    new_release "1.9.11" true false (Some 736269%Z) None;
                    new_release "1.10.3" true false (Some 736269%Z) None];
     securityreleases_of := [checklist_2016; checklist_999];
     securityissues_of := [issue_2016; issue_999];
     through_of :=
       [{| through_security_issue_id := 21; through_release_id := "1.8.16";
           commit_hash := EmptyString |};
        {| through_security_issue_id := 21; through_release_id := "1.9.11";
           commit_hash := EmptyString |};
        {| through_security_issue_id := 21; through_release_id := "1.10.3";
           commit_hash := EmptyString |}] |}.

(** The releases of [TestReleaseManager.setUpTestData], in the order they
    are created, for a given value of today. *)
Definition manager_fixture (today : Z) : list Instance :=
  [new_release "1.4" true true (Some (today - 450)%Z) (Some (today + 50)%Z);
   new_release "1.5" true false (Some (today - 350)%Z) (Some (today - 150)%Z);
   new_release "1.6" true false (Some (today - 250)%Z) (Some (today - 50)%Z);
   new_release "1.7" true false (Some (today - 150)%Z) (Some (today + 50)%Z);
   new_release "1.8a1" true false (Some (today - 80)%Z) (Some (today - 65)%Z);
   new_release "1.8b1" true true (Some (today - 65)%Z) (Some (today - 50)%Z);
   new_release "1.8" true true (Some (today - 50)%Z) (Some today);
   new_release "1.8.1" true true (Some today) None;
   new_release "1.9" true false None None;
   new_release "1.10" false false (Some today) None].


(* ================================================================== *)
(** * Part I, continued.  The rest of the module                       *)
(* ================================================================== *)

(** ** Upload paths *)

(** [upload_to_artifact]: the first two items of the version tuple name
    the directory; unpacking anything but two items is a [ValueError]. *)
Definition upload_to_artifact (release : Instance) (filename : string)
  : result (string * Instance) :=
  '(t, release) <- get_version_tuple release ;;
  match firstn 2 t with
  | [c_major; c_minor] =>
      Ok ("releases/" ++ str_component c_major ++ "." ++ str_component c_minor
          ++ "/" ++ filename, release)
  | _ => Raise ValueError
  end.

(** [upload_to_checksum]; the file name it is given plays no part. *)
Definition upload_to_checksum (django_VERSION : list component)
  (release : Instance) (filename : string) : result (string * Instance) :=
  '(t, release) <- get_version_tuple release ;;
  version <- get_version django_VERSION (Some t) ;;
  Ok ("pgp/Django-" ++ version ++ ".checksum.txt", release).

(** ** Artifact names *)

(** [name.split("/")]. *)
Fixpoint split_slash (s : string) : list string :=
  match s with
  | EmptyString => [EmptyString]
  | String c s' =>
      if Ascii.eqb c "/" then EmptyString :: split_slash s'
      else match split_slash s' with
           | h :: t => String c h :: t
           | [] => [String c EmptyString]
           end
  end.

(** [Path(name).name] on a POSIX system: the last component of the path,
    empty components and single dots not counting, and the empty string
    when nothing is left. *)
Definition path_name (name : string) : string :=
  last (filter (fun p => negb (String.eqb p EmptyString)
                         && negb (String.eqb p "."))
          (split_slash name))
       EmptyString.

(** The characters [re.escape] puts a backslash in front of:
    [()[]{}?*+-|^$\.&~#], the space and the five other ASCII blanks. *)
Definition is_re_special (c : ascii) : bool :=
  existsb (N.eqb (N_of_ascii c))
    [9; 10; 11; 12; 13; 32; 35; 36; 38; 40; 41; 42; 43; 45; 46; 63; 91; 92;
     93; 94; 123; 124; 125; 126]%N.

Definition BACKSLASH : ascii := ascii_of_N 92.

Definition NEWLINE : string := String (ascii_of_N 10) EmptyString.

(** [re.escape]. *)
Fixpoint re_escape (s : string) : string :=
  match s with
  | EmptyString => EmptyString
  | String c s' =>
      if is_re_special c then String BACKSLASH (String c (re_escape s'))
      else String c (re_escape s')
  end.

(** *** The fragment of regular expressions the validator needs

    Anchors, literal characters, escaped punctuation and sets of letters
    or digits.  A pattern that uses anything else is not read. *)

Inductive re_atom : Type :=
| ReBegin
| ReEnd
| ReChar (c : ascii)
| ReSet (cs : list ascii).

Inductive re_mode : Type :=
| Plain
| Escaped
| InSet (cs : list ascii).

Definition is_alnum (c : ascii) : bool :=
  let n := N_of_ascii c in
  ((48 <=? n)%N && (n <=? 57)%N) || ((65 <=? n)%N && (n <=? 90)%N)
  || ((97 <=? n)%N && (n <=? 122)%N).

(** The characters with a meaning of their own outside a set, the two
    anchors, the backslash and the opening bracket apart. *)
Definition is_re_operator (c : ascii) : bool :=
  existsb (N.eqb (N_of_ascii c)) [40; 41; 42; 43; 46; 63; 93; 123; 124; 125]%N.

Fixpoint parse_re (mode : re_mode) (pattern : string) : option (list re_atom) :=
  match pattern with
  | EmptyString =>
      match mode with
      | Plain => Some []
      | _ => None
      end
  | String c rest =>
      match mode with
      | Escaped =>
          if is_alnum c then None
          else option_map (cons (ReChar c)) (parse_re Plain rest)
      | InSet cs =>
          if Ascii.eqb c "]" then
            match cs with
            | [] => None
            | _ => option_map (cons (ReSet cs)) (parse_re Plain rest)
            end
          else if is_alnum c then parse_re (InSet (cs ++ [c])%list) rest
          else None
      | Plain =>
          if Ascii.eqb c BACKSLASH then parse_re Escaped rest
          else if Ascii.eqb c "[" then parse_re (InSet []) rest
          else if Ascii.eqb c "^" then option_map (cons ReBegin) (parse_re Plain rest)
          else if Ascii.eqb c "$" then option_map (cons ReEnd) (parse_re Plain rest)
          else if is_re_operator c then None
          else option_map (cons (ReChar c)) (parse_re Plain rest)
      end
  end.

(** Matching at one position.  [^] matches at the start of the subject
    only; [$] matches at its end and just before a newline that ends it. *)
Fixpoint re_match_here (atoms : list re_atom) (at_start : bool) (s : string)
  : bool :=
  match atoms with
  | [] => true
  | ReBegin :: atoms' => at_start && re_match_here atoms' at_start s
  | ReEnd :: atoms' =>
      (String.eqb s EmptyString || String.eqb s NEWLINE)
      && re_match_here atoms' at_start s
  | ReChar c :: atoms' =>
      match s with
      | String x s' => Ascii.eqb x c && re_match_here atoms' false s'
      | EmptyString => false
      end
  | ReSet cs :: atoms' =>
      match s with
      | String x s' => existsb (Ascii.eqb x) cs && re_match_here atoms' false s'
      | EmptyString => false
      end
  end.

Fixpoint re_search_from (atoms : list re_atom) (at_start : bool) (s : string)
  : bool :=
  re_match_here atoms at_start s
  || match s with
     | String _ s' => re_search_from atoms false s'
     | EmptyString => false
     end.

(** [re.compile(pattern).search(s)] as a truth value; [None] for a pattern
    outside the fragment. *)
Definition re_search (pattern s : string) : option bool :=
  option_map (fun atoms => re_search_from atoms true s) (parse_re Plain pattern).

(** The pattern [validate_artifact_name] builds. *)
Definition artifact_regex (version suffix : string) : string :=
  "^[Dd]jango-" ++ re_escape version ++ re_escape suffix ++ "$".

(** [Release.validate_artifact_name], with the call of the
    [RegexValidator] it returns.  The last branch is for a pattern outside
    the fragment, which [artifact_regex] never is. *)
Definition validate_artifact_name (django_VERSION : list component)
  (self : Instance) (name suffix : string) : result Instance :=
  let name := path_name name in
  '(t, self) <- get_version_tuple self ;;
  version <- get_version django_VERSION (Some t) ;;
  let regex := artifact_regex version suffix in
  let message :=
    "Filename " ++ name ++ " does not match pattern " ++ regex ++ "." in
  match re_search regex name with
  | Some true => Ok self
  | Some false => Raise (ValidationError message)
  | None => Raise ValueError
  end.

(** The names of the three files of a release; an empty name is a field
    without a file. *)
Record Artifacts : Type := {
  tarball : string;
  wheel : string;
  checksum : string
}.

(** How [Release.clean] ends: it returns, it raises a [ValidationError]
    for one field, or an exception of another kind passes through it. *)
Inductive clean_result : Type :=
| Cleaned (self : Instance)
| FieldError (field message : string)
| Propagated (e : exn).

Definition TARBALL_REQUIRED : string :=
  "This field is required when the release is active.".

Definition CHECKSUM_REQUIRED : string :=
  "This field is required when an artifact has been uploaded.".

(** The [try] blocks of [clean]: a [ValidationError] is raised again under
    the name of the field. *)
Definition validate_field (field : string) (r : result Instance)
  (k : Instance -> clean_result) : clean_result :=
  match r with
  | Ok self => k self
  | Raise (ValidationError message) => FieldError field message
  | Raise e => Propagated e
  end.

(** [Release.clean]. *)
Definition clean (django_VERSION : list component) (today : Z)
  (self : Instance) (files : Artifacts) : clean_result :=
  if is_published today (attrs self) && String.eqb (tarball files) EmptyString
  then FieldError "tarball" TARBALL_REQUIRED
  else if (negb (String.eqb (tarball files) EmptyString)
           || negb (String.eqb (wheel files) EmptyString))
          && String.eqb (checksum files) EmptyString
  then FieldError "checksum" CHECKSUM_REQUIRED
  else
    validate_field "tarball"
      (if negb (String.eqb (tarball files) EmptyString)
       then validate_artifact_name django_VERSION self (tarball files) ".tar.gz"
       else Ok self)
      (fun self =>
         validate_field "wheel"
           (if negb (String.eqb (wheel files) EmptyString)
            then validate_artifact_name django_VERSION self (wheel files)
                   "-py3-none-any.whl"
            else Ok self)
           Cleaned).

(** ** Release checklists

    The properties of [ReleaseChecklist] that depend on the release the
    checklist is tied to, if any: [getattr(self, "release", None)]. *)

(** [ReleaseChecklist.status]. *)
Definition ReleaseChecklist_status (release : option Release) : result string :=
  match release with
  | Some r => dict_get release_status_code (status r)
  | None => Ok EmptyString
  end.

(** [ReleaseChecklist.trove_classifier]. *)
Definition trove_classifier (release : option Release) : result string :=
  st <- ReleaseChecklist_status release ;;
  Ok (if String.eqb st "alpha" then "Development Status :: 3 - Alpha"
      else if String.eqb st "beta" || String.eqb st "rc"
           then "Development Status :: 4 - Beta"
           else "Development Status :: 5 - Production/Stable").

(** [ReleaseChecklist.version]. *)
Definition ReleaseChecklist_version (release : option Release) : string :=
  match release with
  | Some r => version r
  | None => "many"
  end.

(** [ReleaseChecklist.blogpost_template]. *)
Definition blogpost_template (release : option Release) : result string :=
  st <- ReleaseChecklist_status release ;;
  Ok ("generator/release_" ++ st ++ "_blogpost.rst").

(** [FeatureRelease.slug]. *)
Definition FeatureRelease_slug (release : option Release) : string :=
  "django-" ++ remove_char "." (ReleaseChecklist_version release) ++ "-released".

(** ** Vocabulary of the further statements *)

(** A release counts as supported on the day [d]. *)
Definition supported_on (objects : list Release) (d : Z) (r : Release) : Prop :=
  In r objects /\ (1 <= major r)%N /\ is_active r = true /\
  on_or_before (date r) d /\ ~ on_or_before (eol_date r) d /\ status r = "f".

(** A release is published on the day [d]. *)
Definition published_on (objects : list Release) (d : Z) (r : Release) : Prop :=
  In r objects /\ (1 <= major r)%N /\ is_active r = true /\
  on_or_before (date r) d /\ ~ on_or_before (eol_date r) d.

(** The base names the validator lets through for a version and a suffix. *)
Definition artifact_name_ok (version suffix name : string) : Prop :=
  exists d, (d = "D" \/ d = "d") /\
            (name = d ++ "jango-" ++ version ++ suffix \/
             name = d ++ ("jango-" ++ version ++ suffix) ++ NEWLINE).

(** A string without a slash that is neither empty nor a single dot. *)
Definition is_base_name (s : string) : Prop :=
  string_forall (fun c => negb (Ascii.eqb c "/")) s = true /\
  s <> EmptyString /\ s <> ".".

(** The row stored under a primary key. *)
Definition get_release (table : list Release) (v : string) : option Release :=
  find (fun x => String.eqb (version x) v) table.

(** Further sample data: a release 1.0 with the files of
    [test_artifact_name_validation_with_full_path]. *)
Definition files_10 : Artifacts :=
  {| tarball := "releases/1.0/django-1.0.tar.gz"; wheel := EmptyString;
     checksum := "checksu.txt" |}.

(** The literal characters of a string as atoms. *)
Definition lits (s : string) : list re_atom :=
  map ReChar (list_ascii_of_string s).



(** What [current_version] computes when the cache has nothing. *)
Definition current_version_of (today : Z) (table : list Release) : string :=
  match current today table None with
  | Some c => version c
  | None => EmptyString
  end.

(** What the cascade of [save] does to one row when [r] was saved. *)
Definition end_previous_micro (r x : Release) : Release :=
  if is_previous_micro r x then set_eol_date (date r) x else x.

(** The saved release sets off the cascade. *)
Definition cascades (r : Release) : bool :=
  String.eqb (status r) "f" && N.ltb 0 (micro r) && is_active r.

(** The four integers of a row are ones SQLite stores. *)
Definition sqlite_stores (ma mi mc it : N) : Prop :=
  (ma <= SQLITE_MAX_INTEGER /\ mi <= SQLITE_MAX_INTEGER /\
   mc <= SQLITE_MAX_INTEGER /\ it <= SQLITE_MAX_INTEGER)%N.

(** ** Vocabulary of the hash table

    The sum 1 + 5 + ... + 5^(n-1), which is what [n] turns of [5 i + 1]
    add to [5^n i]. *)
Fixpoint geometric (n : nat) : N :=
  match n with
  | O => 0
  | S n' => 5 * geometric n' + 1
  end.

(** One turn of the probe sequence once the perturbation is gone. *)
Definition next_slot (size i : N) : N := ((i * 5 + 1) mod size)%N.

(** One turn of the loop of [find_unused] on the slot and the
    perturbation. *)
Definition probe_step (mask : N) (st : N * N) : N * N :=
  let perturb := N.shiftr (snd st) PERTURB_SHIFT in
  (N.land (fst st * 5 + 1 + perturb) mask, perturb).

(** A table in the state [set_add_entry] leaves it in: a power of two of
    slots, less than three fifths of them used. *)
Definition table_invariant {A : Type} (table : list (option A)) : Prop :=
  (exists k, N.of_nat (length table) = 2 ^ N.of_nat k)%N /\
  (N.of_nat (length (entries table)) * 5
   < (N.of_nat (length table) - 1) * 3)%N.

(** Four spellings of the same final version and its release candidate,
    all affected by one issue. *)
Definition checklist_ties : SecurityRelease :=
  {| checklist_id := 31;
     when := {| year := 2025; month := 4; day := 2; hour := 10; minute := 0;
                second := 0; microsecond := 0; utcoffset := Some 0%Z |} |}.

Definition issue_ties : SecurityIssue :=
  {| id := 41; cve_year_number := "CVE-2025-22222";
     cve_type := CVE_TYPE_OTHER; other_type := "DoS";
     attack_type := "Remote"; impact := "Denial of Service";
     severity := "moderate"; summary := "A sample issue";
     description := "A sample issue."; blogdescription := EmptyString;
     reporter := "nobody"; release_id := Some 31%N;
     commit_hash_main := EmptyString |}.

Definition db_ties : Database :=
  {| releases_of :=
       table_after [new_release "5.2rc1" true true (Some 739329%Z) None;
                    new_release "5.2" true true (Some 739343%Z) None;
                    new_release "5.2.0" true true (Some 739343%Z) None;
                    new_release "5.2final" true true (Some 739343%Z) None];
     securityreleases_of := [checklist_ties];
     securityissues_of := [issue_ties];
     through_of :=
       map (fun v => {| through_security_issue_id := 41;
                        through_release_id := v;
                        commit_hash := EmptyString |})
           ["5.2rc1"; "5.2"; "5.2.0"; "5.2final"] |}.

(* ================================================================== *)
(** * Part II.  Properties                                             *)
(* ================================================================== *)

(** ** Evaluating the definitions *)

Example version_tuple_52 :
  version_tuple "5.2" = Ok [CInt 5; CInt 2; CInt 0; CStr "final"; CInt 0].
Proof. reflexivity. Qed.

Example version_tuple_52rc3 :
  version_tuple "5.2-rc_3" = Ok [CInt 5; CInt 2; CInt 0; CStr "rc"; CInt 3].
Proof. reflexivity. Qed.

Example version_tuple_malformed : version_tuple "5.2x1" = Raise KeyError.
Proof. reflexivity. Qed.

Example version_tuple_short : version_tuple "5" = Raise IndexError.
Proof. reflexivity. Qed.

Example get_version_110 :
  get_version [] (Some [CInt 1; CInt 10; CInt 0; CStr "beta"; CInt 2])
  = Ok "1.10b2".
Proof. reflexivity. Qed.

Example hash_empty_tuple : hash_tuple [] = 5740354900026072187%Z.
Proof. reflexivity. Qed.

Example hash_520 : hash_tuple [5%N; 2%N; 0%N] = (-6014785841483304134)%Z.
Proof. reflexivity. Qed.

(** The expectations of [TestReleaseManager], on the day 739343. *)

Example test_supported :
  map version (supported 739343 (table_after (manager_fixture 739343)) None)
  = ["1.8.1"; "1.7"; "1.4"].
Proof. vm_compute. reflexivity. Qed.

Example test_current_and_previous :
  option_map version (current 739343 (table_after (manager_fixture 739343)) None)
  = Some "1.8.1" /\
  option_map version (previous 739343 (table_after (manager_fixture 739343)) None)
  = Some "1.7".
Proof. split; vm_compute; reflexivity. Qed.

Example test_lts :
  map version (lts 739343 (table_after (manager_fixture 739343)) None)
  = ["1.8.1"; "1.4"] /\
  option_map version
    (previous_lts 739343 (table_after (manager_fixture 739343)) None)
  = Some "1.4".
Proof. split; vm_compute; reflexivity. Qed.

Example test_preview :
  preview 739343 (table_after (manager_fixture 739343)) None = None.
Proof. vm_compute. reflexivity. Qed.

(** The expectations of [test_render_checklist_affects_prerelease]. *)

Example test_versions :
  versions cve_db cve_checklist = ["5.1.8"; "5.0.14"] /\
  affected_branches cve_db cve_checklist
  = ["main"; "5.2 (currently at release candidate status)"; "5.1"; "5.0"].
Proof. split; vm_compute; reflexivity. Qed.

Example test_latest_release :
  match latest_release cve_db cve_checklist with
  | Ok r => version r
  | Raise _ => EmptyString
  end = "5.1.8".
Proof. vm_compute. reflexivity. Qed.

Example test_is_published :
  map (fun p => is_published 10 (attrs (new_release "1.0" (snd p) false (fst p) None)))
      [(None, true); (None, false); (Some 10%Z, true); (Some 10%Z, false);
       (Some 9%Z, true); (Some 9%Z, false); (Some 11%Z, true); (Some 11%Z, false)]
  = [false; false; true; false; true; false; false; false].
Proof. reflexivity. Qed.

Example isoformat_offsets :
  isoformat {| year := 2024; month := 12; day := 4; hour := 10; minute := 0;
               second := 0; microsecond := 5; utcoffset := Some (-19800)%Z |}
  = "2024-12-04T10:00:00.000005-05:30" /\
  isoformat {| year := 999; month := 1; day := 2; hour := 0; minute := 0;
               second := 0; microsecond := 0; utcoffset := None |}
  = "0999-01-02T00:00:00".
Proof. split; reflexivity. Qed.

Example clean_fields_default : clean_fields cve_issue = Ok cve_issue.
Proof. reflexivity. Qed.

(** ** Comparisons that sort *)

Lemma N_leb_preorder : TotalPreorder N.leb.
Proof.
  split.
  - intros x y. destruct (N.leb_spec x y); [now left | right].
    apply N.leb_le. lia.
  - intros x y z Hxy Hyz. apply N.leb_le in Hxy, Hyz. apply N.leb_le. lia.
Qed.

Lemma string_leb_trans (s1 s2 s3 : string) :
  String.leb s1 s2 = true -> String.leb s2 s3 = true -> String.leb s1 s3 = true.
Proof.
  unfold String.leb. revert s2 s3.
  induction s1 as [|a s1 IH]; intros s2 s3.
  - destruct s3; reflexivity.
  - destruct s2 as [|b s2]; [discriminate|].
    destruct s3 as [|c s3]; [discriminate|].
    cbn [String.compare]. unfold Ascii.compare.
    destruct (N.compare_spec (N_of_ascii a) (N_of_ascii b)) as [Hab|Hab|Hab];
      try discriminate;
      destruct (N.compare_spec (N_of_ascii b) (N_of_ascii c)) as [Hbc|Hbc|Hbc];
      try discriminate; intros H1 H2.
    + rewrite Hab, Hbc, N.compare_refl. now apply (IH s2 s3).
    + replace (N_of_ascii a ?= N_of_ascii c)%N with Lt; [reflexivity|].
      symmetry. apply N.compare_lt_iff. lia.
    + replace (N_of_ascii a ?= N_of_ascii c)%N with Lt; [reflexivity|].
      symmetry. apply N.compare_lt_iff. lia.
    + replace (N_of_ascii a ?= N_of_ascii c)%N with Lt; [reflexivity|].
      symmetry. apply N.compare_lt_iff. lia.
Qed.

Lemma string_leb_preorder : TotalPreorder String.leb.
Proof. split; [exact String.leb_total | exact string_leb_trans]. Qed.

Lemma on_preorder {A K : Type} (key : A -> K) (leb : K -> K -> bool) :
  TotalPreorder leb -> TotalPreorder (on key leb).
Proof.
  intros H. split; unfold on.
  - intros x y. apply leb_total.
  - intros x y z. apply leb_trans.
Qed.

Lemma desc_preorder {A : Type} (leb : A -> A -> bool) :
  TotalPreorder leb -> TotalPreorder (desc leb).
Proof.
  intros H. split; unfold desc.
  - intros x y. apply leb_total.
  - intros x y z Hxy Hyz. exact (leb_trans _ _ _ Hyz Hxy).
Qed.

Lemma lex_preorder {A : Type} (leb1 leb2 : A -> A -> bool) :
  TotalPreorder leb1 -> TotalPreorder leb2 -> TotalPreorder (lex leb1 leb2).
Proof.
  intros H1 H2. split; unfold lex.
  - intros x y.
    destruct (leb_total (leb := leb1) x y) as [H|H]; rewrite H;
      destruct (leb1 y x) eqn:E, (leb1 x y) eqn:E'; auto; try discriminate.
    all: apply leb_total.
  - intros x y z.
    destruct (leb1 x y) eqn:Exy; [|discriminate].
    destruct (leb1 y z) eqn:Eyz; [|intros; discriminate].
    rewrite (leb_trans _ _ _ Exy Eyz).
    destruct (leb1 z x) eqn:Ezx; [|reflexivity].
    rewrite (leb_trans _ _ _ Eyz Ezx), (leb_trans _ _ _ Ezx Exy).
    apply leb_trans.
Qed.

Section OrderBy.

Context {A : Type} (leb : A -> A -> bool).

Lemma insert_by_perm (x : A) (l : list A) :
  Permutation (insert_by leb x l) (x :: l).
Proof.
  induction l as [|y l IH]; simpl; [reflexivity|].
  destruct (leb x y); [reflexivity|].
  rewrite IH. apply perm_swap.
Qed.

Lemma order_by_perm (l : list A) : Permutation (order_by leb l) l.
Proof.
  induction l as [|x l IH]; simpl; [reflexivity|].
  rewrite insert_by_perm. now constructor.
Qed.

Lemma order_by_In (l : list A) (x : A) : In x (order_by leb l) <-> In x l.
Proof.
  split; apply Permutation_in;
    [apply order_by_perm | symmetry; apply order_by_perm].
Qed.

Context (leb_preorder : TotalPreorder leb).

Lemma insert_by_sorted (x : A) (l : list A) :
  StronglySorted (fun x y => leb x y = true) l ->
  StronglySorted (fun x y => leb x y = true) (insert_by leb x l).
Proof.
  induction l as [|y l IH]; intros Hs; simpl.
  - repeat constructor.
  - inversion Hs as [|? ? Hl Hy]; subst.
    destruct (leb x y) eqn:E.
    + constructor; [assumption|]. constructor; [exact E|].
      eapply Forall_impl; [|exact Hy]. intros z Hz.
      exact (leb_trans _ _ _ E Hz).
    + constructor; [now apply IH|].
      assert (Hyx : leb y x = true)
        by (destruct (leb_total (leb := leb) x y); congruence).
      apply Forall_forall. intros z Hz.
      apply (Permutation_in _ (insert_by_perm x l)) in Hz.
      destruct Hz as [<-|Hz]; [exact Hyx|].
      rewrite Forall_forall in Hy. now apply Hy.
Qed.

Lemma order_by_sorted (l : list A) :
  StronglySorted (fun x y => leb x y = true) (order_by leb l).
Proof.
  induction l as [|x l IH]; simpl; [constructor|].
  now apply insert_by_sorted.
Qed.

End OrderBy.

Lemma StronglySorted_impl {A : Type} (R S : A -> A -> Prop) (l : list A) :
  (forall x y, R x y -> S x y) -> StronglySorted R l -> StronglySorted S l.
Proof.
  intros HRS. induction 1 as [|x l Hl IH Hx]; constructor; [assumption|].
  eapply Forall_impl; [|exact Hx]. intros y. apply HRS.
Qed.

(** ** The published releases *)

Lemma lte_spec (column : option Z) (d : Z) :
  lte column d = true <-> on_or_before column d.
Proof.
  unfold lte, on_or_before. destruct column as [v|].
  - rewrite Z.leb_le. split.
    + intros H. now exists v.
    + intros (v' & E & H). now inversion E; subst.
  - split; [discriminate|]. now intros (v' & E & _).
Qed.

Lemma by_version_status_desc_spec (x y : Release) :
  by_version_status_desc x y = true <-> version_status_ge x y.
Proof.
  unfold by_version_status_desc, version_status_ge, lex, desc, on.
  destruct (N.leb_spec (major y) (major x)), (N.leb_spec (major x) (major y)),
    (N.leb_spec (minor y) (minor x)), (N.leb_spec (minor x) (minor y)),
    (N.leb_spec (micro y) (micro x)), (N.leb_spec (micro x) (micro y));
    try lia; intuition (try lia; try discriminate; auto).
Qed.

Lemma by_version_status_desc_preorder : TotalPreorder by_version_status_desc.
Proof.
  exact (lex_preorder _ _
           (desc_preorder _ (on_preorder major _ N_leb_preorder))
           (lex_preorder _ _
              (desc_preorder _ (on_preorder minor _ N_leb_preorder))
              (lex_preorder _ _
                 (desc_preorder _ (on_preorder micro _ N_leb_preorder))
                 (desc_preorder _ (on_preorder status _ string_leb_preorder))))).
Qed.

Lemma by_version_desc_preorder : TotalPreorder by_version_desc.
Proof.
  exact (lex_preorder _ _
           (desc_preorder _ (on_preorder major _ N_leb_preorder))
           (lex_preorder _ _
              (desc_preorder _ (on_preorder minor _ N_leb_preorder))
              (desc_preorder _ (on_preorder micro _ N_leb_preorder)))).
Qed.

Lemma by_version_desc_spec (x y : Release) :
  by_version_desc x y = true <-> version_ge x y.
Proof.
  unfold by_version_desc, version_ge, lex, desc, on.
  destruct (N.leb_spec (major y) (major x)), (N.leb_spec (major x) (major y)),
    (N.leb_spec (minor y) (minor x)), (N.leb_spec (minor x) (minor y)),
    (N.leb_spec (micro y) (micro x));
    try lia; intuition (try lia; try discriminate; auto).
Qed.

(** C4.  For every table and every date, [published] holds exactly the
    rows with major at least 1, the active flag set, a date that is set and
    not after the given day, and no end-of-life date on or before that day;
    so a row with no date or a later date is never in it, nor one whose
    end of life is that very day; and the result is sorted in descending
    order of (major, minor, micro, status). *)
Theorem published_exact (today : Z) (objects : list Release) (at_ : option Z) :
  let d := or_today today at_ in
  (forall r, In r (published today objects at_) <->
             In r objects /\ (1 <= major r)%N /\ is_active r = true /\
             on_or_before (date r) d /\ ~ on_or_before (eol_date r) d) /\
  (forall r, In r (published today objects at_) ->
             exists v, date r = Some v /\ (v <= d)%Z) /\
  (forall r, eol_date r = Some d -> ~ In r (published today objects at_)) /\
  Permutation (published today objects at_)
    (filter (fun r => N.leb 1 (major r) && is_active r && lte (date r) d
                      && negb (lte (eol_date r) d)) objects) /\
  StronglySorted version_status_ge (published today objects at_).
Proof.
  intros d.
  assert (Hin : forall r, In r (published today objects at_) <->
             In r objects /\ (1 <= major r)%N /\ is_active r = true /\
             on_or_before (date r) d /\ ~ on_or_before (eol_date r) d).
  { intros r. unfold published. fold d.
    rewrite order_by_In, !filter_In, !andb_true_iff, negb_true_iff,
      N.leb_le, lte_spec, <- not_true_iff_false, lte_spec.
    tauto. }
  split; [exact Hin|]. split; [|split; [|split]].
  - intros r Hr. apply Hin in Hr. exact (proj1 (proj2 (proj2 (proj2 Hr)))).
  - intros r He Hr. apply Hin in Hr.
    apply (proj2 (proj2 (proj2 (proj2 Hr)))). exists d. split; [exact He|lia].
  - unfold published. fold d. rewrite order_by_perm. clear Hin.
    induction objects as [|x l IH]; simpl; [reflexivity|].
    destruct (N.leb 1 (major x)), (lte (date x) d), (is_active x); simpl;
      try exact IH;
      destruct (lte (eol_date x) d); simpl; try apply perm_skip; exact IH.
  - unfold published.
    eapply StronglySorted_impl;
      [|apply (order_by_sorted _ by_version_status_desc_preorder)].
    intros x y. apply by_version_status_desc_spec.
Qed.

(** ** Cleaning the fields of a security issue *)

(** C9.  [clean_fields] raises, and then a validation error, exactly when
    the category is the sentinel with an empty free text or another
    category with a non-empty one; otherwise it returns with the object
    equal to what it was given. *)
Theorem clean_fields_iff (self : SecurityIssue) :
  ((exists e, clean_fields self = Raise e) <-> other_type_inconsistent self) /\
  (forall e, clean_fields self = Raise e -> exists m, e = ValidationError m) /\
  (~ other_type_inconsistent self -> clean_fields self = Ok self) /\
  (forall self', clean_fields self = Ok self' -> self' = self).
Proof.
  unfold clean_fields, other_type_inconsistent.
  destruct (String.eqb_spec (cve_type self) CVE_TYPE_OTHER) as [Ht|Ht],
    (String.eqb_spec (other_type self) EmptyString) as [Ho|Ho]; simpl;
    (split; [split|split; [|split]]);
    try (intros (e & E); discriminate);
    try (intros e E; inversion E; eexists; reflexivity);
    try (intros self' E; now inversion E);
    try discriminate;
    try (intros _; eexists; reflexivity);
    try tauto.
Qed.

(** ** The unsupported releases *)

Lemma series_in_spec (s : N * N) (seen : list (N * N)) :
  series_in s seen = true <-> In s seen.
Proof.
  unfold series_in. rewrite existsb_exists. split.
  - intros (t & Ht & E). unfold series_eqb in E.
    apply andb_true_iff in E. destruct E as [E1 E2].
    apply N.eqb_eq in E1, E2. destruct s, t; simpl in *; subst. exact Ht.
  - intros H. exists s. split; [exact H|].
    unfold series_eqb. now rewrite !N.eqb_refl.
Qed.

Lemma fold_unsupported_step (l : list Release) (seen : list (N * N))
  (acc : list Release) :
  snd (fold_left unsupported_step l (seen, acc))
  = (acc ++ first_of_each_series seen l)%list.
Proof.
  revert seen acc. induction l as [|r l IH]; intros seen acc; simpl.
  - now rewrite app_nil_r.
  - fold (series_of r). destruct (series_in (series_of r) seen); simpl.
    + apply IH.
    + rewrite IH, <- app_assoc. reflexivity.
Qed.

Lemma first_of_each_series_In (l : list Release) (seen : list (N * N))
  (r : Release) :
  In r (first_of_each_series seen l) ->
  In r l /\ ~ In (series_of r) seen.
Proof.
  revert seen. induction l as [|x l IH]; intros seen; simpl; [tauto|].
  destruct (series_in (series_of x) seen) eqn:E.
  - intros H. apply IH in H. tauto.
  - intros [<-|H].
    + split; [now left|]. rewrite <- series_in_spec, E. discriminate.
    + apply IH in H. simpl in H. tauto.
Qed.

Lemma first_of_each_series_NoDup (l : list Release) (seen : list (N * N)) :
  NoDup (map series_of (first_of_each_series seen l)).
Proof.
  revert seen. induction l as [|x l IH]; intros seen; simpl; [constructor|].
  destruct (series_in (series_of x) seen); [apply IH|].
  simpl. constructor; [|apply IH].
  rewrite in_map_iff. intros (r & E & Hr).
  apply first_of_each_series_In in Hr. apply (proj2 Hr). left. now symmetry.
Qed.

Lemma first_of_each_series_complete (l : list Release) (seen : list (N * N))
  (c : Release) :
  In c l -> ~ In (series_of c) seen ->
  exists r, In r (first_of_each_series seen l) /\ series_of r = series_of c.
Proof.
  revert seen. induction l as [|x l IH]; intros seen; simpl; [tauto|].
  intros Hc Hseen.
  destruct (series_in (series_of x) seen) eqn:E.
  - destruct Hc as [->|Hc].
    + apply series_in_spec in E. contradiction.
    + now apply IH.
  - destruct Hc as [->|Hc].
    + exists c. split; [now left|reflexivity].
    + destruct (series_in (series_of c) [series_of x]) eqn:Ex.
      * apply series_in_spec in Ex. destruct Ex as [Ex|[]].
        exists x. split; [now left|exact Ex].
      * destruct (IH (series_of x :: seen) Hc) as (r & Hr & Er).
        { intros [H|H]; [|contradiction].
          rewrite <- not_true_iff_false, series_in_spec in Ex.
          apply Ex. now left. }
        exists r. split; [now right|exact Er].
Qed.

Lemma first_of_each_series_latest (l : list Release) (seen : list (N * N))
  (r c : Release) :
  StronglySorted version_ge l ->
  In r (first_of_each_series seen l) -> In c l ->
  series_of c = series_of r -> (micro c <= micro r)%N.
Proof.
  intros Hs. revert seen.
  induction Hs as [|x l Hl IH Hx]; intros seen; simpl; [tauto|].
  rewrite Forall_forall in Hx.
  destruct (series_in (series_of x) seen) eqn:E.
  - intros Hr [<-|Hc] Es.
    + apply first_of_each_series_In in Hr. destruct Hr as [_ Hr].
      rewrite <- Es in Hr. apply series_in_spec in E. contradiction.
    + now apply (IH seen).
  - intros [<-|Hr] [<-|Hc] Es.
    + lia.
    + specialize (Hx c Hc). unfold version_ge in Hx.
      unfold series_of in Es. inversion Es. lia.
    + apply first_of_each_series_In in Hr. destruct Hr as [_ Hr].
      exfalso. apply Hr. left. exact Es.
    + now apply (IH (series_of x :: seen)).
Qed.

Lemma first_of_each_series_sorted (R : Release -> Release -> Prop)
  (l : list Release) (seen : list (N * N)) :
  StronglySorted R l -> StronglySorted R (first_of_each_series seen l).
Proof.
  intros Hs. revert seen.
  induction Hs as [|x l Hl IH Hx]; intros seen; simpl; [constructor|].
  destruct (series_in (series_of x) seen); [apply IH|].
  constructor; [apply IH|].
  rewrite Forall_forall in *. intros y Hy.
  apply first_of_each_series_In in Hy. now apply Hx.
Qed.

(** C5.  [unsupported] holds only final releases of major at least 1 whose
    end of life is set and not after the given day; none of them belongs to
    a series with a member in [supported]; no series appears twice, and the
    one kept for a series has the greatest micro among the releases of that
    series that qualify; every qualifying series without a supported member
    is represented; and the list is in descending order of version. *)
Theorem unsupported_exact (today : Z) (objects : list Release) (at_ : option Z) :
  let d := or_today today at_ in
  let result := unsupported today objects at_ in
  (forall r, In r result -> reached_end_of_life objects d r) /\
  (forall r s, In r result -> In s (supported today objects at_) ->
               ~ same_series r s) /\
  NoDup (map series_of result) /\
  (forall r c, In r result -> reached_end_of_life objects d c ->
               same_series c r -> (micro c <= micro r)%N) /\
  (forall c, reached_end_of_life objects d c ->
             (forall s, In s (supported today objects at_) -> ~ same_series c s) ->
             exists r, In r result /\ same_series r c) /\
  StronglySorted version_ge result.
Proof.
  intros d result.
  set (candidates :=
         order_by by_version_desc
           (filter (fun r => N.leb 1 (major r) && lte (eol_date r) d
                             && String.eqb (status r) "f")
              objects)).
  set (excluded := map series_of (supported today objects at_)).
  assert (Hres : result = first_of_each_series excluded candidates).
  { unfold result, unsupported. rewrite fold_unsupported_step. reflexivity. }
  assert (Hcand : forall r, In r candidates <-> reached_end_of_life objects d r).
  { intros r. unfold candidates, reached_end_of_life.
    rewrite order_by_In, filter_In, !andb_true_iff, N.leb_le, lte_spec,
      String.eqb_eq. tauto. }
  assert (Hsorted : StronglySorted version_ge candidates).
  { unfold candidates.
    eapply StronglySorted_impl;
      [|apply (order_by_sorted _ by_version_desc_preorder)].
    intros x y. apply by_version_desc_spec. }
  assert (Hexcl : forall r, In (series_of r) excluded <->
                    exists s, In s (supported today objects at_) /\ same_series r s).
  { intros r. unfold excluded. rewrite in_map_iff. unfold same_series, series_of.
    split.
    - intros (s & E & Hs). inversion E. exists s. auto.
    - intros (s & Hs & E1 & E2). exists s. split; [congruence|exact Hs]. }
  rewrite Hres. split; [|split; [|split; [|split; [|split]]]].
  - intros r Hr. apply Hcand. now apply first_of_each_series_In in Hr.
  - intros r s Hr Hs Hrs. apply first_of_each_series_In in Hr.
    apply (proj2 Hr). apply Hexcl. now exists s.
  - apply first_of_each_series_NoDup.
  - intros r c Hr Hc (E1 & E2).
    apply (first_of_each_series_latest candidates excluded r c Hsorted Hr).
    + now apply Hcand.
    + unfold series_of. congruence.
  - intros c Hc Hnone.
    destruct (first_of_each_series_complete candidates excluded c) as (r & Hr & E).
    + now apply Hcand.
    + rewrite Hexcl. intros (s & Hs & Hcs). exact (Hnone s Hs Hcs).
    + exists r. split; [exact Hr|]. unfold series_of in E. inversion E.
      now split.
  - now apply first_of_each_series_sorted.
Qed.

(** ** The order and the equality of releases *)

Lemma Release_lt_spec (x y : Release) :
  Release_lt x y = false <-> version_ge x y.
Proof.
  unfold Release_lt, tuple3_ltb, version_ge.
  destruct (N.eqb_spec (major x) (major y)), (N.eqb_spec (minor x) (minor y));
    simpl; rewrite N.ltb_ge; lia.
Qed.

Lemma version_ge_total (x y : Release) : version_ge x y \/ version_ge y x.
Proof. unfold version_ge. lia. Qed.

Lemma version_ge_trans (x y z : Release) :
  version_ge x y -> version_ge y z -> version_ge x z.
Proof. unfold version_ge. lia. Qed.

Lemma not_Release_lt_preorder :
  TotalPreorder (fun x y => negb (Release_lt x y)).
Proof.
  split.
  - intros x y. rewrite !negb_true_iff, !Release_lt_spec. apply version_ge_total.
  - intros x y z. rewrite !negb_true_iff, !Release_lt_spec.
    apply version_ge_trans.
Qed.

Lemma sorted_reverse_sorted (xs : list Release) :
  StronglySorted version_ge (sorted_reverse xs).
Proof.
  unfold sorted_reverse.
  eapply StronglySorted_impl; [|apply (order_by_sorted _ not_Release_lt_preorder)].
  intros x y H. apply Release_lt_spec. now apply negb_true_iff.
Qed.

Lemma sorted_reverse_In (xs : list Release) (x : Release) :
  In x (sorted_reverse xs) <-> In x xs.
Proof. apply order_by_In. Qed.

Lemma Release_eq_spec (a b : Release) :
  Release_eq a b = true <-> version a = version b.
Proof. apply String.eqb_eq. Qed.

Lemma Release_eq_refl (a : Release) : Release_eq a a = true.
Proof. apply String.eqb_refl. Qed.

Lemma equal_triple_equal_hash (a b : Release) :
  version_triple a = version_triple b -> Release_hash a = Release_hash b.
Proof.
  unfold version_triple, Release_hash. intros E. inversion E. reflexivity.
Qed.

Lemma equal_triple_unordered (a b : Release) :
  version_triple a = version_triple b ->
  Release_lt a b = false /\ Release_lt b a = false.
Proof.
  unfold version_triple. intros E. inversion E.
  rewrite !Release_lt_spec. unfold version_ge. lia.
Qed.

(** ** Python sets *)

Section PySetFacts.

Context {A : Type} (hash : A -> Z) (eq : A -> A -> bool).
Context (eq_refl_true : forall x, eq x x = true).

Lemma set_add_In (s : list A) (x y : A) :
  In y (set_add hash eq s x) -> In y s \/ y = x.
Proof.
  unfold set_add.
  destruct (existsb _ s); [now left|].
  rewrite in_app_iff. simpl. intuition.
Qed.

Lemma set_add_keeps (s : list A) (x y : A) :
  In y s -> In y (set_add hash eq s x).
Proof.
  unfold set_add. destruct (existsb _ s); [easy|].
  rewrite in_app_iff. now left.
Qed.

Lemma set_add_has (s : list A) (x : A) :
  exists y, In y (set_add hash eq s x) /\ hash y = hash x /\ eq y x = true.
Proof.
  unfold set_add.
  destruct (existsb _ s) eqn:E.
  - apply existsb_exists in E. destruct E as (y & Hy & E).
    apply andb_true_iff in E. destruct E as [E1 E2]. apply Z.eqb_eq in E1.
    now exists y.
  - exists x. rewrite in_app_iff. simpl. auto.
Qed.

Lemma fold_set_add_In (l s : list A) (y : A) :
  In y (fold_left (set_add hash eq) l s) -> In y s \/ In y l.
Proof.
  revert s. induction l as [|x l IH]; intros s; simpl; [now left|].
  intros H. apply IH in H. destruct H as [H|H]; [|now right; right].
  apply set_add_In in H. destruct H as [H| ->]; [now left|now right; left].
Qed.

Lemma fold_set_add_keeps (l s : list A) (y : A) :
  In y s -> In y (fold_left (set_add hash eq) l s).
Proof.
  revert s. induction l as [|x l IH]; intros s; simpl; [easy|].
  intros H. apply IH. now apply set_add_keeps.
Qed.

Lemma fold_set_add_has (l s : list A) (x : A) :
  In x l ->
  exists y, In y (fold_left (set_add hash eq) l s) /\
            hash y = hash x /\ eq y x = true.
Proof.
  revert s. induction l as [|z l IH]; intros s; simpl; [tauto|].
  intros [->|H]; [|now apply IH].
  destruct (set_add_has s x) as (y & Hy & E).
  exists y. split; [now apply fold_set_add_keeps|exact E].
Qed.

(** No two elements of a set are equal with equal hashes. *)
Lemma fold_set_add_distinct (l s : list A) :
  ForallOrdPairs (fun a b => ~ (hash a = hash b /\ eq a b = true)) s ->
  ForallOrdPairs (fun a b => ~ (hash a = hash b /\ eq a b = true))
    (fold_left (set_add hash eq) l s).
Proof.
  revert s. induction l as [|x l IH]; intros s Hs; simpl; [exact Hs|].
  apply IH. unfold set_add.
  destruct (existsb _ s) eqn:E; [exact Hs|].
  induction Hs as [|a s Ha Hs IHs]; simpl.
  - repeat constructor.
  - cbn [existsb] in E. apply orb_false_iff in E. destruct E as [Ea Es].
    constructor; [|now apply IHs].
    apply Forall_app. split; [exact Ha|].
    constructor; [|constructor].
    intros (E1 & E2). rewrite E1, Z.eqb_refl, E2 in Ea. discriminate.
Qed.

Lemma set_of_In (l : list A) (y : A) : In y (set_of hash eq l) -> In y l.
Proof.
  intros H. apply fold_set_add_In in H. destruct H as [[]|H]. exact H.
Qed.

Lemma set_of_has (l : list A) (x : A) :
  In x l ->
  exists y, In y (set_of hash eq l) /\ hash y = hash x /\ eq y x = true.
Proof. apply fold_set_add_has. Qed.

Lemma set_of_distinct (l : list A) :
  ForallOrdPairs (fun a b => ~ (hash a = hash b /\ eq a b = true))
    (set_of hash eq l).
Proof. apply fold_set_add_distinct. constructor. Qed.

(** The hash table holds the keys put into it, whatever slots they go to. *)
Lemma entries_put (table : list (option A)) (i : nat) (x : A) :
  nth_error table i = Some None ->
  Permutation (entries (put table i x)) (x :: entries table).
Proof.
  revert i. induction table as [|slot table IH]; intros [|i] H;
    try discriminate; cbn [put entries flat_map].
  - cbn [nth_error] in H. inversion H. reflexivity.
  - cbn [nth_error] in H. fold (entries (put table i x)). fold (entries table).
    rewrite (IH i H). apply Permutation_sym, Permutation_middle.
Qed.

Lemma linear_probe_unused (table : list (option A)) (i : N) (probes : nat)
  (j : N) :
  linear_probe table i probes = Some j -> is_unused table j = true.
Proof.
  revert i. induction probes as [|probes IH]; intros i; cbn [linear_probe];
    destruct (is_unused table i) eqn:E; intros H;
    try (inversion H; subst; exact E); try discriminate.
  now apply (IH (i + 1)%N).
Qed.

Lemma find_unused_unused (rounds : nat) (table : list (option A))
  (mask i perturb j : N) :
  find_unused rounds table mask i perturb = Some j -> is_unused table j = true.
Proof.
  revert i perturb. induction rounds as [|rounds IH]; intros i perturb;
    cbn [find_unused]; [discriminate|].
  destruct (linear_probe table i _) as [j'|] eqn:E.
  - intros H. inversion H; subst. now apply linear_probe_unused in E.
  - apply IH.
Qed.

Lemma set_insert_clean_entries (table : list (option A)) (x : A) :
  Permutation (entries (set_insert_clean hash table x)) (x :: entries table).
Proof.
  unfold set_insert_clean.
  destruct (find_unused _ table _ _ _) as [j|] eqn:E.
  - apply entries_put. apply find_unused_unused in E.
    unfold is_unused in E.
    destruct (nth_error table (N.to_nat j)) as [[y|]|]; try discriminate.
    reflexivity.
  - unfold entries. rewrite flat_map_app. cbn [flat_map app].
    apply Permutation_sym, Permutation_cons_append.
Qed.

Lemma fold_insert_clean_entries (l : list A) (table : list (option A)) :
  Permutation (entries (fold_left (set_insert_clean hash) l table))
    (entries table ++ l).
Proof.
  revert table. induction l as [|x l IH]; intros table; cbn [fold_left].
  - now rewrite app_nil_r.
  - rewrite IH, set_insert_clean_entries. apply Permutation_middle.
Qed.

Lemma entries_unused (n : nat) : entries (repeat (@None A) n) = [].
Proof. induction n as [|n IH]; [reflexivity|exact IH]. Qed.

Lemma set_add_entry_entries (table : list (option A)) (x : A) :
  Permutation (entries (set_add_entry hash table x)) (x :: entries table).
Proof.
  unfold set_add_entry. destruct (N.ltb _ _).
  - apply set_insert_clean_entries.
  - unfold set_table_resize.
    rewrite fold_insert_clean_entries, entries_unused. cbn [app].
    apply set_insert_clean_entries.
Qed.

Lemma fold_add_entry_entries (l : list A) (table : list (option A)) :
  Permutation (entries (fold_left (set_add_entry hash) l table))
    (entries table ++ l).
Proof.
  revert table. induction l as [|x l IH]; intros table; cbn [fold_left].
  - now rewrite app_nil_r.
  - rewrite IH, set_add_entry_entries. apply Permutation_middle.
Qed.

(** Iteration yields the elements of the set, each once. *)
Lemma set_iter_perm (l : list A) :
  Permutation (set_iter hash eq l) (set_of hash eq l).
Proof.
  unfold set_iter, set_table.
  now rewrite fold_add_entry_entries, entries_unused.
Qed.

Lemma set_iter_In (l : list A) (y : A) : In y (set_iter hash eq l) -> In y l.
Proof.
  intros H. apply set_of_In. exact (Permutation_in _ (set_iter_perm l) H).
Qed.

Lemma set_iter_has (l : list A) (x : A) :
  In x l ->
  exists y, In y (set_iter hash eq l) /\ hash y = hash x /\ eq y x = true.
Proof.
  intros H. destruct (set_of_has l x H) as (y & Hy & E).
  exists y. split; [|exact E].
  exact (Permutation_in _ (Permutation_sym (set_iter_perm l)) Hy).
Qed.

End PySetFacts.

(** ** The hash table of a set

    The probe sequence of a table of [2^k] slots goes, once the
    perturbation is used up, from [i] to [5 i + 1] modulo [2^k], and
    that walk passes every slot before it comes back.  So a key always
    finds an unused slot while there is one, and the resizing sees to it
    that there is. *)

Section PySetTable.

Local Open Scope N_scope.

Lemma geometric_closed (n : nat) : 4 * geometric n + 1 = 5 ^ N.of_nat n.
Proof.
  induction n as [|n IH]; [reflexivity|].
  rewrite Nat2N.inj_succ, N.pow_succ_r', <- IH. cbn [geometric]. lia.
Qed.

Lemma geometric_add (n m : nat) :
  geometric (n + m) = 5 ^ N.of_nat n * geometric m + geometric n.
Proof.
  induction n as [|n IH]; cbn [Nat.add geometric].
  - rewrite N.pow_0_r. lia.
  - rewrite IH, Nat2N.inj_succ, N.pow_succ_r'. lia.
Qed.

Lemma next_slot_mod (size a : N) :
  next_slot size (a mod size) = next_slot size a.
Proof.
  unfold next_slot.
  rewrite (N.Div0.add_mod (a mod size * 5)), N.Div0.mul_mod_idemp_l.
  now rewrite <- N.Div0.add_mod.
Qed.

Lemma iter_next_slot (size i : N) (n : nat) :
  Nat.iter n (next_slot size) i mod size
  = (5 ^ N.of_nat n * i + geometric n) mod size.
Proof.
  induction n as [|n IH].
  - change (Nat.iter 0 (next_slot size) i) with i.
    change (5 ^ N.of_nat 0) with 1. change (geometric 0) with 0.
    f_equal. lia.
  - rewrite Nat.iter_succ.
    rewrite <- next_slot_mod, IH, next_slot_mod.
    unfold next_slot. rewrite N.Div0.mod_mod.
    f_equal. rewrite Nat2N.inj_succ, N.pow_succ_r'.
    cbn [geometric]. lia.
Qed.

Lemma odd_cancel (k : nat) (a b : N) :
  N.odd b = true -> (2 ^ N.of_nat k | a * b) -> (2 ^ N.of_nat k | a).
Proof.
  intros Hb. revert a. induction k as [|k IH]; intros a H.
  - apply N.divide_1_l.
  - rewrite Nat2N.inj_succ, N.pow_succ_r' in *.
    assert (Ha : N.even a = true).
    { destruct H as [q Hq].
      assert (E : N.even (a * b) = true)
        by (rewrite Hq, N.even_mul, (N.even_mul 2), orb_true_r; reflexivity).
      assert (Eb : N.even b = false)
        by (rewrite <- N.negb_odd, Hb; reflexivity).
      rewrite N.even_mul, Eb, orb_false_r in E. exact E. }
    apply N.even_spec in Ha. destruct Ha as [a' ->].
    apply N.mul_divide_mono_l. apply IH.
    rewrite <- N.mul_assoc in H.
    apply N.mul_divide_cancel_l in H; [exact H|lia].
Qed.

Lemma pow5_mod4 (n : nat) : exists q, 5 ^ N.of_nat n = 4 * q + 1.
Proof.
  exists (geometric n). now rewrite geometric_closed.
Qed.

Lemma geometric_double (p : nat) :
  exists c, N.odd c = true /\ geometric (p + p) = geometric p * (2 * c).
Proof.
  exists (2 * geometric p + 1). split.
  - rewrite N.add_1_r, N.odd_succ, N.even_mul. reflexivity.
  - rewrite geometric_add. pose proof (geometric_closed p). nia.
Qed.

Lemma geometric_odd (p : nat) : N.odd (geometric (S (p + p))) = true.
Proof.
  cbn [geometric]. destruct (geometric_double p) as (c & _ & ->).
  rewrite N.add_1_r, N.odd_succ, !N.even_mul. cbn. now rewrite orb_true_r.
Qed.

Lemma geometric_divide (d k : nat) :
  (2 ^ N.of_nat k | geometric d) -> (2 ^ N.of_nat k | N.of_nat d).
Proof.
  revert k. induction d as [d IH] using lt_wf_ind. intros k H.
  destruct (Nat.Even_or_Odd d) as [[p ->]|[p ->]].
  - replace (2 * p)%nat with (p + p)%nat in * by lia.
    destruct k as [|k]; [apply N.divide_1_l|].
    destruct p as [|p]; [cbn; apply N.divide_0_r|].
    destruct (geometric_double (S p)) as (c & Hc & E). rewrite E in H.
    rewrite Nat2N.inj_succ, N.pow_succ_r' in *.
    replace (geometric (S p) * (2 * c)) with (2 * (geometric (S p) * c)) in H
      by lia.
    apply N.mul_divide_cancel_l in H; [|lia].
    apply (odd_cancel k _ c Hc) in H.
    apply IH in H; [|lia].
    replace (N.of_nat (S p + S p)) with (2 * N.of_nat (S p)) by lia.
    now apply N.mul_divide_mono_l.
  - replace (2 * p + 1)%nat with (S (p + p)) in * by lia.
    pose proof (geometric_odd p) as Ho.
    destruct k as [|k]; [apply N.divide_1_l|exfalso].
    rewrite Nat2N.inj_succ, N.pow_succ_r' in H.
    destruct H as [q Hq]. rewrite Hq in Ho.
    rewrite N.odd_mul, (N.odd_mul 2) in Ho. cbn in Ho.
    now rewrite andb_false_r in Ho.
Qed.

Lemma pow5_odd (m : nat) : N.odd (5 ^ N.of_nat m) = true.
Proof.
  destruct (pow5_mod4 m) as (q & ->).
  rewrite N.add_1_r, N.odd_succ, N.even_mul. reflexivity.
Qed.

Lemma mod_add_divide (s a x : N) :
  (a + x) mod s = a mod s -> (s | x).
Proof.
  intros H.
  pose proof (N.Div0.div_mod (a + x) s) as H1.
  pose proof (N.Div0.div_mod a s) as H2.
  rewrite H in H1.
  exists ((a + x) / s - a / s). rewrite N.mul_sub_distr_r.
  generalize dependent ((a + x) / s). generalize dependent (a / s).
  generalize dependent (a mod s). intros r _ q2 H2 q1 H1. nia.
Qed.

Lemma orbit_injective (k : nat) (i : N) (m n : nat) :
  (m < n)%nat -> N.of_nat n < 2 ^ N.of_nat k ->
  Nat.iter m (next_slot (2 ^ N.of_nat k)) i mod 2 ^ N.of_nat k
  <> Nat.iter n (next_slot (2 ^ N.of_nat k)) i mod 2 ^ N.of_nat k.
Proof.
  intros Hmn Hn E. rewrite !iter_next_slot in E.
  replace n with (m + (n - m))%nat in E by lia.
  set (d := (n - m)%nat) in *.
  assert (Hsum : 5 ^ N.of_nat (m + d) * i + geometric (m + d)
                 = (5 ^ N.of_nat m * i + geometric m)
                   + geometric d * (4 * i + 1) * 5 ^ N.of_nat m).
  { rewrite geometric_add, Nat2N.inj_add, N.pow_add_r.
    pose proof (geometric_closed d). nia. }
  rewrite Hsum in E. symmetry in E. apply mod_add_divide in E.
  apply (odd_cancel k _ _ (pow5_odd m)) in E.
  apply odd_cancel in E;
    [|rewrite N.add_1_r, N.odd_succ, N.even_mul; reflexivity].
  apply geometric_divide in E.
  destruct E as [q Hq].
  assert (0 < N.of_nat d) by (unfold d; lia).
  assert (N.of_nat d < 2 ^ N.of_nat k) by (unfold d; lia).
  destruct q as [|q]; nia.
Qed.

Lemma NoDup_map_seq {B : Type} (f : nat -> B) (start len : nat) :
  (forall m n, (start <= m < n)%nat -> (n < start + len)%nat -> f m <> f n) ->
  NoDup (map f (seq start len)).
Proof.
  revert start. induction len as [|len IH]; intros start H; cbn [seq map].
  - constructor.
  - constructor.
    + rewrite in_map_iff. intros (n & E & Hn). apply in_seq in Hn.
      apply (H start n); [lia|lia|now symmetry].
    + apply IH. intros m n Hm Hn. apply H; lia.
Qed.

Lemma orbit_surjective (k : nat) (i j : N) :
  j < 2 ^ N.of_nat k ->
  exists n, N.of_nat n < 2 ^ N.of_nat k /\
            Nat.iter n (next_slot (2 ^ N.of_nat k)) i mod 2 ^ N.of_nat k = j.
Proof.
  intros Hj. set (s := 2 ^ N.of_nat k) in *.
  set (orbit := map (fun n => Nat.iter n (next_slot s) i mod s)
                  (seq 0 (N.to_nat s))).
  assert (Hs : s <> 0) by (unfold s; apply N.pow_nonzero; lia).
  assert (Hnd : NoDup orbit).
  { apply NoDup_map_seq. intros m n Hm Hn.
    apply orbit_injective; lia. }
  assert (Hin : incl (map N.of_nat (seq 0 (N.to_nat s))) orbit).
  { apply NoDup_length_incl; [exact Hnd| |].
    - unfold orbit. now rewrite !length_map.
    - intros x Hx. unfold orbit in Hx. apply in_map_iff in Hx.
      destruct Hx as (n & <- & _). apply in_map_iff.
      exists (N.to_nat (Nat.iter n (next_slot s) i mod s)).
      split; [apply N2Nat.id|]. apply in_seq.
      pose proof (N.mod_upper_bound (Nat.iter n (next_slot s) i) s Hs) as Hb.
      generalize dependent (Nat.iter n (next_slot s) i mod s). intros; lia. }
  assert (Hjin : In j orbit).
  { apply Hin. apply in_map_iff. exists (N.to_nat j).
    split; [apply N2Nat.id|]. apply in_seq. lia. }
  unfold orbit in Hjin. apply in_map_iff in Hjin.
  destruct Hjin as (n & E & Hn). apply in_seq in Hn.
  exists n. split; [lia|exact E].
Qed.

Context {A : Type} (hash : A -> Z) (eq : A -> A -> bool).
Implicit Types table : list (option A).

Lemma linear_probe_none table (i : N) (probes : nat) :
  linear_probe table i probes = None -> is_unused table i = false.
Proof.
  destruct probes; cbn [linear_probe]; destruct (is_unused table i);
    intros H; try discriminate; reflexivity.
Qed.

Lemma find_unused_none (rounds : nat) table (mask i perturb : N) :
  find_unused rounds table mask i perturb = None ->
  forall r, (r < rounds)%nat ->
    is_unused table (fst (Nat.iter r (probe_step mask) (i, perturb))) = false.
Proof.
  revert i perturb. induction rounds as [|rounds IH]; intros i perturb H r Hr;
    [lia|].
  cbn [find_unused] in H.
  destruct (linear_probe table i _) eqn:E; [discriminate|].
  destruct r as [|r]; [now apply linear_probe_none in E|].
  rewrite Nat.iter_succ_r. apply (IH _ _ H). lia.
Qed.

Lemma probe_perturb (mask i perturb : N) (r : nat) :
  snd (Nat.iter r (probe_step mask) (i, perturb))
  = N.shiftr perturb (5 * N.of_nat r).
Proof.
  induction r as [|r IH].
  - cbn [Nat.iter nat_rect snd]. now rewrite N.mul_0_r, N.shiftr_0_r.
  - rewrite Nat.iter_succ. unfold probe_step at 1. cbn [snd].
    rewrite IH, N.shiftr_shiftr. unfold PERTURB_SHIFT. f_equal. lia.
Qed.

Lemma perturb_gone (perturb : N) (r : nat) :
  perturb < 2 ^ 64 -> (13 <= r)%nat -> N.shiftr perturb (5 * N.of_nat r) = 0.
Proof.
  intros Hp Hr. rewrite N.shiftr_div_pow2. apply N.div_small.
  apply (N.lt_le_trans _ _ _ Hp). apply N.pow_le_mono_r; lia.
Qed.

Lemma probe_step_plain (k : nat) (i : N) :
  probe_step (2 ^ N.of_nat k - 1) (i, 0)
  = (next_slot (2 ^ N.of_nat k) i, 0).
Proof.
  unfold probe_step, next_slot. cbn [fst snd].
  rewrite N.shiftr_0_l, N.add_0_r, N.sub_1_r, <- N.ones_equiv, N.land_ones.
  reflexivity.
Qed.

Lemma iter_probe_step_plain (k : nat) (i : N) (n : nat) :
  Nat.iter n (probe_step (2 ^ N.of_nat k - 1)) (i, 0)
  = (Nat.iter n (next_slot (2 ^ N.of_nat k)) i, 0).
Proof.
  induction n as [|n IH]; [reflexivity|].
  now rewrite !Nat.iter_succ, IH, probe_step_plain.
Qed.

Lemma probe_after_perturb (k : nat) (i perturb : N) (n : nat) :
  perturb < 2 ^ 64 ->
  fst (Nat.iter (n + 13) (probe_step (2 ^ N.of_nat k - 1)) (i, perturb))
  = Nat.iter n (next_slot (2 ^ N.of_nat k))
      (fst (Nat.iter 13 (probe_step (2 ^ N.of_nat k - 1)) (i, perturb))).
Proof.
  intros Hp. rewrite Nat.iter_add.
  pose proof (probe_perturb (2 ^ N.of_nat k - 1) i perturb 13) as E.
  rewrite (perturb_gone perturb 13 Hp (le_n 13)) in E.
  destruct (Nat.iter 13 (probe_step (2 ^ N.of_nat k - 1)) (i, perturb))
    as [i13 p13].
  cbn [snd fst] in *. subst p13.
  now rewrite iter_probe_step_plain.
Qed.

Lemma probe_slot_bound (k : nat) (st : N * N) :
  fst (probe_step (2 ^ N.of_nat k - 1) st) < 2 ^ N.of_nat k.
Proof.
  unfold probe_step. cbn [fst].
  rewrite N.sub_1_r, <- N.ones_equiv, N.land_ones.
  apply N.mod_upper_bound. apply N.pow_nonzero. lia.
Qed.

(** On a table of [2^k] slots one of which is unused, the loop comes to an
    unused slot within the turns it is given. *)
Lemma find_unused_total table (k : nat) (i perturb j : N) :
  N.of_nat (length table) = 2 ^ N.of_nat k ->
  perturb < 2 ^ 64 ->
  is_unused table j = true ->
  exists j', find_unused (rounds_for table) table (2 ^ N.of_nat k - 1) i perturb
             = Some j'.
Proof.
  intros Hlen Hp Hj.
  destruct (find_unused _ table _ i perturb) as [j'|] eqn:E; [now exists j'|].
  exfalso.
  assert (Hjk : j < 2 ^ N.of_nat k).
  { unfold is_unused in Hj.
    destruct (nth_error table (N.to_nat j)) eqn:En; [|discriminate].
    assert (N.to_nat j < length table)%nat
      by (apply nth_error_Some; congruence).
    lia. }
  set (mask := 2 ^ N.of_nat k - 1) in *.
  set (start := Nat.iter 13 (probe_step mask) (i, perturb)).
  destruct (orbit_surjective k (fst start) j Hjk) as (n & Hn & En).
  assert (Hb : fst start < 2 ^ N.of_nat k).
  { unfold start. change 13%nat with (S 12). rewrite Nat.iter_succ.
    apply probe_slot_bound. }
  assert (Hbn : Nat.iter n (next_slot (2 ^ N.of_nat k)) (fst start)
                < 2 ^ N.of_nat k).
  { destruct n as [|n]; [exact Hb|].
    rewrite Nat.iter_succ. unfold next_slot. apply N.mod_upper_bound.
    apply N.pow_nonzero. lia. }
  rewrite N.mod_small in En by exact Hbn.
  pose proof (find_unused_none _ _ _ _ _ E (n + 13)%nat) as Hnone.
  unfold mask in Hnone. rewrite (probe_after_perturb k i perturb n Hp) in Hnone.
  fold mask in Hnone. fold start in Hnone. rewrite En, Hj in Hnone.
  assert (n + 13 < rounds_for table)%nat by (unfold rounds_for; lia).
  specialize (Hnone H). discriminate.
Qed.

Lemma put_length table (i : nat) (x : A) : length (put table i x) = length table.
Proof.
  revert i. induction table as [|slot table IH]; intros [|i]; cbn [put length];
    try reflexivity.
  now rewrite IH.
Qed.

Lemma unused_exists table :
  (length (entries table) < length table)%nat ->
  exists j, is_unused table j = true.
Proof.
  induction table as [|[y|] table IH]; cbn [length]; intros H.
  - lia.
  - destruct IH as (j & Hj).
    { change (entries (Some y :: table)) with (y :: entries table) in H.
      cbn [length] in H. lia. }
    exists (N.succ j). unfold is_unused in *.
    rewrite N2Nat.inj_succ. exact Hj.
  - exists 0. reflexivity.
Qed.

Lemma unsigned_hash_bound (x : A) : unsigned_hash hash x < 2 ^ 64.
Proof.
  unfold unsigned_hash.
  pose proof (Z.mod_pos_bound (hash x) (2 ^ 64) ltac:(reflexivity)) as H.
  generalize dependent (hash x mod 2 ^ 64)%Z. intros z H.
  change (2 ^ 64) with (Z.to_N (2 ^ 64)). apply Z2N.inj_lt; lia.
Qed.

(** With room in a table of [2^k] slots, the key goes into one of them. *)
Lemma set_insert_clean_length table (x : A) :
  (exists k, N.of_nat (length table) = 2 ^ N.of_nat k) ->
  (length (entries table) < length table)%nat ->
  length (set_insert_clean hash table x) = length table.
Proof.
  intros (k & Hk) Hroom. destruct (unused_exists table Hroom) as (j & Hj).
  unfold set_insert_clean. rewrite Hk.
  destruct (find_unused_total table k
              (N.land (unsigned_hash hash x) (2 ^ N.of_nat k - 1))
              (unsigned_hash hash x) j Hk (unsigned_hash_bound x) Hj)
    as (j' & ->).
  apply put_length.
Qed.

Lemma set_insert_clean_count table (x : A) :
  length (entries (set_insert_clean hash table x))
  = S (length (entries table)).
Proof.
  exact (Permutation_length (set_insert_clean_entries hash table x)).
Qed.

Lemma fold_insert_clean_length (l : list A) table :
  (exists k, N.of_nat (length table) = 2 ^ N.of_nat k) ->
  (length (entries table) + length l <= length table)%nat ->
  length (fold_left (set_insert_clean hash) l table) = length table.
Proof.
  revert table. induction l as [|x l IH]; intros table Hk Hroom;
    cbn [fold_left]; [reflexivity|].
  cbn [length] in Hroom.
  assert (E : length (set_insert_clean hash table x) = length table)
    by (apply set_insert_clean_length; [exact Hk|lia]).
  rewrite IH, E; [reflexivity|now rewrite E|].
  rewrite set_insert_clean_count, E. lia.
Qed.

Lemma double_until_spec (turns : nat) (j : nat) (minused : N) :
  minused < 2 ^ N.of_nat (j + turns) ->
  exists k, double_until turns (2 ^ N.of_nat j) minused = 2 ^ N.of_nat k /\
            (j <= k)%nat /\
            minused < 2 ^ N.of_nat k.
Proof.
  revert j. induction turns as [|turns IH]; intros j H; cbn [double_until].
  - exists j. rewrite Nat.add_0_r in H. auto.
  - destruct (N.leb_spec (2 ^ N.of_nat j) minused) as [Hle|Hlt].
    + destruct (IH (S j)) as (k & E & Hjk & Hk).
      { now replace (S j + turns)%nat with (j + S turns)%nat by lia. }
      exists k. rewrite Nat2N.inj_succ, N.pow_succ_r' in E.
      split; [exact E|]. split; [lia|exact Hk].
    + exists j. auto.
Qed.

Lemma new_size_spec (minused : N) :
  exists k, new_size minused = 2 ^ N.of_nat k /\ (3 <= k)%nat /\
            minused < 2 ^ N.of_nat k.
Proof.
  unfold new_size. change (N.of_nat PySet_MINSIZE) with (2 ^ N.of_nat 3).
  apply double_until_spec.
  destruct minused as [|p]; [apply N.neq_0_lt_0, N.pow_nonzero; lia|].
  pose proof (N.log2_spec (N.pos p) ltac:(lia)) as [_ H].
  eapply N.lt_le_trans; [exact H|].
  apply N.pow_le_mono_r; lia.
Qed.

Lemma set_table_resize_length table (minused : N) :
  N.of_nat (length (entries table)) <= minused ->
  N.of_nat (length (set_table_resize hash table minused)) = new_size minused.
Proof.
  intros H. unfold set_table_resize.
  destruct (new_size_spec minused) as (k & E & _ & Hk).
  rewrite fold_insert_clean_length; rewrite ?repeat_length, ?N2Nat.id.
  - reflexivity.
  - now exists k.
  - rewrite entries_unused. cbn [length Nat.add]. lia.
Qed.

Lemma set_table_resize_entries table (minused : N) :
  Permutation (entries (set_table_resize hash table minused)) (entries table).
Proof.
  unfold set_table_resize.
  now rewrite fold_insert_clean_entries, entries_unused.
Qed.

Lemma set_add_entry_invariant table (x : A) :
  table_invariant table -> table_invariant (set_add_entry hash table x).
Proof.
  intros (Hk & Hfill). unfold set_add_entry.
  assert (El : length (set_insert_clean hash table x) = length table)
    by (apply set_insert_clean_length; [exact Hk|lia]).
  pose proof (set_insert_clean_count table x) as Ec.
  rewrite El, Ec.
  destruct (N.ltb_spec (N.of_nat (S (length (entries table))) * 5)
              ((N.of_nat (length table) - 1) * 3)) as [Hlt|Hge].
  - split; [now rewrite El|now rewrite El, Ec].
  - set (fill := N.of_nat (S (length (entries table)))) in *.
    set (minused := if 50000 <? fill then fill * 2 else fill * 4).
    assert (Hm : fill * 2 <= minused)
      by (unfold minused; destruct (50000 <? fill); lia).
    assert (Hcount : N.of_nat (length (entries (set_insert_clean hash table x)))
                     <= minused) by (rewrite Ec; fold fill; lia).
    pose proof (set_table_resize_length _ minused Hcount) as Elen.
    destruct (new_size_spec minused) as (k & E & _ & Hk').
    split; [exists k; now rewrite Elen|].
    rewrite Elen, E.
    rewrite (Permutation_length
               (set_table_resize_entries _ minused)), Ec.
    fold fill. assert (0 < fill) by (unfold fill; lia). lia.
Qed.

(** The table of a set is always in that state: no key was ever left
    without a slot. *)
Lemma set_table_invariant (l : list A) : table_invariant (set_table hash eq l).
Proof.
  unfold set_table. generalize (set_of hash eq l). intros keys.
  assert (H0 : table_invariant (repeat (@None A) PySet_MINSIZE)).
  { split; [now exists 3%nat|]. rewrite entries_unused. cbn. reflexivity. }
  revert H0. generalize (repeat (@None A) PySet_MINSIZE).
  induction keys as [|x keys IH]; intros table H; cbn [fold_left];
    [exact H|].
  apply IH. now apply set_add_entry_invariant.
Qed.

End PySetTable.

(** ** The releases affected by a security release *)

Lemma issue_releases_In (db : Database) (issue : SecurityIssue) (r : Release) :
  In r (issue_releases db issue) -> In r (releases_of db).
Proof.
  unfold issue_releases. rewrite in_flat_map. intros (t & _ & H).
  now apply filter_In in H.
Qed.

Lemma attached_spec (db : Database) (self : SecurityRelease) (r : Release) :
  In r (flat_map (issue_releases db) (securityissue_set db self))
  <-> attached db self r.
Proof. unfold attached. apply in_flat_map. Qed.

Lemma primary_key_determines (table : list Release) (a b : Release) :
  primary_key_unique table -> In a table -> In b table ->
  version a = version b -> a = b.
Proof.
  unfold primary_key_unique.
  induction table as [|x table IH]; simpl; [tauto|].
  intros Hnd. inversion Hnd as [|? ? Hx Hnd']; subst.
  intros [->|Ha] [->|Hb] E; auto.
  - exfalso. apply Hx. rewrite E. now apply in_map.
  - exfalso. apply Hx. rewrite <- E. now apply in_map.
Qed.

Lemma NoDup_map_of_pairs {A B : Type} (f : A -> B) (l : list A) :
  ForallOrdPairs (fun a b => f a <> f b) l -> NoDup (map f l).
Proof.
  induction 1 as [|a l Ha Hl IH]; simpl; constructor; [|exact IH].
  rewrite in_map_iff. intros (b & E & Hb).
  rewrite Forall_forall in Ha. exact (Ha b Hb (eq_sym E)).
Qed.

Lemma ForallOrdPairs_In_impl {A : Type} (P Q : A -> A -> Prop) (l : list A) :
  (forall a b, In a l -> In b l -> P a b -> Q a b) ->
  ForallOrdPairs P l -> ForallOrdPairs Q l.
Proof.
  intros HPQ H. induction H as [|a l Ha Hl IH]; constructor.
  - rewrite Forall_forall in *. intros b Hb.
    apply HPQ; [now left|now right|now apply Ha].
  - apply IH. intros x y Hx Hy. apply HPQ; now right.
Qed.

(** C1, as the code has it.  Releases with the same (major, minor, micro)
    hash alike and neither is less than the other, whatever their status
    and iteration; but [==] is that of the primary key, so two releases are
    equal exactly when their version strings are.  [affected_releases]
    therefore holds every attached release record once, however many issues
    list it, keeps a pre-release and a final build of the same micro
    version apart, and is in descending order of version. *)
Theorem affected_releases_by_primary_key (db : Database) (self : SecurityRelease) :
  primary_key_unique (releases_of db) ->
  (forall a b, version_triple a = version_triple b ->
               Release_hash a = Release_hash b /\
               Release_lt a b = false /\ Release_lt b a = false) /\
  (forall a b, Release_eq a b = true <-> version a = version b) /\
  (forall r, In r (affected_releases db self) <-> attached db self r) /\
  NoDup (map version (affected_releases db self)) /\
  StronglySorted version_ge (affected_releases db self).
Proof.
  intros Hpk.
  set (listed := flat_map (issue_releases db) (securityissue_set db self)).
  assert (Hrow : forall r, In r listed -> In r (releases_of db)).
  { intros r Hr. apply in_flat_map in Hr. destruct Hr as (i & _ & Hr).
    now apply issue_releases_In in Hr. }
  split; [|split; [|split; [|split]]].
  - intros a b E. split; [now apply equal_triple_equal_hash|].
    now apply equal_triple_unordered.
  - apply Release_eq_spec.
  - intros r. unfold affected_releases. fold listed.
    rewrite sorted_reverse_In, <- attached_spec. fold listed. split.
    + apply set_iter_In.
    + intros Hr.
      destruct (set_iter_has Release_hash Release_eq Release_eq_refl listed r Hr)
        as (y & Hy & _ & E).
      apply Release_eq_spec in E.
      assert (y = r); [|now subst].
      apply (primary_key_determines (releases_of db)); auto.
      apply Hrow. now apply set_iter_In in Hy.
  - unfold affected_releases. fold listed.
    apply (Permutation_NoDup
             (l := map version (set_of Release_hash Release_eq listed))).
    + apply Permutation_map. symmetry.
      transitivity (set_iter Release_hash Release_eq listed);
        [apply order_by_perm|apply set_iter_perm].
    + apply NoDup_map_of_pairs.
      eapply ForallOrdPairs_In_impl; [|apply set_of_distinct].
      intros a b Ha Hb Hab E. apply Hab.
      assert (a = b); [|subst; split; [reflexivity|now apply Release_eq_spec]].
      apply (primary_key_determines (releases_of db)); auto;
        apply Hrow; eapply set_of_In; eassumption.
  - apply sorted_reverse_sorted.
Qed.

(** The sample checklist has both builds of 5.2 among its affected
    releases. *)
Lemma affected_releases_by_primary_key_witness :
  primary_key_unique (releases_of sample_db) /\
  In release_52rc1 (affected_releases sample_db sample_checklist) /\
  In release_52 (affected_releases sample_db sample_checklist).
Proof.
  assert (Hpk : primary_key_unique (releases_of sample_db)).
  { unfold primary_key_unique. vm_compute.
    repeat constructor; simpl; intuition discriminate. }
  split; [exact Hpk|].
  destruct (affected_releases_by_primary_key sample_db sample_checklist Hpk)
    as (_ & _ & Hin & _).
  split; apply (proj2 (Hin _)); exists sample_issue; split; vm_compute; auto.
Defined.

(** C1, as the claim has it, fails on the sample checklist: the release
    candidate and the final build of 5.2 share (5, 2, 0) and yet are two
    elements of [affected_releases]. *)
Lemma affected_releases_keeps_both_builds :
  ~ collapses_equal_versions sample_db sample_checklist /\
  version_triple release_52rc1 = version_triple release_52 /\
  Release_eq release_52rc1 release_52 = false /\
  count_version (5, 2, 0)%N (affected_releases sample_db sample_checklist) = 2%nat.
Proof.
  split; [|repeat split; vm_compute; reflexivity].
  intros H.
  destruct (H release_52rc1 release_52) as (E & _).
  - exists sample_issue. split; vm_compute; auto.
  - exists sample_issue. split; vm_compute; auto.
  - reflexivity.
  - vm_compute in E. discriminate.
Qed.

(** ** The latest release of a security release *)

Lemma filter_first {A : Type} (f : A -> bool) (l : list A) :
  (exists x, In x l /\ f x = true) ->
  exists x pre post,
    l = (pre ++ x :: post)%list /\ Forall (fun y => f y = false) pre /\
    f x = true /\ filter f l = x :: filter f post.
Proof.
  induction l as [|a l IH]; intros (x & Hx & Hfx); [contradiction|].
  destruct (f a) eqn:Ea.
  - exists a, [], l. simpl. rewrite Ea. auto.
  - destruct Hx as [->|Hx]; [congruence|].
    destruct IH as (y & pre & post & -> & Hpre & Hy & Hf); [now exists x|].
    exists y, (a :: pre), post. simpl. rewrite Ea. auto.
Qed.

Lemma filter_none {A : Type} (f : A -> bool) (l : list A) :
  (forall x, In x l -> f x = false) -> filter f l = [].
Proof.
  induction l as [|a l IH]; intros H; simpl; [reflexivity|].
  rewrite (H a (or_introl eq_refl)). apply IH. intros x Hx. apply H. now right.
Qed.

(** C10.  [latest_release] is partial.  When some affected release is
    final it returns the first final one of [affected_releases], and no
    final affected release is greater; when every affected release is a
    pre-release, and in particular when there is none, it raises
    [IndexError]. *)
Theorem latest_release_partial (db : Database) (self : SecurityRelease) :
  ((exists r, In r (affected_releases db self) /\ is_pre_release r = false) ->
   exists r0 pre post,
     latest_release db self = Ok r0 /\
     affected_releases db self = (pre ++ r0 :: post)%list /\
     Forall (fun r => is_pre_release r = true) pre /\
     is_pre_release r0 = false /\
     forall r, In r (affected_releases db self) -> is_pre_release r = false ->
               version_ge r0 r) /\
  ((forall r, In r (affected_releases db self) -> is_pre_release r = true) ->
   latest_release db self = Raise IndexError) /\
  (affected_releases db self = [] -> latest_release db self = Raise IndexError).
Proof.
  assert (Hnone : (forall r, In r (affected_releases db self) ->
                             is_pre_release r = true) ->
                  latest_release db self = Raise IndexError).
  { intros H. unfold latest_release. rewrite filter_none; [reflexivity|].
    intros x Hx. now rewrite (H x Hx). }
  split; [|split; [exact Hnone|]].
  - intros (r & Hr & Hfinal).
    destruct (filter_first (fun r => negb (is_pre_release r))
                (affected_releases db self))
      as (r0 & pre & post & E & Hpre & H0 & Hf).
    { exists r. now rewrite Hfinal. }
    exists r0, pre, post. unfold latest_release. rewrite Hf.
    apply negb_true_iff in H0.
    split; [reflexivity|]. split; [exact E|]. split; [|split; [exact H0|]].
    + eapply Forall_impl; [|exact Hpre]. intros y. apply negb_false_iff.
    + intros x Hx Hxf.
      pose proof (sorted_reverse_sorted
                    (set_iter Release_hash Release_eq
                       (flat_map (issue_releases db) (securityissue_set db self))))
        as Hs.
      fold (affected_releases db self) in Hs. rewrite E in Hs, Hx.
      apply in_app_or in Hx. destruct Hx as [Hx|[<-|Hx]].
      * rewrite Forall_forall in Hpre. specialize (Hpre x Hx).
        rewrite Hxf in Hpre. discriminate.
      * unfold version_ge. lia.
      * clear -Hs Hx. induction pre as [|p pre IH]; simpl in Hs.
        -- inversion Hs as [|? ? _ Hall]; subst.
           rewrite Forall_forall in Hall. now apply Hall.
        -- inversion Hs; subst. now apply IH.
  - intros E. apply Hnone. rewrite E. contradiction.
Qed.

(** ** Saving a release *)

Lemma save_inv (w w' : World) (self self' : Instance) :
  save w self = Ok (w', self') ->
  exists ma mi mc k st it self1,
    get_version_tuple self
    = Ok ([CInt ma; CInt mi; CInt mc; CStr k; CInt it], self1) /\
    dict_get RELEASE_STATUS_REVERSE k = Ok st /\
    attrs self' =
      {| version := version (attrs self); is_active := is_active (attrs self);
         date := date (attrs self); eol_date := eol_date (attrs self);
         major := ma; minor := mi; micro := mc; status := st; iteration := it;
         is_lts := is_lts (attrs self) |} /\
    release_table w' =
      (if String.eqb st "f" && N.ltb 0 mc && is_active (attrs self)
       then update_eol_date ma mi (mc - 1) "f" (date (attrs self))
              (upsert (attrs self') (release_table w))
       else upsert (attrs self') (release_table w)).
Proof.
  unfold save, save_with.
  destruct (get_version_tuple self) as [[t self1]|e] eqn:Et; [|discriminate].
  assert (Ea : attrs self1 = attrs self).
  { unfold get_version_tuple in Et.
    destruct (cached_version_tuple self); [now inversion Et|].
    destruct (version_tuple _); [|discriminate]. now inversion Et. }
  cbn [bind].
  destruct t as [|c0 [|c1 [|c2 [|c3 [|c4 [|c5 t]]]]]]; try discriminate.
  destruct c3 as [n|k]; [discriminate|]. cbn [dict_get_component].
  destruct (dict_get RELEASE_STATUS_REVERSE k) as [st|] eqn:Est;
    [|discriminate].
  destruct c0 as [ma|]; [|discriminate].
  destruct c1 as [mi|]; [|discriminate].
  destruct c2 as [mc|]; [|discriminate].
  destruct c4 as [it|]; [|discriminate].
  cbn [bind int_column].
  destruct (sqlite_integers [ma; mi; mc; it]); [|discriminate].
  cbn [bind attrs status micro major minor is_active date].
  rewrite Ea. intros E. inversion E; subst; clear E.
  exists ma, mi, mc, k, st, it, self1. cbn [attrs]. auto.
Qed.

Lemma rows_except_upsert (r : Release) (table : list Release) :
  rows_except (version r) (upsert r table) = rows_except (version r) table.
Proof.
  unfold rows_except.
  induction table as [|x table IH]; simpl.
  - now rewrite String.eqb_refl.
  - destruct (String.eqb (version x) (version r)) eqn:E; simpl.
    + now rewrite String.eqb_refl.
    + now rewrite E, IH.
Qed.

Lemma rows_except_map (v : string) (f : Release -> Release)
  (table : list Release) :
  (forall x, version (f x) = version x) ->
  rows_except v (map f table) = map f (rows_except v table).
Proof.
  intros Hf. unfold rows_except.
  induction table as [|x table IH]; simpl; [reflexivity|].
  rewrite Hf. destruct (String.eqb (version x) v); simpl; now rewrite IH.
Qed.

Lemma upsert_In (r : Release) (table : list Release) : In r (upsert r table).
Proof.
  induction table as [|x table IH]; simpl; [now left|].
  destruct (String.eqb (version x) (version r)); [now left|now right].
Qed.

Lemma dict_get_status_final (k st : string) :
  dict_get RELEASE_STATUS_REVERSE k = Ok st -> (st = "f" <-> k = "final").
Proof.
  unfold RELEASE_STATUS_REVERSE, dict_get.
  destruct (String.eqb_spec "alpha" k) as [<-|H1];
    [intros E; inversion E; split; intros; discriminate|].
  destruct (String.eqb_spec "beta" k) as [<-|H2];
    [intros E; inversion E; split; intros; discriminate|].
  destruct (String.eqb_spec "rc" k) as [<-|H3];
    [intros E; inversion E; split; intros; discriminate|].
  destruct (String.eqb_spec "final" k) as [<-|H4];
    [intros E; inversion E; split; reflexivity|].
  discriminate.
Qed.

(** C3.  A successful [save] leaves the saved release with the status,
    micro and active flag that decide the cascade.  When the status is
    final, the micro above zero and the release active, every other row of
    the same (major, minor), micro one less and final status gets the date
    of the saved release as its end of life, and the remaining rows are as
    they were; in every other case all other rows are as they were. *)
Theorem save_eol_cascade (w w' : World) (self self' : Instance) :
  save w self = Ok (w', self') ->
  let r := attrs self' in
  (exists k, (exists t i, get_version_tuple self = Ok (t, i) /\
                          nth_error t 2 = Some (CInt (micro r)) /\
                          nth_error t 3 = Some (CStr k)) /\
             (status r = "f" <-> k = "final")) /\
  version r = version (attrs self) /\ date r = date (attrs self) /\
  is_active r = is_active (attrs self) /\
  (status r = "f" /\ (0 < micro r)%N /\ is_active r = true ->
   rows_except (version r) (release_table w')
   = map (fun x => if is_previous_micro r x then set_eol_date (date r) x else x)
         (rows_except (version r) (release_table w))) /\
  (~ (status r = "f" /\ (0 < micro r)%N /\ is_active r = true) ->
   rows_except (version r) (release_table w')
   = rows_except (version r) (release_table w)).
Proof.
  intros H r.
  destruct (save_inv _ _ _ _ H)
    as (ma & mi & mc & k & st & it & self1 & Et & Est & Ea & Etab).
  fold r in Ea, Etab.
  assert (Hv : version r = version (attrs self)) by now rewrite Ea.
  assert (Hd : date r = date (attrs self)) by now rewrite Ea.
  assert (Ha : is_active r = is_active (attrs self)) by now rewrite Ea.
  assert (Hst : status r = st) by now rewrite Ea.
  assert (Hma : major r = ma) by now rewrite Ea.
  assert (Hmi : minor r = mi) by now rewrite Ea.
  assert (Hmc : micro r = mc) by now rewrite Ea.
  rewrite <- Hst, <- Hma, <- Hmi, <- Hmc, <- Hd, <- Ha in Etab.
  clear Ea.
  split; [|split; [exact Hv|split; [exact Hd|split; [exact Ha|split]]]].
  - exists k. split; [|rewrite Hst; now apply dict_get_status_final].
    eexists. eexists. split; [exact Et|]. rewrite Hmc. split; reflexivity.
  - intros (Hf & Hpos & Hact). rewrite Etab.
    apply N.ltb_lt in Hpos. rewrite Hf, Hpos, Hact.
    change (String.eqb "f" "f") with true. cbn [andb].
    unfold update_eol_date.
    rewrite rows_except_map
      by (intros x; destruct (_ && _ && _ && _); reflexivity).
    rewrite rows_except_upsert.
    apply map_ext. intros x. unfold is_previous_micro.
    apply N.ltb_lt in Hpos.
    replace (N.eqb (micro x + 1) (micro r))
      with (N.eqb (micro x) (micro r - 1)); [reflexivity|].
    destruct (N.eqb_spec (micro x) (micro r - 1)),
      (N.eqb_spec (micro x + 1) (micro r)); try reflexivity; lia.
  - intros Hno. rewrite Etab.
    replace (String.eqb (status r) "f" && N.ltb 0 (micro r) && is_active r)
      with false.
    + apply rows_except_upsert.
    + symmetry. apply not_true_iff_false. intros Hc. apply Hno.
      apply andb_true_iff in Hc. destruct Hc as [Hc Hact].
      apply andb_true_iff in Hc. destruct Hc as [Hf Hpos].
      apply String.eqb_eq in Hf. apply N.ltb_lt in Hpos. auto.
Qed.

(** The first test case of [test_save_sets_eol_date] with a cascade:
    saving an active 2.1.2 ends the life of 2.1.1 on the date of 2.1.2. *)
Lemma save_eol_cascade_witness :
  save world_211 instance_212 = Ok saved_212 /\
  map (fun x => (version x, eol_date x))
      (rows_except "2.1.2" (release_table (fst saved_212)))
  = [("2.1.1", Some 739344%Z)].
Proof.
  assert (H : save world_211 instance_212 = Ok (fst saved_212, snd saved_212))
    by (vm_compute; reflexivity).
  split; [exact H|].
  destruct (save_eol_cascade _ _ _ _ H) as (_ & Hv & _ & _ & Hc & _).
  change "2.1.2" with (version (attrs instance_212)).
  rewrite <- Hv, Hc; [vm_compute; reflexivity|].
  vm_compute. repeat split.
Defined.

(** ** The stored decomposition *)

Lemma set_versions_cache (versions : list string) (self : Instance) :
  cached_version_tuple (set_versions versions self) = cached_version_tuple self.
Proof.
  unfold set_versions. revert self.
  induction versions as [|v vs IH]; intros self; simpl; [reflexivity|].
  now rewrite IH.
Qed.

Lemma status_code_inverse (k st : string) :
  dict_get RELEASE_STATUS_REVERSE k = Ok st ->
  dict_get release_status_code st = Ok k.
Proof.
  unfold RELEASE_STATUS_REVERSE, dict_get.
  destruct (String.eqb_spec "alpha" k) as [<-|H1];
    [intros E; inversion E; reflexivity|].
  destruct (String.eqb_spec "beta" k) as [<-|H2];
    [intros E; inversion E; reflexivity|].
  destruct (String.eqb_spec "rc" k) as [<-|H3];
    [intros E; inversion E; reflexivity|].
  destruct (String.eqb_spec "final" k) as [<-|H4];
    [intros E; inversion E; reflexivity|].
  discriminate.
Qed.

(** C7, as the code has it.  What [save] writes is the decomposition of
    the value of [version_tuple], and that value is computed once for each
    object.  The row written carries the version string the object has at
    that moment; its decomposition is the one that string parses to
    whenever [version_tuple] had not been read on the object before the
    assignments to [version], and otherwise the one cached by that earlier
    read. *)
Theorem save_writes_version_tuple (w w' : World) (self self' : Instance)
  (versions : list string) :
  save w (set_versions versions self) = Ok (w', self') ->
  In (attrs self') (release_table w') /\
  version (attrs self') = version (attrs (set_versions versions self)) /\
  (exists i, get_version_tuple (set_versions versions self)
             = Ok (row_version_tuple (attrs self'), i)) /\
  (cached_version_tuple self = None -> in_sync (attrs self')) /\
  (forall t, cached_version_tuple self = Some t ->
             row_version_tuple (attrs self') = t).
Proof.
  intros H.
  destruct (save_inv _ _ _ _ H)
    as (ma & mi & mc & k & st & it & self1 & Et & Est & Ea & Etab).
  assert (Hrow : row_version_tuple (attrs self')
                 = [CInt ma; CInt mi; CInt mc; CStr k; CInt it]).
  { rewrite Ea. unfold row_version_tuple. cbn [major minor micro status iteration].
    now rewrite (status_code_inverse _ _ Est). }
  rewrite Hrow.
  split; [|split; [now rewrite Ea|split; [now exists self1|split]]].
  - rewrite Etab.
    destruct (String.eqb st "f" && N.ltb 0 mc && is_active _) eqn:Ec;
      [|apply upsert_In].
    unfold update_eol_date. apply in_map_iff. exists (attrs self').
    split; [|apply upsert_In].
    apply andb_true_iff in Ec. destruct Ec as [Ec _].
    apply andb_true_iff in Ec. destruct Ec as [_ Hpos]. apply N.ltb_lt in Hpos.
    rewrite Ea. cbn [major minor micro status].
    replace (N.eqb mc (mc - 1)) with false; [now rewrite andb_false_r|].
    symmetry. apply N.eqb_neq. lia.
  - intros Hc. unfold in_sync. rewrite Hrow, Ea. cbn [version].
    unfold get_version_tuple in Et. rewrite set_versions_cache, Hc in Et.
    destruct (version_tuple _) as [t|]; [|discriminate].
    now inversion Et.
  - intros t Hc. unfold get_version_tuple in Et.
    rewrite set_versions_cache, Hc in Et. now inversion Et.
Qed.

(** On a new object the decomposition written follows the last version
    assigned. *)
Lemma save_writes_version_tuple_witness :
  save empty_world
    (set_versions ["5.2"; "5.3"] (new_release "5.1" true false None None))
  = Ok saved_new_53 /\
  in_sync (attrs (snd saved_new_53)).
Proof.
  assert (H : save empty_world
                (set_versions ["5.2"; "5.3"]
                   (new_release "5.1" true false None None))
              = Ok (fst saved_new_53, snd saved_new_53))
    by (vm_compute; reflexivity).
  split; [exact H|].
  destruct (save_writes_version_tuple _ _ _ _ _ H) as (_ & _ & _ & Hs & _).
  apply Hs. reflexivity.
Defined.

(** C7, as the claim has it, fails once [version_tuple] has been read: an
    object saved as 5.2, then given the version 5.3 and saved again, is
    stored under 5.3 with the decomposition of 5.2. *)
Lemma save_after_version_change_drifts :
  ~ never_drifts /\
  save empty_world (new_release "5.2" true true (Some 739343%Z) None)
  = Ok saved_52 /\
  save (fst saved_52) (set_versions ["5.3"] (snd saved_52)) = Ok saved_53 /\
  version (attrs (snd saved_53)) = "5.3" /\
  row_version_tuple (attrs (snd saved_53))
  = [CInt 5; CInt 2; CInt 0; CStr "final"; CInt 0] /\
  version_tuple "5.3" = Ok [CInt 5; CInt 3; CInt 0; CStr "final"; CInt 0].
Proof.
  split; [|repeat split; vm_compute; reflexivity].
  intros H.
  assert (E : save (fst saved_52) (set_versions ["5.3"] (snd saved_52))
              = Ok (fst saved_53, snd saved_53)) by (vm_compute; reflexivity).
  apply H in E. vm_compute in E. discriminate.
Qed.

(** ** The CVE record *)

Example cve_data_of_test :
  exists record,
    cve_data cve_db cve_issue = Ok record /\
    affected_versions record
    = Some (JList [semver_entry "affected" "5.1.0" "5.1.8";
                   semver_entry "unaffected" "5.1.8" "5.1.*";
                   semver_entry "affected" "5.0.0" "5.0.14";
                   semver_entry "unaffected" "5.0.14" "5.0.*"]) /\
    json_get "datePublic" record = Some (JStr "12/04/2024") /\
    json_get "references" record
    = Some (JList [JDict
        [("url", JStr ("https://www.djangoproject.com/weblog/2024/dec/04/"
                       ++ "security-releases/"));
         ("name", JStr "Django security releases issued: 5.1.8 and 5.0.14");
         ("tags", JList [JStr "vendor-advisory"])]]) /\
    json_get "timeline" record
    = Some (JList [JDict [("lang", JStr "en");
                          ("time", JStr "2024-12-04T10:00:00+00:00");
                          ("value", JStr "Made public.")]]).
Proof. eexists. repeat split. Qed.

Lemma append_assoc (a b c : string) : (a ++ b) ++ c = a ++ (b ++ c).
Proof. induction a as [|x a IH]; simpl; [reflexivity|now rewrite IH]. Qed.

Lemma append_nil_r (a : string) : a ++ EmptyString = a.
Proof. induction a as [|x a IH]; simpl; [reflexivity|now rewrite IH]. Qed.

Lemma fold_cve_data_step (l : list Release) (acc : list json)
  (names : list string) :
  fold_left cve_data_step l (acc, names)
  = ((acc ++ flat_map (fun r => [affected_entry r; unaffected_entry r]) l)%list,
     (names ++ map version l)%list).
Proof.
  revert acc names. induction l as [|r l IH]; intros acc names; simpl.
  - now rewrite !app_nil_r.
  - rewrite IH, <- !app_assoc. reflexivity.
Qed.

Lemma small_range (P : N -> bool) (bound : N) :
  forallb P (map N.of_nat (seq 0 (N.to_nat bound))) = true ->
  forall n, (n < bound)%N -> P n = true.
Proof.
  intros H n Hn. rewrite forallb_forall in H. apply H.
  apply in_map_iff. exists (N.to_nat n). split; [apply N2Nat.id|].
  apply in_seq. lia.
Qed.

Lemma zero_pad_two_digits (n : N) :
  (n < 100)%N -> two_digits (zero_pad 2 n) n = true.
Proof.
  apply (small_range (fun n => two_digits (zero_pad 2 n) n) 100).
  vm_compute. reflexivity.
Qed.

Lemma year_digits (n : N) :
  (1 <= n < 10000)%N ->
  plain_digits (str_int n) n = true /\
  ((1000 <= n)%N -> four_digits (str_int n) n = true).
Proof.
  intros [Hlo Hhi].
  pose proof (small_range
                (fun n => N.eqb n 0
                          || plain_digits (str_int n) n
                             && (N.ltb n 1000 || four_digits (str_int n) n))
                10000 ltac:(vm_compute; reflexivity) n Hhi) as H.
  cbv beta in H. apply orb_true_iff in H. destruct H as [H|H].
  - apply N.eqb_eq in H. lia.
  - apply andb_true_iff in H. destruct H as [Hp H4]. split; [exact Hp|].
    intros H1000. apply orb_true_iff in H4. destruct H4 as [H4|H4];
      [|exact H4].
    apply N.ltb_lt in H4. lia.
Qed.

Lemma substring_all (s : string) : substring 0 (String.length s) s = s.
Proof. induction s as [|c s IH]; simpl; [reflexivity|now rewrite IH]. Qed.

Lemma strftime_mdY_format (t : datetime) :
  valid_datetime t ->
  is_mm_dd_y (strftime_mdY t) (month t) (day t) (year t) = true /\
  ((1000 <= year t)%N ->
   is_mm_dd_yyyy (strftime_mdY t) (month t) (day t) (year t) = true).
Proof.
  intros (Hy & Hm & Hd & _).
  assert (H2m := zero_pad_two_digits (month t) ltac:(lia)).
  assert (H2d := zero_pad_two_digits (day t) ltac:(lia)).
  destruct (year_digits (year t) ltac:(lia)) as [Hp H4'].
  unfold strftime_mdY, is_mm_dd_y, is_mm_dd_yyyy.
  destruct (zero_pad 2 (month t)) as [|m1 [|m2 [|? ?]]]; try discriminate.
  destruct (zero_pad 2 (day t)) as [|d1 [|d2 [|? ?]]]; try discriminate.
  split.
  - cbn [String.append String.length substring Nat.sub andb String.eqb
         Ascii.eqb Bool.eqb].
    rewrite H2m, H2d. cbn [andb].
    replace (String.length (str_int (year t)) - 0)%nat
      with (String.length (str_int (year t))) by lia.
    rewrite substring_all.
    replace (substring 0 0 (str_int (year t))) with EmptyString
      by now destruct (str_int (year t)).
    exact Hp.
  - intros Hlo. assert (H4 := H4' Hlo).
    destruct (str_int (year t)) as [|y1 [|y2 [|y3 [|y4 [|? ?]]]]];
      try discriminate.
    cbn [String.append String.length substring Nat.eqb andb String.eqb
         Ascii.eqb Bool.eqb].
    now rewrite H2m, H2d, H4.
Qed.

(** C8, as the code has it.  For an issue attached to a security release
    with a proper timestamp, [cve_data] returns a record whose keys are
    title, metrics, descriptions, affected, references, credits, timeline
    and datePublic, each once; [datePublic] is the month and the day of the
    release on two digits each and the year as a plain number, which makes
    it MM/DD/YYYY from the year 1000 on; and [affected[0].versions] lists,
    for each final release of the issue in descending order of the version
    string, an affected entry from [major.minor.0] up to the release and
    then an unaffected entry from the release up to [major.minor.*], all of
    type semver. *)
Theorem cve_data_record (db : Database) (self : SecurityIssue)
  (checklist : SecurityRelease) :
  issue_release db self = Ok checklist ->
  valid_datetime (when checklist) ->
  exists record,
    cve_data db self = Ok record /\
    map fst record = CVE_RECORD_KEYS /\
    (exists s, json_get "datePublic" record = Some (JStr s) /\
               is_mm_dd_y s (month (when checklist)) (day (when checklist))
                 (year (when checklist)) = true /\
               ((1000 <= year (when checklist))%N ->
                is_mm_dd_yyyy s (month (when checklist)) (day (when checklist))
                  (year (when checklist)) = true)) /\
    affected_versions record
    = Some (JList (flat_map version_range_entries (fixed_releases db self))) /\
    (forall r, In r (fixed_releases db self) <->
               In r (issue_releases db self) /\ status r = "f") /\
    StronglySorted (fun x y => String.leb (version y) (version x) = true)
      (fixed_releases db self).
Proof.
  intros Hrel Hvalid. unfold cve_data.
  rewrite fold_cve_data_step, Hrel. cbn [bind app].
  eexists. split; [reflexivity|]. split; [reflexivity|].
  split; [|split; [|split]].
  - eexists. split; [reflexivity|]. now apply strftime_mdY_format.
  - unfold affected_versions. cbn. do 2 f_equal.
    apply flat_map_ext. intros r.
    unfold affected_entry, unaffected_entry, version_range_entries,
      semver_entry, feature_version.
    now rewrite !append_assoc.
  - intros r. unfold fixed_releases.
    now rewrite order_by_In, filter_In, String.eqb_eq.
  - unfold fixed_releases.
    apply (order_by_sorted (desc (on version String.leb))).
    apply desc_preorder, on_preorder, string_leb_preorder.
Qed.

(** The record of the issue of [test_render_cve_json]. *)
Lemma cve_data_record_witness :
  issue_release cve_db cve_issue = Ok cve_checklist /\
  valid_datetime (when cve_checklist) /\
  exists record,
    cve_data cve_db cve_issue = Ok record /\
    map fst record = CVE_RECORD_KEYS /\
    json_get "datePublic" record = Some (JStr "12/04/2024").
Proof.
  assert (H1 : issue_release cve_db cve_issue = Ok cve_checklist)
    by reflexivity.
  assert (H2 : valid_datetime (when cve_checklist))
    by (unfold valid_datetime; simpl; lia).
  split; [exact H1|]. split; [exact H2|].
  destruct (cve_data_record cve_db cve_issue cve_checklist H1 H2)
    as (record & E & Hk & _).
  exists record. split; [exact E|]. split; [exact Hk|].
  vm_compute in E. inversion E. reflexivity.
Defined.

(** C8, as the claim has it, fails in two ways.  The final releases come
    in the order of the version string, not of the version: for an issue
    that affects 1.8.16, 1.9.11 and 1.10.3 the entries are those of 1.9.11,
    1.8.16 and 1.10.3, in that order.  And a year below 1000 is printed
    without leading zeros: 2 January 999 gives 01/02/999. *)
Lemma cve_data_orders_by_version_string :
  issue_release db_2016 issue_2016 = Ok checklist_2016 /\
  valid_datetime (when checklist_2016) /\
  ~ cve_record_in_version_order db_2016 issue_2016 checklist_2016 /\
  map version (fixed_releases db_2016 issue_2016)
  = ["1.9.11"; "1.8.16"; "1.10.3"] /\
  issue_release db_2016 issue_999 = Ok checklist_999 /\
  valid_datetime (when checklist_999) /\
  ~ cve_record_in_version_order db_2016 issue_999 checklist_999 /\
  exists record,
    cve_data db_2016 issue_999 = Ok record /\
    json_get "datePublic" record = Some (JStr "01/02/999").
Proof.
  split; [reflexivity|]. split; [unfold valid_datetime; simpl; lia|].
  split.
  { intros (record & E & _ & _ & l & HP & HS & HA).
    assert (Hf : filter (fun r => String.eqb (status r) "f")
                   (issue_releases db_2016 issue_2016)
                 = [release_1_10_3; release_1_8_16; release_1_9_11])
      by (vm_compute; reflexivity).
    rewrite Hf in HP. clear Hf.
    assert (Hr : affected_versions record
                 = Some (JList [semver_entry "affected" "1.9.0" "1.9.11";
                                semver_entry "unaffected" "1.9.11" "1.9.*";
                                semver_entry "affected" "1.8.0" "1.8.16";
                                semver_entry "unaffected" "1.8.16" "1.8.*";
                                semver_entry "affected" "1.10.0" "1.10.3";
                                semver_entry "unaffected" "1.10.3" "1.10.*"])).
    { vm_compute in E. inversion E. vm_compute. reflexivity. }
    rewrite Hr in HA. clear Hr E.
    pose proof (Permutation_length HP) as Hlen.
    destruct l as [|a [|b [|c [|d l]]]]; try discriminate Hlen.
    cbn [flat_map version_range_entries app] in HA.
    unfold semver_entry in HA.
    assert (Ha : version a = "1.9.11") by (inversion HA; congruence).
    assert (Hc : version c = "1.10.3") by (inversion HA; congruence).
    assert (Ia : In a [release_1_10_3; release_1_8_16; release_1_9_11])
      by (apply (Permutation_in _ HP); simpl; auto).
    assert (Ic : In c [release_1_10_3; release_1_8_16; release_1_9_11])
      by (apply (Permutation_in _ HP); simpl; auto).
    inversion HS as [|? ? _ Hall]; subst.
    inversion Hall as [|? ? _ Hall']; subst.
    inversion Hall' as [|? ? Hac _]; subst.
    simpl in Ia, Ic.
    destruct Ia as [<-|[<-|[<-|[]]]]; try discriminate Ha.
    destruct Ic as [<-|[<-|[<-|[]]]]; try discriminate Hc.
    unfold version_ge in Hac. simpl in Hac. lia. }
  split; [vm_compute; reflexivity|].
  split; [reflexivity|]. split; [unfold valid_datetime; simpl; lia|].
  split.
  { intros (record & E & _ & (s & Hs & Hfmt) & _).
    vm_compute in E. inversion E; subst record; clear E.
    vm_compute in Hs. inversion Hs; subst s; clear Hs.
    vm_compute in Hfmt. discriminate. }
  eexists. split; vm_compute; reflexivity.
Qed.

(** ** The scenario of [TestReleaseManager] *)

Lemma filter_cons_true {A : Type} (f : A -> bool) (x : A) (l : list A) :
  f x = true -> filter f (x :: l) = x :: filter f l.
Proof. intros H. simpl. now rewrite H. Qed.

Lemma filter_cons_false {A : Type} (f : A -> bool) (x : A) (l : list A) :
  f x = false -> filter f (x :: l) = filter f l.
Proof. intros H. simpl. now rewrite H. Qed.

Lemma filter_nil {A : Type} (f : A -> bool) : filter f [] = [].
Proof. reflexivity. Qed.

(** Decide a condition over dates that are offsets from one day. *)
Ltac decide_on_dates :=
  cbv -[Z.leb Z.sub Z.add];
  repeat match goal with
         | |- context [Z.leb ?a ?b] =>
             first [ rewrite (proj2 (Z.leb_le a b)) by lia
                   | rewrite (proj2 (Z.leb_gt a b)) by lia ]
         end;
  reflexivity.

Ltac run_filters :=
  repeat first [ rewrite filter_cons_true by decide_on_dates
               | rewrite filter_cons_false by decide_on_dates
               | rewrite filter_nil ].

Lemma manager_fixture_table (today : Z) :
  map (fun r => (version r, (major r, minor r, micro r, status r, iteration r)))
      (table_after (manager_fixture today))
  = [("1.4", (1, 4, 0, "f", 0)); ("1.5", (1, 5, 0, "f", 0));
     ("1.6", (1, 6, 0, "f", 0)); ("1.7", (1, 7, 0, "f", 0));
     ("1.8a1", (1, 8, 0, "a", 1)); ("1.8b1", (1, 8, 0, "b", 1));
     ("1.8", (1, 8, 0, "f", 0)); ("1.8.1", (1, 8, 1, "f", 0));
     ("1.9", (1, 9, 0, "f", 0)); ("1.10", (1, 10, 0, "f", 0))]%N.
Proof.
  unfold manager_fixture.
  generalize (today - 450)%Z, (today + 50)%Z, (today - 350)%Z, (today - 150)%Z,
    (today - 250)%Z, (today - 50)%Z, (today - 80)%Z, (today - 65)%Z.
  intros. vm_compute. reflexivity.
Qed.

(** C6.  With the ten releases of the test in the table, whatever day
    today is, [published()] is 1.8.1, 1.7, 1.4 and [unsupported()] is
    1.6, 1.5, in these orders. *)
Theorem manager_scenario (today : Z) :
  map version (published today (table_after (manager_fixture today)) None)
  = ["1.8.1"; "1.7"; "1.4"] /\
  map version (unsupported today (table_after (manager_fixture today)) None)
  = ["1.6"; "1.5"].
Proof.
  unfold manager_fixture.
  remember (today - 450)%Z as d450 eqn:E450.
  remember (today - 350)%Z as d350 eqn:E350.
  remember (today - 250)%Z as d250 eqn:E250.
  remember (today - 150)%Z as d150 eqn:E150.
  remember (today - 80)%Z as d80 eqn:E80.
  remember (today - 65)%Z as d65 eqn:E65.
  remember (today - 50)%Z as d50 eqn:E50.
  remember (today + 50)%Z as p50 eqn:P50.
  match goal with
  | |- context [table_after ?l] =>
      let rows := eval vm_compute in (table_after l) in
      replace (table_after l) with rows by (vm_compute; reflexivity)
  end.
  subst.
  unfold unsupported, supported, published, or_today.
  run_filters.
  split; vm_compute; reflexivity.
Qed.

(** ** Parsing and formatting versions *)

Lemma string_forall_append (p : ascii -> bool) (a b : string) :
  string_forall p (a ++ b) = string_forall p a && string_forall p b.
Proof.
  induction a as [|c a IH]; simpl; [reflexivity|].
  now rewrite IH, andb_assoc.
Qed.

Lemma string_forall_impl (p q : ascii -> bool) (s : string) :
  (forall c, p c = true -> q c = true) ->
  string_forall p s = true -> string_forall q s = true.
Proof.
  intros Hpq. induction s as [|c s IH]; simpl; [reflexivity|].
  rewrite !andb_true_iff. intros [Hc Hs]. auto.
Qed.

Lemma string_of_uint_digits (d : Decimal.uint) :
  string_forall is_digit (NilEmpty.string_of_uint d) = true.
Proof. induction d; simpl; auto. Qed.

Lemma str_int_digits (n : N) : string_forall is_digit (str_int n) = true.
Proof. apply string_of_uint_digits. Qed.

Lemma str_int_not_empty (n : N) : str_int n <> EmptyString.
Proof.
  unfold str_int. intros E.
  pose proof (NilEmpty.usu (N.to_uint n)) as H. rewrite E in H.
  simpl in H. inversion H as [H'].
  pose proof (DecimalN.Unsigned.of_to n) as Hn. rewrite <- H' in Hn.
  simpl in Hn. subst n. discriminate.
Qed.

Lemma int_str_str_int (n : N) : int_str (str_int n) = Ok n.
Proof.
  unfold int_str. pose proof (str_int_not_empty n) as Hne.
  destruct (str_int n) eqn:E; [contradiction|].
  rewrite <- E. unfold str_int.
  now rewrite NilEmpty.usu, DecimalN.Unsigned.of_to.
Qed.

Lemma is_digit_classify (c : ascii) : is_digit c = true -> classify c = Numeric.
Proof. unfold is_digit, classify. now intros ->. Qed.

Lemma runs_head (s : string) :
  match runs s with
  | [] => s = EmptyString
  | (k, _) :: _ => head_class s = Some k
  end.
Proof.
  destruct s as [|c s]; simpl; [reflexivity|].
  destruct (runs s) as [|[k w] rest]; [reflexivity|].
  destruct (classify c), k; reflexivity.
Qed.

Lemma char_class_eqb_spec (a b : char_class) :
  char_class_eqb a b = true <-> a = b.
Proof. destruct a, b; simpl; split; congruence. Qed.

(** A non-empty run of one class, followed by nothing or by a character of
    another class, is one run of the tokenizer. *)
Lemma runs_run (k : char_class) (w s : string) :
  w <> EmptyString ->
  string_forall (fun c => char_class_eqb (classify c) k) w = true ->
  head_class s <> Some k ->
  runs (w ++ s) = (k, w) :: runs s.
Proof.
  intros Hne Hw Hs. induction w as [|c w IH]; [contradiction|].
  simpl in Hw. apply andb_true_iff in Hw. destruct Hw as [Hc Hw].
  apply char_class_eqb_spec in Hc.
  destruct w as [|c' w].
  - simpl. pose proof (runs_head s) as Hh.
    destruct (runs s) as [|[k' w'] rest].
    + now rewrite Hc.
    + rewrite Hc.
      destruct (char_class_eqb k k') eqn:E; [|reflexivity].
      apply char_class_eqb_spec in E. subst k'. contradiction.
  - change (runs ((String c (String c' w)) ++ s))
      with (match runs (String c' w ++ s) with
            | (k0, w0) :: rest =>
                if char_class_eqb (classify c) k0
                then (k0, String c w0) :: rest
                else (classify c, String c EmptyString) :: (k0, w0) :: rest
            | [] => [(classify c, String c EmptyString)]
            end).
    rewrite IH by (auto; discriminate).
    rewrite Hc. now destruct k.
Qed.

Lemma tokens_run (k : char_class) (w s : string) :
  w <> EmptyString ->
  string_forall (fun c => char_class_eqb (classify c) k) w = true ->
  head_class s <> Some k ->
  get_loose_version_tuple (w ++ s)
  = (component_of_run (k, w) ++ get_loose_version_tuple s)%list.
Proof.
  intros Hne Hw Hs. unfold get_loose_version_tuple.
  now rewrite (runs_run k w s Hne Hw Hs).
Qed.

Lemma str_int_numeric (n : N) :
  string_forall (fun c => char_class_eqb (classify c) Numeric) (str_int n) = true.
Proof.
  apply (string_forall_impl is_digit); [|apply str_int_digits].
  intros c Hc. now rewrite (is_digit_classify c Hc).
Qed.

Lemma head_class_str_int (n : N) (s : string) :
  head_class (str_int n ++ s) = Some Numeric.
Proof.
  pose proof (str_int_not_empty n) as Hne.
  pose proof (str_int_digits n) as Hd.
  destruct (str_int n) as [|c w]; [contradiction|].
  simpl in *. apply andb_true_iff in Hd. destruct Hd as [Hc _].
  now rewrite (is_digit_classify c Hc).
Qed.

(** A number in front of anything that does not start with a digit. *)
Lemma tokens_number (n : N) (s : string) :
  head_class s <> Some Numeric ->
  get_loose_version_tuple (str_int n ++ s)
  = CInt n :: get_loose_version_tuple s.
Proof.
  intros Hs.
  rewrite (tokens_run Numeric); auto using str_int_not_empty, str_int_numeric.
  unfold component_of_run. now rewrite int_str_str_int.
Qed.

(** A dot in front of a number. *)
Lemma tokens_dot (s : string) :
  head_class s = Some Numeric ->
  get_loose_version_tuple (String "." s) = get_loose_version_tuple s.
Proof.
  intros Hs. change (String "." s) with ("." ++ s).
  rewrite (tokens_run Delimiter); try reflexivity; try discriminate.
  rewrite Hs. discriminate.
Qed.

Lemma token_text_alphabetic (k : pre_token) :
  token_text k <> EmptyString /\
  string_forall (fun c => char_class_eqb (classify c) Alphabetic) (token_text k)
  = true.
Proof. destruct k; split; (discriminate || reflexivity). Qed.

Lemma tokens_of_suffix (x : suffix) :
  get_loose_version_tuple (render_suffix x)
  = match x with
    | NoSuffix => []
    | FinalSuffix => [CStr "final"]
    | PreSuffix k None => [CStr (token_text k)]
    | PreSuffix k (Some i) => [CStr (token_text k); CInt i]
    end.
Proof.
  destruct x as [| |k [i|]]; try reflexivity.
  - simpl. destruct (token_text_alphabetic k) as [Hne Hall].
    rewrite (tokens_run Alphabetic); auto.
    + simpl. rewrite <- (append_nil_r (str_int i)) at 1.
      now rewrite tokens_number by discriminate.
    + rewrite <- (append_nil_r (str_int i)), head_class_str_int. discriminate.
  - now destruct k.
Qed.

Lemma head_class_suffix (x : suffix) : head_class (render_suffix x) <> Some Numeric.
Proof. destruct x as [| |[] [i|]]; discriminate. Qed.

Lemma tokens_of_render (v : version_syntax) :
  get_loose_version_tuple (render v)
  = (CInt (syn_major v) :: CInt (syn_minor v)
     :: match syn_micro v with Some m => [CInt m] | None => [] end
     ++ get_loose_version_tuple (render_suffix (syn_suffix v)))%list.
Proof.
  unfold render.
  rewrite tokens_number by discriminate.
  cbn [String.append].
  rewrite tokens_dot by apply head_class_str_int.
  destruct (syn_micro v) as [m|]; cbn [render_micro String.append].
  - rewrite tokens_number by discriminate.
    rewrite tokens_dot by apply head_class_str_int.
    now rewrite tokens_number by apply head_class_suffix.
  - now rewrite tokens_number by apply head_class_suffix.
Qed.

Lemma remove_char_plain (c : ascii) (s : string) :
  string_forall (fun x => negb (Ascii.eqb x c)) s = true -> remove_char c s = s.
Proof.
  induction s as [|x s IH]; simpl; [reflexivity|].
  rewrite andb_true_iff, negb_true_iff. intros [Hx Hs].
  now rewrite Hx, IH.
Qed.

Lemma is_digit_plain (c : ascii) : is_digit c = true -> is_plain c = true.
Proof.
  unfold is_plain. intros Hc.
  destruct (Ascii.eqb_spec c "-") as [->|_]; [discriminate|].
  destruct (Ascii.eqb_spec c "_") as [->|_]; [discriminate|].
  reflexivity.
Qed.

Lemma render_plain (v : version_syntax) : string_forall is_plain (render v) = true.
Proof.
  assert (Hn : forall n, string_forall is_plain (str_int n) = true).
  { intros n. apply (string_forall_impl is_digit); [|apply str_int_digits].
    apply is_digit_plain. }
  unfold render. rewrite !string_forall_append, !Hn.
  destruct (syn_micro v) as [m|], (syn_suffix v) as [| |[] [i|]];
    simpl; rewrite ?string_forall_append, ?Hn; reflexivity.
Qed.

Lemma strip_render (v : version_syntax) :
  remove_char "_" (remove_char "-" (render v)) = render v.
Proof.
  pose proof (render_plain v) as H.
  rewrite (remove_char_plain "-").
  - apply remove_char_plain.
    apply (string_forall_impl is_plain); [|exact H].
    unfold is_plain. intros c Hc. apply andb_true_iff in Hc. tauto.
  - apply (string_forall_impl is_plain); [|exact H].
    unfold is_plain. intros c Hc. apply andb_true_iff in Hc. tauto.
Qed.

Lemma version_tuple_of_syntax (s : string) (v : version_syntax) :
  spells s v -> version_tuple s = Ok (tuple_of v).
Proof.
  unfold spells, version_tuple, tuple_of, micro_of. intros ->.
  rewrite tokens_of_render, tokens_of_suffix.
  destruct (syn_micro v) as [m|], (syn_suffix v) as [| |[] [i|]]; reflexivity.
Qed.

Lemma get_version_of_syntax (django_VERSION : list component)
  (v : version_syntax) :
  get_version django_VERSION (Some (tuple_of v)) = Ok (render (normalize v)).
Proof.
  unfold get_version, get_main_version, get_complete_version, tuple_of,
    render, normalize.
  cbn [length Nat.eqb negb getitem nth_error bind syn_major syn_minor
       syn_micro syn_suffix component_eqb].
  assert (Hk : in_strs
                 (CStr match syn_suffix v with
                       | PreSuffix k _ => token_status k
                       | _ => "final"
                       end) STATUS_NAMES = true)
    by (destruct (syn_suffix v) as [| |[] ?]; reflexivity).
  rewrite Hk. cbn [bind getitem nth_error component_eqb].
  destruct (N.eqb (micro_of v) 0) eqn:Em;
    destruct (syn_suffix v) as [| |[] [i|]];
    cbn; rewrite ?Em; cbn;
    repeat (rewrite append_assoc; cbn [String.append]);
    rewrite ?append_nil_r; reflexivity.
Qed.

Lemma tuple_of_normalize (v : version_syntax) :
  tuple_of (normalize v) = tuple_of v.
Proof.
  unfold tuple_of, normalize, micro_of. cbn [syn_major syn_minor syn_micro syn_suffix].
  destruct (syn_micro v) as [m|]; simpl.
  - destruct (N.eqb_spec m 0) as [->|_];
      destruct (syn_suffix v) as [| |[] [i|]]; reflexivity.
  - destruct (syn_suffix v) as [| |[] [i|]]; reflexivity.
Qed.

(** C2.  A version string of the grammar parses to the 5-tuple its
    syntax denotes; formatting that tuple yields the normal form of the
    string; and the normal form is itself in the grammar and parses to the
    same tuple, so that it formats to itself. *)
Theorem parse_format_round_trip (django_VERSION : list component)
  (s : string) (v : version_syntax) :
  spells s v ->
  version_tuple s = Ok (tuple_of v) /\
  get_version django_VERSION (Some (tuple_of v)) = Ok (render (normalize v)) /\
  spells (render (normalize v)) (normalize v) /\
  version_tuple (render (normalize v)) = Ok (tuple_of v) /\
  normalize (normalize v) = normalize v.
Proof.
  intros H.
  split; [now apply version_tuple_of_syntax|].
  split; [apply get_version_of_syntax|].
  split; [apply strip_render|].
  split.
  - rewrite <- tuple_of_normalize. apply version_tuple_of_syntax.
    apply strip_render.
  - unfold normalize, micro_of. cbn [syn_major syn_minor syn_micro syn_suffix].
    destruct (syn_micro v) as [m|]; simpl.
    + destruct (N.eqb m 0) eqn:Em; simpl; rewrite ?Em;
        destruct (syn_suffix v) as [| |[] [i|]]; reflexivity.
    + destruct (syn_suffix v) as [| |[] [i|]]; reflexivity.
Qed.

(** The two examples of the claim: 5.2 and 5.2a1 parse to
    (5, 2, 0, final, 0) and (5, 2, 0, alpha, 1) and format back to
    themselves. *)
Lemma parse_format_round_trip_witness :
  (spells "5.2a1" {| syn_major := 5; syn_minor := 2; syn_micro := None;
                     syn_suffix := PreSuffix tok_a (Some 1%N) |} /\
   version_tuple "5.2a1" = Ok [CInt 5; CInt 2; CInt 0; CStr "alpha"; CInt 1] /\
   get_version [] (Some [CInt 5; CInt 2; CInt 0; CStr "alpha"; CInt 1])
   = Ok "5.2a1") /\
  (spells "5.2" {| syn_major := 5; syn_minor := 2; syn_micro := None;
                   syn_suffix := NoSuffix |} /\
   version_tuple "5.2" = Ok [CInt 5; CInt 2; CInt 0; CStr "final"; CInt 0] /\
   get_version [] (Some [CInt 5; CInt 2; CInt 0; CStr "final"; CInt 0])
   = Ok "5.2").
Proof.
  split.
  - assert (H : spells "5.2a1"
                  {| syn_major := 5; syn_minor := 2; syn_micro := None;
                     syn_suffix := PreSuffix tok_a (Some 1%N) |})
      by reflexivity.
    split; [exact H|].
    destruct (parse_format_round_trip [] _ _ H) as (Hp & Hf & _).
    split; [exact Hp|exact Hf].
  - assert (H : spells "5.2"
                  {| syn_major := 5; syn_minor := 2; syn_micro := None;
                     syn_suffix := NoSuffix |})
      by reflexivity.
    split; [exact H|].
    destruct (parse_format_round_trip [] _ _ H) as (Hp & Hf & _).
    split; [exact Hp|exact Hf].
Defined.

(* ================================================================== *)
(** * Part II, continued.  Further properties                          *)
(* ================================================================== *)

(** ** Evaluating the further definitions *)

Example test_upload_to_artifact :
  map (fun p => match upload_to_artifact
                        (new_release (fst p) false false None None) (snd p) with
                | Ok (path, _) => path
                | Raise _ => EmptyString
                end)
      [("5.2", "django-5.2.tar.gz"); ("5.2.1", "django-5.2.1.tar.gz");
       ("5.2a1", "django-5.2a1.tar.gz"); ("5.2rc3", "django-5.2rc3.tar.gz");
       ("5.2b2", "django-5.2b2-py3-none.whl")]
  = ["releases/5.2/django-5.2.tar.gz"; "releases/5.2/django-5.2.1.tar.gz";
     "releases/5.2/django-5.2a1.tar.gz"; "releases/5.2/django-5.2rc3.tar.gz";
     "releases/5.2/django-5.2b2-py3-none.whl"].
Proof. reflexivity. Qed.

Example test_upload_to_checksum :
  map (fun v => match upload_to_checksum []
                        (new_release v false false None None) EmptyString with
                | Ok (path, _) => path
                | Raise _ => EmptyString
                end)
      ["5.2"; "5.2.1"; "5.2a1"; "5.2b2"]
  = ["pgp/Django-5.2.checksum.txt"; "pgp/Django-5.2.1.checksum.txt";
     "pgp/Django-5.2a1.checksum.txt"; "pgp/Django-5.2b2.checksum.txt"].
Proof. reflexivity. Qed.

Example path_name_cases :
  map path_name ["a/b/"; "a/."; "."; "/"; EmptyString; "a/..";
                 "releases/1.0/django-1.0.tar.gz"; "x//y"; "./a"]
  = ["b"; "a"; EmptyString; EmptyString; EmptyString; "..";
     "django-1.0.tar.gz"; "y"; "a"].
Proof. reflexivity. Qed.

Example re_escape_cases :
  artifact_regex "1.0" "-py3-none-any.whl"
  = String "^" ("[Dd]jango-1" ++ String BACKSLASH ".0"
     ++ String BACKSLASH "-py3" ++ String BACKSLASH "-none"
     ++ String BACKSLASH "-any" ++ String BACKSLASH ".whl$").
Proof. reflexivity. Qed.

(** Some of the cases of [test_artifact_filename_validation_valid] and
    [test_artifact_filename_validation_invalid]. *)
Example test_artifact_filename_validation :
  map (fun p => is_ok (validate_artifact_name []
                         (new_release (fst (fst p)) false false None None)
                         (snd (fst p)) (snd p)))
      [("1.0", "django-1.0.tar.gz", ".tar.gz");
       ("1.0", "Django-1.0.tar.gz", ".tar.gz");
       ("1.10", "django-1.10.tar.gz", ".tar.gz");
       ("1.0rc1", "django-1.0rc1-py3-none-any.whl", "-py3-none-any.whl");
       ("1.0", "django-1.2.tar.gz", ".tar.gz");
       ("1.0", "django-1.0.1.tar.gz", ".tar.gz");
       ("1.0a1", "django-1.0.tar.gz", ".tar.gz");
       ("1.0", "django-1.0.tar.xz", ".tar.gz");
       ("1.0", "django-1.0.whl", "-py3-none-any.whl");
       ("1.0", "django-1x0.tar.gz", ".tar.gz")]
  = [true; true; true; true; false; false; false; false; false; false].
Proof. vm_compute. reflexivity. Qed.

Example test_artifact_name_validation_with_full_path :
  exists self,
    clean [] 739343 (new_release "1.0" false false (Some 739343%Z) None) files_10
    = Cleaned self.
Proof. eexists. vm_compute. reflexivity. Qed.

Example test_published_release_tarball_required :
  clean [] 739343 (new_release "1.0" true false (Some 733288%Z) None)
    {| tarball := EmptyString; wheel := EmptyString; checksum := EmptyString |}
  = FieldError "tarball" TARBALL_REQUIRED.
Proof. reflexivity. Qed.

Example test_artifact_filename_message :
  validate_artifact_name [] (new_release "1.0" false false None None)
    "django-1.2.tar.gz" ".tar.gz"
  = Raise (ValidationError
             ("Filename django-1.2.tar.gz does not match pattern ^[Dd]jango-1"
              ++ String BACKSLASH ".0" ++ String BACKSLASH ".tar"
              ++ String BACKSLASH ".gz$.")).
Proof. vm_compute. reflexivity. Qed.

(** ** What the parser and the formatter can return *)

Lemma in_status_names (k : string) :
  in_strs (CStr k) STATUS_NAMES = true <-> In k STATUS_NAMES.
Proof.
  unfold in_strs, STATUS_NAMES. cbn [existsb component_eqb In].
  rewrite !orb_true_iff, !String.eqb_eq. intuition congruence.
Qed.

Lemma status_abbreviation (k : string) :
  (exists v, dict_get STATUS_ABBREVIATIONS k = Ok v /\ In v STATUS_NAMES) \/
  dict_get STATUS_ABBREVIATIONS k = Raise KeyError.
Proof.
  unfold STATUS_ABBREVIATIONS, STATUS_NAMES, dict_get.
  destruct (String.eqb "a" k); [left; eexists; split; [reflexivity|simpl; auto]|].
  destruct (String.eqb "b" k); [left; eexists; split; [reflexivity|simpl; auto]|].
  destruct (String.eqb "c" k); [left; eexists; split; [reflexivity|simpl; auto]|].
  now right.
Qed.

(** The outcome of the steps of [version_tuple] that follow the
    tokenizer, by cases on the tokens. *)
Ltac version_tuple_case :=
  repeat match goal with
         | c : component |- _ => destruct c
         end;
  cbn [length Nat.eqb app getitem nth_error bind isinstance_int negb
       list_insert firstn skipn dict_get_component setitem];
  repeat match goal with
         | |- context [in_strs (CStr ?k) STATUS_NAMES] =>
             let E := fresh "E" in
             destruct (in_strs (CStr k) STATUS_NAMES) eqn:E;
             [apply in_status_names in E|];
             cbn [negb bind length Nat.eqb app setitem dict_get_component]
         | |- context [in_strs (CInt ?n) STATUS_NAMES] =>
             change (in_strs (CInt n) STATUS_NAMES) with false;
             cbn [negb bind length Nat.eqb app setitem dict_get_component]
         | |- context [dict_get STATUS_ABBREVIATIONS ?k] =>
             let v := fresh "v" in
             let Ev := fresh "Ev" in
             let Hv := fresh "Hv" in
             destruct (status_abbreviation k) as [(v & Ev & Hv)|Ev];
             rewrite Ev;
             cbn [negb bind length Nat.eqb app setitem dict_get_component]
         end.

Lemma version_tuple_cases (s : string) :
  let l := get_loose_version_tuple (remove_char "_" (remove_char "-" s)) in
  (version_tuple s = Raise IndexError <-> (length l < 2)%nat) /\
  (forall e, version_tuple s = Raise e -> e = IndexError \/ e = KeyError) /\
  (forall t, version_tuple s = Ok t ->
             (5 <= length t)%nat /\ firstn 2 t = firstn 2 l /\
             exists k, nth_error t 3 = Some (CStr k) /\ In k STATUS_NAMES).
Proof.
  unfold version_tuple. cbv zeta.
  generalize (get_loose_version_tuple (remove_char "_" (remove_char "-" s))).
  intros l.
  destruct l as [|a [|b [|c [|d [|e rest]]]]]; version_tuple_case;
    (split; [split; [try discriminate; simpl; lia
                    |try reflexivity; simpl; intros; lia]|]);
    (split; [intros e0 E0; inversion E0; auto|]);
    intros t Et; inversion Et; subst;
    (split; [simpl; lia|]); (split; [reflexivity|]);
    eexists; (split; [reflexivity|]); simpl; auto.
Qed.

(** X1.  What [version_tuple] can do with a string.  It raises
    [IndexError] exactly when the string has fewer than two components,
    and otherwise raises nothing but [KeyError]; when it returns, the
    tuple has at least five items, starts with the first two components
    of the string, and has one of the four status names in fourth place. *)
Theorem version_tuple_outcomes (s : string) :
  let l := get_loose_version_tuple (remove_char "_" (remove_char "-" s)) in
  (version_tuple s = Raise IndexError <-> (length l < 2)%nat) /\
  (forall e, version_tuple s = Raise e -> e = IndexError \/ e = KeyError) /\
  (forall t, version_tuple s = Ok t ->
             (5 <= length t)%nat /\ firstn 2 t = firstn 2 l /\
             exists k, nth_error t 3 = Some (CStr k) /\ In k STATUS_NAMES).
Proof. exact (version_tuple_cases s). Qed.

Lemma get_version_cases (django_VERSION t : list component) :
  ((exists s, get_version django_VERSION (Some t) = Ok s) <->
   length t = 5%nat /\
   exists k, nth_error t 3 = Some (CStr k) /\ In k STATUS_NAMES) /\
  (forall e, get_version django_VERSION (Some t) = Raise e ->
             e = AssertionError).
Proof.
  unfold get_version, get_main_version, get_complete_version.
  destruct t as [|a [|b [|c [|d [|e [|f rest]]]]]];
    cbn [length Nat.eqb negb bind];
    try (split; [split; [intros (s & E); discriminate
                        |intros (E & _); discriminate]
                |intros e0 E0; now inversion E0]).
  cbn [getitem nth_error bind].
  destruct d as [n|k].
  - change (in_strs (CInt n) STATUS_NAMES) with false. cbn [bind].
    split; [split; [intros (s & E); discriminate|]|intros e0 E0; now inversion E0].
    intros (_ & k & E & _). discriminate.
  - destruct (in_strs (CStr k) STATUS_NAMES) eqn:Ek; cbn [bind].
    + pose proof (proj1 (in_status_names k) Ek) as Hk.
      clear Ek. simpl in Hk.
      destruct Hk as [<-|[<-|[<-|[<-|[]]]]]; cbn;
        (split; [split|]);
        try (intros _; split; [reflexivity|];
             eexists; split; [reflexivity|simpl; auto 6]);
        try (intros _; eexists; reflexivity);
        intros e0 E0; discriminate.
    + split; [split; [intros (s & E); discriminate|]
             |intros e0 E0; now inversion E0].
      intros (_ & k' & E & Hk'). inversion E; subst.
      apply in_status_names in Hk'. congruence.
Qed.

(** X2.  What [get_version] can do with a tuple.  It returns exactly on
    the tuples of five items whose fourth is one of the four status names,
    and raises [AssertionError] on every other. *)
Theorem get_version_outcomes (django_VERSION t : list component) :
  ((exists s, get_version django_VERSION (Some t) = Ok s) <->
   length t = 5%nat /\
   exists k, nth_error t 3 = Some (CStr k) /\ In k STATUS_NAMES) /\
  (forall e, get_version django_VERSION (Some t) = Raise e ->
             e = AssertionError).
Proof. exact (get_version_cases django_VERSION t). Qed.

(** ** Upload paths *)

Lemma get_version_tuple_fresh (self : Instance) :
  cached_version_tuple self = None ->
  get_version_tuple self
  = (t <- version_tuple (version (attrs self)) ;;
     Ok (t, {| attrs := attrs self; cached_version_tuple := Some t |})).
Proof. unfold get_version_tuple. now intros ->. Qed.

(** X3.  On an object whose version tuple has not been read,
    [upload_to_artifact] fails only as the parser fails; otherwise the
    directory is named by the first two components of the version, the
    file name follows unchanged, and the tuple is cached on the object. *)
Theorem upload_to_artifact_path (release : Instance) (filename : string) :
  cached_version_tuple release = None ->
  (forall e, upload_to_artifact release filename = Raise e <->
             version_tuple (version (attrs release)) = Raise e) /\
  (forall t, version_tuple (version (attrs release)) = Ok t ->
     exists c0 c1,
       firstn 2 (get_loose_version_tuple
                   (remove_char "_" (remove_char "-" (version (attrs release)))))
       = [c0; c1] /\
       upload_to_artifact release filename
       = Ok ("releases/" ++ str_component c0 ++ "." ++ str_component c1
             ++ "/" ++ filename,
             {| attrs := attrs release; cached_version_tuple := Some t |})).
Proof.
  intros Hc. unfold upload_to_artifact.
  rewrite (get_version_tuple_fresh _ Hc).
  destruct (version_tuple_cases (version (attrs release))) as (_ & _ & Hok).
  destruct (version_tuple (version (attrs release))) as [t|e0] eqn:Et;
    cbn [bind].
  - destruct (Hok t eq_refl) as (Hlen & Hfirst & _).
    destruct t as [|c0 [|c1 rest]]; try (simpl in Hlen; lia).
    cbn [firstn] in *. split.
    + intros e. split; discriminate.
    + intros t' Et'. inversion Et'; subst. exists c0, c1.
      split; [now symmetry|reflexivity].
  - split.
    + intros e. split; intros E; inversion E; reflexivity.
    + intros t E. discriminate.
Qed.

Lemma upload_to_artifact_path_witness :
  cached_version_tuple (new_release "5.2.1" false false None None) = None /\
  exists self,
    upload_to_artifact (new_release "5.2.1" false false None None)
      "django-5.2.1.tar.gz"
    = Ok ("releases/5.2/django-5.2.1.tar.gz", self).
Proof.
  split; [reflexivity|].
  destruct (upload_to_artifact_path
              (new_release "5.2.1" false false None None)
              "django-5.2.1.tar.gz" eq_refl) as (_ & H).
  destruct (H _ eq_refl) as (c0 & c1 & E1 & E2).
  vm_compute in E1. inversion E1; subst. eexists. exact E2.
Defined.



(** ** Artifact names *)

Lemma ascii_forall (p : ascii -> bool) :
  (forall b0 b1 b2 b3 b4 b5 b6 b7, p (Ascii b0 b1 b2 b3 b4 b5 b6 b7) = true) ->
  forall c, p c = true.
Proof. intros H [b0 b1 b2 b3 b4 b5 b6 b7]. apply H. Qed.

Lemma special_not_alnum (c : ascii) :
  is_re_special c = true -> is_alnum c = false.
Proof.
  revert c.
  assert (H : forall c, implb (is_re_special c) (negb (is_alnum c)) = true).
  { apply ascii_forall. intros [] [] [] [] [] [] [] []; reflexivity. }
  intros c Hc. specialize (H c). rewrite Hc in H. simpl in H.
  now apply negb_true_iff.
Qed.

Lemma not_special_plain (c : ascii) :
  is_re_special c = false ->
  Ascii.eqb c BACKSLASH = false /\ Ascii.eqb c "[" = false /\
  Ascii.eqb c "^" = false /\ Ascii.eqb c "$" = false /\
  is_re_operator c = false.
Proof.
  revert c.
  assert (H : forall c,
             is_re_special c
             || negb (Ascii.eqb c BACKSLASH || Ascii.eqb c "[" || Ascii.eqb c "^"
                      || Ascii.eqb c "$" || is_re_operator c) = true).
  { apply ascii_forall. intros [] [] [] [] [] [] [] []; reflexivity. }
  intros c Hc. specialize (H c). rewrite Hc in H. simpl in H.
  apply negb_true_iff in H.
  repeat (apply orb_false_iff in H; destruct H as [H ?]). auto.
Qed.

(** An escaped string is read back as its own characters. *)
Lemma parse_re_escape (a p : string) :
  parse_re Plain (re_escape a ++ p)
  = option_map (app (lits a)) (parse_re Plain p).
Proof.
  induction a as [|c a IH]; simpl.
  - unfold lits. simpl. now destruct (parse_re Plain p).
  - destruct (is_re_special c) eqn:Ec.
    + cbn [String.append parse_re].
      change (Ascii.eqb BACKSLASH BACKSLASH) with true. cbn [parse_re].
      rewrite (special_not_alnum c Ec), IH.
      now destruct (parse_re Plain p).
    + cbn [String.append parse_re].
      destruct (not_special_plain c Ec) as (-> & -> & -> & -> & ->).
      rewrite IH. now destruct (parse_re Plain p).
Qed.

Lemma lits_append (a b : string) : lits (a ++ b) = (lits a ++ lits b)%list.
Proof.
  unfold lits. induction a as [|c a IH]; simpl; [reflexivity|].
  now rewrite IH.
Qed.

Lemma parse_re_prefix (p : string) :
  parse_re Plain ("^[Dd]jango-" ++ p)
  = option_map (fun r => ReBegin :: ReSet ["D"; "d"]%char
                         :: lits "jango-" ++ r)%list
      (parse_re Plain p).
Proof. simpl. now destruct (parse_re Plain p). Qed.

Lemma parse_artifact_regex (version suffix : string) :
  parse_re Plain (artifact_regex version suffix)
  = Some (ReBegin :: ReSet ["D"; "d"]%char
          :: lits ("jango-" ++ version ++ suffix) ++ [ReEnd])%list.
Proof.
  unfold artifact_regex.
  rewrite parse_re_prefix, !parse_re_escape.
  change (parse_re Plain "$") with (Some [ReEnd]).
  cbn [option_map].
  rewrite !lits_append. now rewrite <- !app_assoc.
Qed.

Lemma re_search_begin_later (atoms : list re_atom) (s : string) :
  re_search_from (ReBegin :: atoms) false s = false.
Proof. induction s as [|c s IH]; simpl; [reflexivity|exact IH]. Qed.

Lemma re_search_begin (atoms : list re_atom) (s : string) :
  re_search_from (ReBegin :: atoms) true s = re_match_here atoms true s.
Proof.
  destruct s as [|c s]; simpl.
  - now rewrite orb_false_r.
  - now rewrite re_search_begin_later, orb_false_r.
Qed.

Lemma re_match_literal (a : string) (at_start : bool) (s : string) :
  re_match_here (lits a ++ [ReEnd]) at_start s = true
  <-> s = a \/ s = a ++ NEWLINE.
Proof.
  revert at_start s. induction a as [|c a IH]; intros at_start s.
  - cbn [lits list_ascii_of_string map app re_match_here String.append].
    rewrite andb_true_r, orb_true_iff, !String.eqb_eq. reflexivity.
  - change (lits (String c a) ++ [ReEnd])%list
      with (ReChar c :: (lits a ++ [ReEnd]))%list.
    cbn [re_match_here String.append].
    destruct s as [|x s].
    + split; [discriminate|]. intros [H|H]; discriminate.
    + rewrite andb_true_iff, IH. split.
      * intros [Hx [-> | ->]]; apply Ascii.eqb_eq in Hx; subst; auto.
      * intros [H|H]; inversion H; subst;
          (split; [apply Ascii.eqb_refl|]); auto.
Qed.

Lemma artifact_regex_search (version suffix name : string) :
  exists b, re_search (artifact_regex version suffix) name = Some b /\
            (b = true <-> artifact_name_ok version suffix name).
Proof.
  unfold re_search. rewrite parse_artifact_regex. cbn [option_map].
  eexists. split; [reflexivity|].
  rewrite re_search_begin. cbn [re_match_here].
  unfold artifact_name_ok.
  destruct name as [|x name].
  - split; [discriminate|].
    intros (d & [-> | ->] & [H|H]); discriminate.
  - rewrite andb_true_iff, re_match_literal.
    cbn [existsb]. rewrite orb_false_r, orb_true_iff, !Ascii.eqb_eq.
    split.
    + intros [[-> | ->] [-> | ->]];
        [ exists "D"; split; [now left|now left]
        | exists "D"; split; [now left|now right]
        | exists "d"; split; [now right|now left]
        | exists "d"; split; [now right|now right] ].
    + intros (d & [-> | ->] & [H|H]); inversion H; subst; auto.
Qed.

(** X5.  The pattern built for a version and a suffix is always one the
    matcher reads, and a name matches it exactly when it is [Django-] or
    [django-] followed by that version and that suffix, character for
    character, with at most one newline after; no character of the version
    or the suffix acts as an operator. *)
Theorem artifact_regex_exact (version suffix name : string) :
  exists b, re_search (artifact_regex version suffix) name = Some b /\
            (b = true <-> artifact_name_ok version suffix name).
Proof. exact (artifact_regex_search version suffix name). Qed.

Lemma split_slash_not_nil (s : string) : split_slash s <> [].
Proof.
  induction s as [|c s IH]; simpl; [discriminate|].
  destruct (Ascii.eqb c "/"); [discriminate|].
  destruct (split_slash s); [contradiction|discriminate].
Qed.

Lemma split_slash_append (d b : string) :
  split_slash (d ++ String "/" b) = (split_slash d ++ split_slash b)%list.
Proof.
  induction d as [|c d IH]; simpl; [reflexivity|].
  destruct (Ascii.eqb c "/"); rewrite IH; [reflexivity|].
  pose proof (split_slash_not_nil d) as Hd.
  destruct (split_slash d); [contradiction|reflexivity].
Qed.

Lemma split_slash_plain (b : string) :
  string_forall (fun c => negb (Ascii.eqb c "/")) b = true ->
  split_slash b = [b].
Proof.
  induction b as [|c b IH]; simpl; [reflexivity|].
  rewrite andb_true_iff, negb_true_iff. intros [-> Hb].
  now rewrite (IH Hb).
Qed.

Lemma path_name_base (b : string) :
  is_base_name b ->
  path_name b = b /\ forall d, path_name (d ++ String "/" b) = b.
Proof.
  intros (Hplain & Hne & Hdot).
  assert (Hkeep : negb (String.eqb b EmptyString) && negb (String.eqb b ".")
                  = true).
  { apply andb_true_iff. split; apply negb_true_iff, String.eqb_neq; assumption. }
  unfold path_name. split.
  - rewrite (split_slash_plain b Hplain). cbn [filter]. now rewrite Hkeep.
  - intros d. rewrite split_slash_append, (split_slash_plain b Hplain).
    rewrite filter_app. cbn [filter]. rewrite Hkeep. apply last_last.
Qed.

(** X6.  The folders in front of a file name play no part in its
    validation: for a base name, that is a non-empty string without a
    slash other than a single dot, [Path(name).name] is the base name
    whatever path precedes it, and so is the verdict. *)
Theorem validate_artifact_name_ignores_folders
  (django_VERSION : list component) (self : Instance) (d b suffix : string) :
  is_base_name b ->
  path_name b = b /\ path_name (d ++ String "/" b) = b /\
  validate_artifact_name django_VERSION self (d ++ String "/" b) suffix
  = validate_artifact_name django_VERSION self b suffix.
Proof.
  intros Hb. destruct (path_name_base b Hb) as [H1 H2].
  split; [exact H1|]. split; [apply H2|].
  unfold validate_artifact_name. now rewrite H1, H2.
Qed.

Lemma validate_artifact_name_ignores_folders_witness :
  is_base_name "django-1.0.tar.gz" /\
  path_name "releases/1.0/django-1.0.tar.gz" = "django-1.0.tar.gz".
Proof.
  assert (H : is_base_name "django-1.0.tar.gz")
    by (repeat split; discriminate).
  split; [exact H|].
  exact (proj1 (proj2 (validate_artifact_name_ignores_folders []
                         (new_release "1.0" false false None None)
                         "releases/1.0" "django-1.0.tar.gz" ".tar.gz" H))).
Defined.






(** ** Cleaning a release *)






(** ** The queries of the manager *)

Lemma published_In (today : Z) (objects : list Release) (at_ : option Z)
  (r : Release) :
  In r (published today objects at_)
  <-> published_on objects (or_today today at_) r.
Proof.
  unfold published, published_on.
  rewrite order_by_In, !filter_In, !andb_true_iff, negb_true_iff,
    N.leb_le, lte_spec, <- not_true_iff_false, lte_spec.
  tauto.
Qed.

Lemma published_is_sorted (today : Z) (objects : list Release)
  (at_ : option Z) :
  StronglySorted version_status_ge (published today objects at_).
Proof.
  unfold published.
  eapply StronglySorted_impl;
    [|apply (order_by_sorted _ by_version_status_desc_preorder)].
  intros x y. apply by_version_status_desc_spec.
Qed.

Lemma supported_In (today : Z) (objects : list Release) (at_ : option Z)
  (r : Release) :
  In r (supported today objects at_)
  <-> supported_on objects (or_today today at_) r.
Proof.
  unfold supported, supported_on.
  rewrite filter_In, published_In, String.eqb_eq. unfold published_on. tauto.
Qed.

Lemma sorted_filter {A : Type} (R : A -> A -> Prop) (f : A -> bool)
  (l : list A) : StronglySorted R l -> StronglySorted R (filter f l).
Proof.
  induction 1 as [|x l Hl IH Hx]; simpl; [constructor|].
  destruct (f x); [|assumption].
  constructor; [assumption|].
  apply Forall_forall. intros y Hy. apply filter_In in Hy.
  rewrite Forall_forall in Hx. now apply Hx.
Qed.

Lemma version_status_ge_final (x y : Release) :
  status x = "f" -> status y = "f" ->
  (version_status_ge x y <-> version_ge x y).
Proof.
  unfold version_status_ge, version_ge. intros -> ->.
  change (String.leb "f" "f") with true. intuition lia.
Qed.

Lemma supported_is_sorted (today : Z) (objects : list Release)
  (at_ : option Z) :
  StronglySorted version_ge (supported today objects at_).
Proof.
  assert (H : StronglySorted version_status_ge (supported today objects at_))
    by (apply sorted_filter, published_is_sorted).
  assert (Hf : Forall (fun r => status r = "f") (supported today objects at_)).
  { apply Forall_forall. intros r Hr. apply supported_In in Hr.
    apply Hr. }
  induction H as [|x l Hl IH Hx]; [constructor|].
  inversion Hf as [|? ? Hfx Hfl]; subst.
  constructor; [now apply IH|].
  rewrite Forall_forall in *. intros y Hy.
  apply version_status_ge_final; auto.
Qed.

(** The head of a sorted list bounds the list. *)
Lemma sorted_head {A : Type} (R : A -> A -> Prop) (x : A) (l : list A) :
  (forall a, R a a) -> StronglySorted R (x :: l) ->
  forall y, In y (x :: l) -> R x y.
Proof.
  intros Hrefl Hs y [<-|Hy]; [apply Hrefl|].
  inversion Hs as [|? ? _ Hall]; subst.
  rewrite Forall_forall in Hall. now apply Hall.
Qed.

Lemma version_ge_refl (x : Release) : version_ge x x.
Proof. unfold version_ge. lia. Qed.

Lemma version_status_ge_refl (x : Release) : version_status_ge x x.
Proof.
  unfold version_status_ge. do 3 (right; split; [reflexivity|]).
  destruct (String.leb_total (status x) (status x)); assumption.
Qed.

(** X10.  [current] is the greatest supported release: it is [None]
    exactly when no release is supported on the day asked for, and
    otherwise a supported release that no supported release exceeds in
    (major, minor, micro). *)
Theorem current_is_greatest (today : Z) (objects : list Release)
  (at_ : option Z) :
  let d := or_today today at_ in
  (current today objects at_ = None <->
   forall r, ~ supported_on objects d r) /\
  (forall c, current today objects at_ = Some c ->
             supported_on objects d c /\
             forall r, supported_on objects d r -> version_ge c r).
Proof.
  intros d. unfold current, first.
  pose proof (supported_is_sorted today objects at_) as Hs.
  pose proof (supported_In today objects at_) as Hin. fold d in Hin.
  destruct (supported today objects at_) as [|c l]; cbn [hd_error].
  - split; [|discriminate]. split; [|reflexivity].
    intros _ r Hr. now apply Hin in Hr.
  - split.
    + split; [discriminate|]. intros H. exfalso.
      apply (H c). apply Hin. now left.
    + intros c' E. inversion E; subst c'. split; [apply Hin; now left|].
      intros r Hr. apply Hin in Hr.
      now apply (sorted_head version_ge c l version_ge_refl Hs).
Qed.

(** X11.  [previous] is the runner-up: when it returns a release there is
    a current one at least as great, and every supported release is the
    current one or not above the previous one; it is [None] exactly when
    at most one row is supported. *)
Theorem previous_is_second (today : Z) (objects : list Release)
  (at_ : option Z) :
  let d := or_today today at_ in
  (previous today objects at_ = None <->
   (length (supported today objects at_) <= 1)%nat) /\
  (forall p, previous today objects at_ = Some p ->
             exists c, current today objects at_ = Some c /\
                       supported_on objects d p /\ version_ge c p /\
                       forall r, supported_on objects d r ->
                                 r = c \/ version_ge p r).
Proof.
  intros d. unfold previous, current, first.
  pose proof (supported_is_sorted today objects at_) as Hs.
  pose proof (supported_In today objects at_) as Hin. fold d in Hin.
  destruct (supported today objects at_) as [|c [|p l]];
    cbn [skipn hd_error length].
  - split; [split; [lia|reflexivity]|discriminate].
  - split; [split; [lia|reflexivity]|discriminate].
  - split; [split; [discriminate|lia]|].
    intros p' E. inversion E; subst p'. exists c.
    split; [reflexivity|]. split; [apply Hin; simpl; auto|].
    split.
    + apply (sorted_head version_ge c (p :: l) version_ge_refl Hs).
      simpl. auto.
    + intros r Hr. apply Hin in Hr. destruct Hr as [<-|Hr]; [now left|right].
      inversion Hs as [|? ? Hs' _]; subst.
      now apply (sorted_head version_ge p l version_ge_refl Hs').
Qed.

(** X12.  [preview] is the most advanced pre-release on show: it is
    [None] exactly when every published release is final, and otherwise a
    published release that is not final and that no published pre-release
    exceeds in (major, minor, micro, status). *)
Theorem preview_is_greatest (today : Z) (objects : list Release)
  (at_ : option Z) :
  let d := or_today today at_ in
  (preview today objects at_ = None <->
   forall r, published_on objects d r -> status r = "f") /\
  (forall p, preview today objects at_ = Some p ->
             published_on objects d p /\ status p <> "f" /\
             forall r, published_on objects d r -> status r <> "f" ->
                       version_status_ge p r).
Proof.
  intros d. unfold preview, first.
  pose proof (sorted_filter version_status_ge
                (fun r => negb (String.eqb (status r) "f"))
                _ (published_is_sorted today objects at_)) as Hs.
  assert (Hin : forall r,
             In r (filter (fun r => negb (String.eqb (status r) "f"))
                     (published today objects at_))
             <-> published_on objects d r /\ status r <> "f").
  { intros r. rewrite filter_In, published_In, negb_true_iff, String.eqb_neq.
    reflexivity. }
  destruct (filter _ (published today objects at_)) as [|p l]; cbn [hd_error].
  - split; [|discriminate]. split; [|reflexivity].
    intros _ r Hr.
    destruct (String.eqb_spec (status r) "f") as [E|E]; [exact E|].
    exfalso. now apply (proj2 (Hin r)).
  - split.
    + split; [discriminate|]. intros H. exfalso.
      destruct (proj1 (Hin p)) as [Hp Hnf]; [now left|].
      apply Hnf. now apply H.
    + intros p' E. inversion E; subst p'.
      destruct (proj1 (Hin p)) as [Hp Hnf]; [now left|].
      split; [exact Hp|]. split; [exact Hnf|].
      intros r Hr Hrf.
      apply (sorted_head version_status_ge p l version_status_ge_refl Hs).
      now apply Hin.
Qed.

(** X13.  The LTS queries.  [lts] holds exactly the supported releases
    with the LTS flag; [current_lts] is the greatest of them, [None] when
    there is none; and [previous_lts] is [None] exactly when at most one
    row is left. *)
Theorem lts_queries (today : Z) (objects : list Release) (at_ : option Z) :
  let d := or_today today at_ in
  (forall r, In r (lts today objects at_) <->
             supported_on objects d r /\ is_lts r = true) /\
  (current_lts today objects at_ = None <->
   forall r, supported_on objects d r -> is_lts r = false) /\
  (forall c, current_lts today objects at_ = Some c ->
             supported_on objects d c /\ is_lts c = true /\
             forall r, supported_on objects d r -> is_lts r = true ->
                       version_ge c r) /\
  (previous_lts today objects at_ = None <->
   (length (lts today objects at_) <= 1)%nat).
Proof.
  intros d.
  assert (Hin : forall r, In r (lts today objects at_) <->
                          supported_on objects d r /\ is_lts r = true).
  { intros r. unfold lts. now rewrite filter_In, supported_In. }
  pose proof (sorted_filter version_ge is_lts _
                (supported_is_sorted today objects at_)) as Hs.
  fold (lts today objects at_) in Hs.
  split; [exact Hin|].
  unfold current_lts, previous_lts, first.
  destruct (lts today objects at_) as [|c [|p l]];
    cbn [skipn hd_error length].
  - split; [|split; [discriminate|split; [lia|reflexivity]]].
    split; [|reflexivity]. intros _ r Hr.
    destruct (is_lts r) eqn:E; [|reflexivity].
    exfalso. now apply (proj2 (Hin r)).
  - split; [|split; [|split; [lia|reflexivity]]].
    + split; [discriminate|]. intros H. exfalso.
      destruct (proj1 (Hin c)) as [Hc Hl]; [now left|].
      rewrite (H c Hc) in Hl. discriminate.
    + intros c' E. inversion E; subst c'.
      destruct (proj1 (Hin c)) as [Hc Hl]; [now left|].
      split; [exact Hc|]. split; [exact Hl|]. intros r Hr Hrl.
      apply (sorted_head version_ge c [] version_ge_refl Hs).
      now apply Hin.
  - split; [|split; [|split; [discriminate|lia]]].
    + split; [discriminate|]. intros H. exfalso.
      destruct (proj1 (Hin c)) as [Hc Hl]; [now left|].
      rewrite (H c Hc) in Hl. discriminate.
    + intros c' E. inversion E; subst c'.
      destruct (proj1 (Hin c)) as [Hc Hl]; [now left|].
      split; [exact Hc|]. split; [exact Hl|]. intros r Hr Hrl.
      apply (sorted_head version_ge c (p :: l) version_ge_refl Hs).
      now apply Hin.
Qed.

Lemma unsupported_In (today : Z) (objects : list Release) (at_ : option Z)
  (r : Release) :
  In r (unsupported today objects at_) ->
  reached_end_of_life objects (or_today today at_) r.
Proof.
  unfold unsupported. rewrite fold_unsupported_step. cbn [app].
  intros H. apply first_of_each_series_In in H. destruct H as [H _].
  unfold reached_end_of_life.
  rewrite order_by_In, filter_In, !andb_true_iff, N.leb_le, lte_spec,
    String.eqb_eq in H.
  tauto.
Qed.

(** X14.  No release is unsupported and published on the same day: what
    [unsupported] returns is in neither [published] nor [supported] for
    that day. *)
Theorem unsupported_not_published (today : Z) (objects : list Release)
  (at_ : option Z) (r : Release) :
  In r (unsupported today objects at_) ->
  ~ In r (published today objects at_) /\
  ~ In r (supported today objects at_) /\
  current today objects at_ <> Some r.
Proof.
  intros H. apply unsupported_In in H. destruct H as (_ & _ & _ & Heol).
  assert (Hp : ~ In r (published today objects at_)).
  { rewrite published_In. unfold published_on. tauto. }
  assert (Hs : ~ In r (supported today objects at_)).
  { unfold supported. rewrite filter_In. tauto. }
  split; [exact Hp|]. split; [exact Hs|].
  unfold current, first. intros E. apply Hs.
  destruct (supported today objects at_); [discriminate|].
  inversion E. now left.
Qed.

Lemma unsupported_not_published_witness :
  In (set_eol_date (Some 739390%Z) release_52)
     (unsupported 739400 [set_eol_date (Some 739390%Z) release_52] None) /\
  ~ In (set_eol_date (Some 739390%Z) release_52)
       (published 739400 [set_eol_date (Some 739390%Z) release_52] None).
Proof.
  assert (H : In (set_eol_date (Some 739390%Z) release_52)
                (unsupported 739400 [set_eol_date (Some 739390%Z) release_52]
                   None))
    by (vm_compute; auto).
  split; [exact H|].
  exact (proj1 (unsupported_not_published 739400 _ None _ H)).
Defined.

(** ** The cached current version *)

(** X15.  [current_version] answers from the cache for as long as there
    is an entry, whatever the day and whatever the table holds; on a miss
    it computes the version of the current release, or the empty string,
    and stores it; it never touches the table.  A successful [save]
    removes the entry, so the next call computes from the table as saved. *)
Theorem current_version_cache (today today' : Z) (w : World) :
  let v := fst (current_version today w) in
  let w1 := snd (current_version today w) in
  release_table w1 = release_table w /\
  cached_current_version w1 = Some v /\
  current_version today' w1 = (v, w1) /\
  (forall c, cached_current_version w = Some c -> v = c /\ w1 = w) /\
  (cached_current_version w = None ->
   v = current_version_of today (release_table w)) /\
  (forall self w' self',
     save w self = Ok (w', self') ->
     cached_current_version w' = None /\
     fst (current_version today w')
     = current_version_of today (release_table w')).
Proof.
  unfold current_version, current_version_of.
  destruct w as [table cache]. cbn [cached_current_version release_table].
  assert (Hsave : forall self w' self',
             save {| release_table := table; cached_current_version := cache |}
               self = Ok (w', self') ->
             cached_current_version w' = None).
  { intros self w' self' H. unfold save, save_with in H.
    destruct (get_version_tuple self) as [[t s1]|]; [|discriminate].
    cbn [bind] in H.
    destruct t as [|c0 [|c1 [|c2 [|c3 [|c4 [|c5 t]]]]]]; try discriminate.
    destruct (dict_get_component RELEASE_STATUS_REVERSE c3); [|discriminate].
    destruct (int_column c0); [|discriminate].
    destruct (int_column c1); [|discriminate].
    destruct (int_column c2); [|discriminate].
    destruct (int_column c4); [|discriminate].
    cbn [bind] in H.
    destruct (sqlite_integers _); [|discriminate].
    cbn [bind] in H. now inversion H. }
  destruct cache as [c|]; cbn [fst snd cached_current_version release_table].
  - split; [reflexivity|]. split; [reflexivity|]. split; [reflexivity|].
    split; [intros c' E; now inversion E|]. split; [discriminate|].
    intros self w' self' H. pose proof (Hsave self w' self' H) as E.
    split; [exact E|]. now rewrite E.
  - split; [reflexivity|]. split; [reflexivity|]. split; [reflexivity|].
    split; [discriminate|]. split; [reflexivity|].
    intros self w' self' H. pose proof (Hsave self w' self' H) as E.
    split; [exact E|]. now rewrite E.
Qed.

(** ** More on [Release.save] *)

Lemma upsert_versions (r : Release) (table : list Release) :
  map version (upsert r table)
  = if existsb (fun x => String.eqb (version x) (version r)) table
    then map version table
    else (map version table ++ [version r])%list.
Proof.
  induction table as [|x table IH]; simpl; [reflexivity|].
  destruct (String.eqb_spec (version x) (version r)) as [E|E]; simpl.
  - now rewrite E.
  - rewrite IH. now destruct (existsb _ table).
Qed.

Lemma update_eol_date_versions (ma mi mc : N) (st : string) (d : option Z)
  (table : list Release) :
  map version (update_eol_date ma mi mc st d table) = map version table.
Proof.
  unfold update_eol_date. rewrite map_map. apply map_ext.
  intros x. now destruct (_ && _ && _ && _).
Qed.

Lemma NoDup_snoc {A : Type} (l : list A) (a : A) :
  NoDup l -> ~ In a l -> NoDup (l ++ [a])%list.
Proof.
  induction l as [|x l IH]; simpl; intros Hnd Hin.
  - constructor; [tauto|constructor].
  - inversion Hnd as [|? ? Hx Hl]; subst. constructor.
    + rewrite in_app_iff. simpl. intuition congruence.
    + apply IH; tauto.
Qed.

Lemma existsb_key_false (v : string) (table : list Release) :
  existsb (fun x => String.eqb (version x) v) table = false ->
  ~ In v (map version table).
Proof.
  intros H Hin. apply in_map_iff in Hin. destruct Hin as (x & <- & Hx).
  assert (E : existsb (fun y => String.eqb (version y) (version x)) table = true).
  { apply existsb_exists. exists x. split; [exact Hx|apply String.eqb_refl]. }
  congruence.
Qed.

Lemma get_release_upsert (r : Release) (table : list Release) :
  get_release (upsert r table) (version r) = Some r.
Proof.
  unfold get_release.
  induction table as [|x table IH]; simpl.
  - now rewrite String.eqb_refl.
  - destruct (String.eqb (version x) (version r)) eqn:E; simpl.
    + now rewrite String.eqb_refl.
    + now rewrite E.
Qed.

Lemma get_release_map (f : Release -> Release) (table : list Release)
  (v : string) :
  (forall x, version (f x) = version x) ->
  get_release (map f table) v = option_map f (get_release table v).
Proof.
  intros Hf. unfold get_release.
  induction table as [|x table IH]; simpl; [reflexivity|].
  rewrite Hf. now destruct (String.eqb (version x) v).
Qed.

Lemma end_previous_micro_version (r x : Release) :
  version (end_previous_micro r x) = version x.
Proof. unfold end_previous_micro. now destruct (is_previous_micro r x). Qed.

Lemma end_previous_micro_self (r : Release) :
  (0 < micro r)%N -> end_previous_micro r r = r.
Proof.
  intros H. unfold end_previous_micro, is_previous_micro.
  replace (N.eqb (micro r + 1) (micro r)) with false;
    [now rewrite andb_false_r|].
  symmetry. apply N.eqb_neq. lia.
Qed.

Lemma update_eol_date_previous (r : Release) (table : list Release) :
  (0 < micro r)%N ->
  update_eol_date (major r) (minor r) (micro r - 1) "f" (date r) table
  = map (end_previous_micro r) table.
Proof.
  intros H. unfold update_eol_date. apply map_ext. intros x.
  unfold end_previous_micro, is_previous_micro.
  replace (N.eqb (micro x) (micro r - 1)) with (N.eqb (micro x + 1) (micro r));
    [reflexivity|].
  destruct (N.eqb_spec (micro x + 1) (micro r)) as [E|E];
    symmetry; [apply N.eqb_eq|apply N.eqb_neq]; lia.
Qed.

(** The table a successful [save] leaves, in terms of the row it wrote. *)
Lemma save_table (w w' : World) (self self' : Instance) :
  save w self = Ok (w', self') ->
  version (attrs self') = version (attrs self) /\
  cached_current_version w' = None /\
  release_table w' =
    (if cascades (attrs self')
     then map (end_previous_micro (attrs self'))
            (upsert (attrs self') (release_table w))
     else upsert (attrs self') (release_table w)).
Proof.
  intros H.
  destruct (save_inv _ _ _ _ H)
    as (ma & mi & mc & k & st & it & self1 & Et & Est & Ea & Etab).
  split; [now rewrite Ea|]. split.
  - unfold save, save_with in H. rewrite Et in H.
    cbn [bind dict_get_component] in H.
    rewrite Est in H. cbn [bind int_column] in H.
    destruct (sqlite_integers _); [|discriminate].
    cbn [bind] in H. now inversion H.
  - rewrite Etab. unfold cascades.
    replace (status (attrs self')) with st by now rewrite Ea.
    replace (micro (attrs self')) with mc by now rewrite Ea.
    replace (is_active (attrs self')) with (is_active (attrs self))
      by now rewrite Ea.
    destruct (String.eqb st "f" && N.ltb 0 mc && is_active (attrs self))
      eqn:Ec; [|reflexivity].
    apply andb_true_iff in Ec. destruct Ec as [Ec _].
    apply andb_true_iff in Ec. destruct Ec as [_ Hpos]. apply N.ltb_lt in Hpos.
    assert (Hma : major (attrs self') = ma) by now rewrite Ea.
    assert (Hmi : minor (attrs self') = mi) by now rewrite Ea.
    assert (Hmc : micro (attrs self') = mc) by now rewrite Ea.
    assert (Hd : date (attrs self') = date (attrs self)) by now rewrite Ea.
    rewrite <- (update_eol_date_previous (attrs self'))
      by (rewrite Hmc; exact Hpos).
    now rewrite Hma, Hmi, Hmc, Hd.
Qed.

Lemma cascades_positive (r : Release) :
  cascades r = true -> (0 < micro r)%N.
Proof.
  unfold cascades. rewrite !andb_true_iff, N.ltb_lt. tauto.
Qed.

(** X16.  [save] keeps the primary keys of the table: the keys after a
    successful save are the keys before, in their order, with the key of
    the saved release added at the end when it was not there; the row read
    back under that key is the saved release; and a table with unique keys
    stays one. *)
Theorem save_keeps_primary_keys (w w' : World) (self self' : Instance) :
  save w self = Ok (w', self') ->
  map version (release_table w')
  = (if existsb (fun x => String.eqb (version x) (version (attrs self)))
          (release_table w)
     then map version (release_table w)
     else map version (release_table w) ++ [version (attrs self)])%list /\
  get_release (release_table w') (version (attrs self)) = Some (attrs self') /\
  (primary_key_unique (release_table w) ->
   primary_key_unique (release_table w')).
Proof.
  intros H. destruct (save_table _ _ _ _ H) as (Hv & _ & Etab).
  assert (Hkeys : map version (release_table w')
                  = map version (upsert (attrs self') (release_table w))).
  { rewrite Etab. destruct (cascades (attrs self')); [|reflexivity].
    rewrite map_map. apply map_ext. apply end_previous_micro_version. }
  rewrite Hkeys, upsert_versions, Hv.
  split; [reflexivity|]. split.
  - rewrite Etab, <- Hv.
    destruct (cascades (attrs self')) eqn:Ec; [|apply get_release_upsert].
    rewrite get_release_map by apply end_previous_micro_version.
    rewrite get_release_upsert. cbn [option_map].
    now rewrite end_previous_micro_self by now apply cascades_positive.
  - unfold primary_key_unique. intros Hnd.
    rewrite Hkeys, upsert_versions, Hv.
    destruct (existsb _ (release_table w)) eqn:E; [exact Hnd|].
    apply NoDup_snoc; [exact Hnd|]. now apply existsb_key_false.
Qed.

Lemma save_keeps_primary_keys_witness :
  save world_211 instance_212 = Ok saved_212 /\
  map version (release_table (fst saved_212)) = ["2.1.1"; "2.1.2"] /\
  primary_key_unique (release_table (fst saved_212)).
Proof.
  assert (H : save world_211 instance_212 = Ok (fst saved_212, snd saved_212))
    by (vm_compute; reflexivity).
  split; [exact H|].
  destruct (save_keeps_primary_keys _ _ _ _ H) as (Hk & _ & Hu).
  split; [exact Hk|]. apply Hu.
  unfold primary_key_unique. vm_compute. constructor; [tauto|constructor].
Defined.

Lemma save_succeeds (w : World) (self self1 : Instance) (ma mi mc it : N)
  (k st : string) :
  get_version_tuple self
  = Ok ([CInt ma; CInt mi; CInt mc; CStr k; CInt it], self1) ->
  dict_get RELEASE_STATUS_REVERSE k = Ok st ->
  sqlite_integers [ma; mi; mc; it] = Ok tt ->
  exists w' self', save w self = Ok (w', self').
Proof.
  intros Et Est Eint. unfold save, save_with. rewrite Et.
  cbn [bind dict_get_component]. rewrite Est. cbn [bind int_column].
  rewrite Eint. cbn [bind]. eexists. eexists. reflexivity.
Qed.

(** A successful [save] has handed the database integers it stores. *)
Lemma save_integers (w w' : World) (self self' self1 : Instance)
  (ma mi mc it : N) (k : string) :
  save w self = Ok (w', self') ->
  get_version_tuple self
  = Ok ([CInt ma; CInt mi; CInt mc; CStr k; CInt it], self1) ->
  sqlite_integers [ma; mi; mc; it] = Ok tt.
Proof.
  intros H Et. unfold save, save_with in H. rewrite Et in H.
  cbn [bind dict_get_component] in H.
  destruct (dict_get RELEASE_STATUS_REVERSE k); [|discriminate].
  cbn [bind int_column] in H.
  destruct (sqlite_integers [ma; mi; mc; it]) as [[]|]; [reflexivity|].
  discriminate.
Qed.

(** After a successful [save] the object holds the tuple that was
    written. *)
Lemma save_instance (w w' : World) (self self' : Instance) :
  save w self = Ok (w', self') ->
  exists t self1,
    get_version_tuple self = Ok (t, self1) /\
    cached_version_tuple self' = Some t /\
    get_version_tuple self' = Ok (t, self').
Proof.
  unfold save, save_with.
  destruct (get_version_tuple self) as [[t self1]|e] eqn:Et; [|discriminate].
  assert (Ec : cached_version_tuple self1 = Some t).
  { unfold get_version_tuple in Et.
    destruct (cached_version_tuple self) eqn:E; [now inversion Et; subst|].
    destruct (version_tuple _); [|discriminate]. now inversion Et. }
  cbn [bind].
  destruct t as [|c0 [|c1 [|c2 [|c3 [|c4 [|c5 t]]]]]]; try discriminate.
  destruct (dict_get_component RELEASE_STATUS_REVERSE c3); [|discriminate].
  destruct (int_column c0); [|discriminate].
  destruct (int_column c1); [|discriminate].
  destruct (int_column c2); [|discriminate].
  destruct (int_column c4); [|discriminate].
  cbn [bind].
  destruct (sqlite_integers _); [|discriminate].
  cbn [bind]. intros E. inversion E; subst; clear E.
  eexists. eexists. split; [reflexivity|].
  unfold get_version_tuple. cbn [cached_version_tuple]. rewrite Ec. auto.
Qed.

Lemma upsert_present (r : Release) (table : list Release) :
  get_release table (version r) = Some r -> upsert r table = table.
Proof.
  unfold get_release.
  induction table as [|x table IH]; simpl; [discriminate|].
  destruct (String.eqb (version x) (version r)).
  - intros E. now inversion E.
  - intros E. now rewrite IH.
Qed.

Lemma end_previous_micro_twice (r x : Release) :
  end_previous_micro r (end_previous_micro r x) = end_previous_micro r x.
Proof.
  unfold end_previous_micro.
  destruct (is_previous_micro r x) eqn:E; [|now rewrite E].
  replace (is_previous_micro r (set_eol_date (date r) x)) with true;
    reflexivity.
Qed.

Lemma save_get_release (w w' : World) (self self' : Instance) :
  save w self = Ok (w', self') ->
  get_release (release_table w') (version (attrs self')) = Some (attrs self').
Proof.
  intros H. destruct (save_table _ _ _ _ H) as (Hv & _ & Etab).
  rewrite Etab.
  destruct (cascades (attrs self')) eqn:Ec; [|apply get_release_upsert].
  rewrite get_release_map by apply end_previous_micro_version.
  rewrite get_release_upsert. cbn [option_map].
  now rewrite end_previous_micro_self by now apply cascades_positive.
Qed.

(** X17.  Saving is idempotent: an object that has been saved, saved
    again into the state the first save left, changes neither that state
    nor itself; and saved into any other state it succeeds and is still
    left as it was. *)
Theorem save_twice (w w' : World) (self self' : Instance) :
  save w self = Ok (w', self') ->
  save w' self' = Ok (w', self') /\
  forall w0, exists w1, save w0 self' = Ok (w1, self').
Proof.
  intros H.
  destruct (save_inv _ _ _ _ H)
    as (ma & mi & mc & k & st & it & self1 & Et & Est & Ea & _).
  destruct (save_instance _ _ _ _ H) as (t & self1' & Et' & Ec & Eg).
  rewrite Et in Et'. inversion Et'; subst t self1'; clear Et'.
  assert (Hsame : forall w0 w1 self2,
             save w0 self' = Ok (w1, self2) -> self2 = self').
  { intros w0 w1 self2 H2.
    destruct (save_inv _ _ _ _ H2)
      as (ma2 & mi2 & mc2 & k2 & st2 & it2 & s2 & Et2 & Est2 & Ea2 & _).
    destruct (save_instance _ _ _ _ H2) as (t2 & s2' & Et2' & Ec2 & _).
    assert (Hl : [CInt ma2; CInt mi2; CInt mc2; CStr k2; CInt it2]
                 = [CInt ma; CInt mi; CInt mc; CStr k; CInt it])
      by congruence.
    injection Hl as -> -> -> -> ->.
    assert (Hst : st2 = st) by congruence. subst st2.
    assert (Hc2 : cached_version_tuple self2 = cached_version_tuple self')
      by congruence.
    assert (Ha2 : attrs self2 = attrs self')
      by (rewrite Ea2, Ea; reflexivity).
    clear - Ha2 Hc2. destruct self', self2.
    cbn [attrs cached_version_tuple] in *. congruence. }
  pose proof (save_integers _ _ _ _ _ _ _ _ _ _ H Et) as Eint.
  split.
  - destruct (save_succeeds w' _ _ _ _ _ _ _ _ Eg Est Eint)
      as (w1 & self2 & H2).
    rewrite (Hsame _ _ _ H2) in H2. rewrite H2. f_equal. f_equal.
    destruct (save_table _ _ _ _ H2) as (_ & Hc2 & Etab2).
    destruct (save_table _ _ _ _ H) as (_ & Hc & Etab).
    rewrite (upsert_present _ _ (save_get_release _ _ _ _ H)) in Etab2.
    assert (E : release_table w1 = release_table w').
    { rewrite Etab2. destruct (cascades (attrs self')); [|reflexivity].
      rewrite Etab at 1. rewrite map_map.
      rewrite Etab. apply map_ext. apply end_previous_micro_twice. }
    destruct w1, w'. cbn [release_table cached_current_version] in *.
    congruence.
  - intros w0.
    destruct (save_succeeds w0 _ _ _ _ _ _ _ _ Eg Est Eint)
      as (w1 & self2 & H2).
    exists w1. now rewrite <- (Hsame _ _ _ H2) at 2.
Qed.

Lemma save_twice_witness :
  save world_211 instance_212 = Ok saved_212 /\
  save (fst saved_212) (snd saved_212) = Ok saved_212.
Proof.
  assert (H : save world_211 instance_212 = Ok (fst saved_212, snd saved_212))
    by (vm_compute; reflexivity).
  split; [exact H|]. exact (proj1 (save_twice _ _ _ _ H)).
Defined.

Lemma status_name_stored (k : string) :
  In k STATUS_NAMES -> exists st, dict_get RELEASE_STATUS_REVERSE k = Ok st.
Proof.
  unfold STATUS_NAMES. simpl.
  intros [<-|[<-|[<-|[<-|[]]]]]; eexists; reflexivity.
Qed.

Lemma sqlite_integers_spec (ma mi mc it : N) :
  (sqlite_stores ma mi mc it -> sqlite_integers [ma; mi; mc; it] = Ok tt) /\
  (~ sqlite_stores ma mi mc it ->
   sqlite_integers [ma; mi; mc; it] = Raise OverflowError).
Proof.
  unfold sqlite_stores, sqlite_integers. cbn [forallb].
  destruct (N.leb_spec ma SQLITE_MAX_INTEGER);
    destruct (N.leb_spec mi SQLITE_MAX_INTEGER);
    destruct (N.leb_spec mc SQLITE_MAX_INTEGER);
    destruct (N.leb_spec it SQLITE_MAX_INTEGER);
    cbn [andb]; split; intros; try reflexivity; exfalso; lia.
Qed.

(** X18.  What [save] does with an object whose version tuple has not
    been read, the database being SQLite.  An error of [version_tuple]
    passes through.  When [version_tuple] returns, the status lookup never
    fails.  A tuple that does not have five items of which the first three
    and the last are integers is a [ValueError].  A tuple that has is saved
    exactly when each of the four integers is one SQLite stores, at most
    2^63 - 1, and is an [OverflowError] otherwise. *)
Theorem save_outcome (w : World) (self : Instance) :
  cached_version_tuple self = None ->
  (forall e, version_tuple (version (attrs self)) = Raise e ->
             save w self = Raise e) /\
  (forall t, version_tuple (version (attrs self)) = Ok t ->
     (forall ma mi mc k it,
        t = [CInt ma; CInt mi; CInt mc; CStr k; CInt it] ->
        (sqlite_stores ma mi mc it ->
         exists w' self', save w self = Ok (w', self')) /\
        (~ sqlite_stores ma mi mc it ->
         save w self = Raise OverflowError)) /\
     (~ (exists ma mi mc k it,
           t = [CInt ma; CInt mi; CInt mc; CStr k; CInt it]) ->
      save w self = Raise ValueError)).
Proof.
  intros Hc. split.
  - intros e He. unfold save, save_with.
    now rewrite (get_version_tuple_fresh _ Hc), He.
  - intros t Ht.
    destruct (version_tuple_cases (version (attrs self))) as (_ & _ & Hok).
    destruct (Hok t Ht) as (Hlen & _ & k & Hk & Hin).
    destruct (status_name_stored k Hin) as (st & Est).
    assert (Eg : get_version_tuple self
                 = Ok (t, {| attrs := attrs self;
                             cached_version_tuple := Some t |}))
      by now rewrite (get_version_tuple_fresh _ Hc), Ht.
    split.
    + intros ma mi mc k' it ->.
      cbn [nth_error] in Hk. inversion Hk; subst k'.
      destruct (sqlite_integers_spec ma mi mc it) as [Hyes Hno].
      split.
      * intros Hs. exact (save_succeeds w _ _ _ _ _ _ _ _ Eg Est (Hyes Hs)).
      * intros Hs. unfold save, save_with. rewrite Eg.
        cbn [bind dict_get_component]. rewrite Est. cbn [bind int_column].
        now rewrite (Hno Hs).
    + intros Hno. unfold save, save_with. rewrite Eg. cbn [bind].
      destruct t as [|c0 [|c1 [|c2 [|c3 [|c4 [|c5 t]]]]]]; try reflexivity.
      cbn [nth_error] in Hk. inversion Hk; subst c3.
      cbn [dict_get_component]. rewrite Est. cbn [bind].
      destruct c0 as [ma|]; [|reflexivity].
      destruct c1 as [mi|]; [|reflexivity].
      destruct c2 as [mc|]; [|reflexivity].
      destruct c4 as [it|]; [|reflexivity].
      exfalso. apply Hno. now exists ma, mi, mc, k, it.
Qed.

Lemma save_outcome_witness :
  save empty_world
    (new_release "9223372036854775808.0" true false None None)
  = Raise OverflowError /\
  (exists w' self',
     save empty_world
       (new_release "9223372036854775807.40000" true false None None)
     = Ok (w', self')) /\
  save empty_world (new_release "1.2a1.5" true false None None)
  = Raise ValueError /\
  save empty_world (new_release "1.x" true false None None)
  = Raise ValueError /\
  save empty_world (new_release "1" true false None None)
  = Raise IndexError.
Proof.
  split; [|split; [|split; [|split; vm_compute; reflexivity]]].
  - destruct (save_outcome empty_world
                (new_release "9223372036854775808.0" true false None None)
                eq_refl) as [_ H].
    destruct (H [CInt 9223372036854775808; CInt 0; CInt 0; CStr "final";
                 CInt 0] ltac:(vm_compute; reflexivity)) as [H1 _].
    apply (H1 _ _ _ _ _ eq_refl).
    unfold sqlite_stores, SQLITE_MAX_INTEGER. lia.
  - destruct (save_outcome empty_world
                (new_release "9223372036854775807.40000" true false None None)
                eq_refl) as [_ H].
    destruct (H [CInt 9223372036854775807; CInt 40000; CInt 0; CStr "final";
                 CInt 0] ltac:(vm_compute; reflexivity)) as [H1 _].
    apply (H1 _ _ _ _ _ eq_refl).
    unfold sqlite_stores, SQLITE_MAX_INTEGER. lia.
  - destruct (save_outcome empty_world
                (new_release "1.2a1.5" true false None None) eq_refl)
      as [_ H].
    destruct (H [CInt 1; CInt 2; CInt 0; CStr "alpha"; CInt 1; CInt 5]
                ltac:(vm_compute; reflexivity)) as [_ H2].
    apply H2. intros (ma & mi & mc & k & it & E). discriminate.
Defined.

(** X19.  The cascade takes the previous micro release out of the
    published set.  After a successful [save] of an active final release
    of micro above zero, every final row of the same series with the
    micro one less has the date of the saved release as its end of life,
    and from that date on it is neither published nor supported. *)
Theorem save_retires_previous_micro (today : Z) (w w' : World)
  (self self' : Instance) :
  save w self = Ok (w', self') ->
  cascades (attrs self') = true ->
  forall y, In y (release_table w') ->
            is_previous_micro (attrs self') y = true ->
    eol_date y = date (attrs self) /\
    forall d at_, date (attrs self) = Some d -> (d <= at_)%Z ->
      ~ In y (published today (release_table w') (Some at_)) /\
      ~ In y (supported today (release_table w') (Some at_)).
Proof.
  intros H Hc y Hy Hp.
  destruct (save_table _ _ _ _ H) as (_ & _ & Etab).
  assert (Hd : date (attrs self') = date (attrs self)).
  { destruct (save_inv _ _ _ _ H)
      as (ma & mi & mc & k & st & it & self1 & _ & _ & Ea & _).
    now rewrite Ea. }
  rewrite Hc in Etab. rewrite Etab in Hy.
  apply in_map_iff in Hy. destruct Hy as (x & Ex & _).
  assert (He : eol_date y = date (attrs self)).
  { rewrite <- Ex, <- Hd. unfold end_previous_micro in *.
    destruct (is_previous_micro (attrs self') x) eqn:E; [reflexivity|].
    subst y. congruence. }
  split; [exact He|].
  intros d at_ Hdate Hle.
  assert (Hnp : ~ In y (published today (release_table w') (Some at_))).
  { rewrite published_In. unfold published_on, on_or_before, or_today.
    intros (_ & _ & _ & _ & Hn). apply Hn. exists d. split; congruence. }
  split; [exact Hnp|].
  unfold supported. rewrite filter_In. tauto.
Qed.

Lemma save_retires_previous_micro_witness :
  save world_211 instance_212 = Ok saved_212 /\
  forall y, In y (release_table (fst saved_212)) ->
            is_previous_micro (attrs (snd saved_212)) y = true ->
            eol_date y = Some 739344%Z.
Proof.
  assert (H : save world_211 instance_212 = Ok (fst saved_212, snd saved_212))
    by (vm_compute; reflexivity).
  split; [exact H|]. intros y Hy Hp.
  exact (proj1 (save_retires_previous_micro 0 _ _ _ _ H eq_refl y Hy Hp)).
Defined.

(** ** The status a checklist shows *)

(** X20.  The status a release checklist shows for a saved release is the
    status name that [save] read from the version tuple, whatever code it
    was stored under, and the blog post template and the trove classifier
    follow from that name; for a release that was never saved, whose
    status column is still empty, reading the status is a [KeyError]. *)
Theorem checklist_status_of_saved (w w' : World) (self self' : Instance) :
  save w self = Ok (w', self') ->
  exists k,
    (exists t i, get_version_tuple self = Ok (t, i) /\
                 nth_error t 3 = Some (CStr k)) /\
    In k STATUS_NAMES /\
    ReleaseChecklist_status (Some (attrs self')) = Ok k /\
    blogpost_template (Some (attrs self'))
    = Ok ("generator/release_" ++ k ++ "_blogpost.rst") /\
    (k = "alpha" ->
     trove_classifier (Some (attrs self'))
     = Ok "Development Status :: 3 - Alpha") /\
    (k = "beta" \/ k = "rc" ->
     trove_classifier (Some (attrs self'))
     = Ok "Development Status :: 4 - Beta") /\
    (k = "final" ->
     trove_classifier (Some (attrs self'))
     = Ok "Development Status :: 5 - Production/Stable") /\
    forall v a l d e,
      ReleaseChecklist_status (Some (attrs (new_release v a l d e)))
      = Raise KeyError.
Proof.
  intros H.
  destruct (save_inv _ _ _ _ H)
    as (ma & mi & mc & k & st & it & self1 & Et & Est & Ea & _).
  assert (Hs : ReleaseChecklist_status (Some (attrs self')) = Ok k).
  { unfold ReleaseChecklist_status. rewrite Ea. cbn [status].
    now apply status_code_inverse. }
  exists k. split; [eexists; eexists; split; [exact Et|reflexivity]|].
  split.
  { revert Est. unfold RELEASE_STATUS_REVERSE, dict_get, STATUS_NAMES.
    destruct (String.eqb_spec "alpha" k) as [<-|_]; [simpl; auto|].
    destruct (String.eqb_spec "beta" k) as [<-|_]; [simpl; auto|].
    destruct (String.eqb_spec "rc" k) as [<-|_]; [simpl; auto|].
    destruct (String.eqb_spec "final" k) as [<-|_]; [simpl; auto|].
    discriminate. }
  split; [exact Hs|].
  unfold blogpost_template, trove_classifier. rewrite Hs. cbn [bind].
  split; [reflexivity|].
  split; [now intros ->|]. split; [now intros [->| ->]|].
  split; [now intros ->|]. reflexivity.
Qed.

Lemma checklist_status_of_saved_witness :
  save world_211 instance_212 = Ok saved_212 /\
  ReleaseChecklist_status (Some (attrs (snd saved_212))) = Ok "final".
Proof.
  assert (H : save world_211 instance_212 = Ok (fst saved_212, snd saved_212))
    by (vm_compute; reflexivity).
  split; [exact H|].
  destruct (checklist_status_of_saved _ _ _ _ H) as (k & _ & _ & Hs & _).
  rewrite Hs. vm_compute in Hs. symmetry. exact Hs.
Defined.

(** ** The versions of a security release *)

Lemma affected_releases_attached (db : Database) (self : SecurityRelease)
  (r : Release) :
  In r (affected_releases db self) -> attached db self r.
Proof.
  unfold affected_releases. rewrite sorted_reverse_In, <- attached_spec.
  apply set_iter_In.
Qed.

Lemma attached_row (db : Database) (self : SecurityRelease) (r : Release) :
  attached db self r -> In r (releases_of db).
Proof.
  intros (issue & _ & H). now apply issue_releases_In in H.
Qed.

Lemma attached_affected (db : Database) (self : SecurityRelease) (r : Release) :
  primary_key_unique (releases_of db) ->
  attached db self r -> In r (affected_releases db self).
Proof.
  intros Hpk Hr. pose proof (attached_row _ _ _ Hr) as Hrow.
  unfold affected_releases. rewrite sorted_reverse_In.
  apply attached_spec in Hr.
  destruct (set_iter_has Release_hash Release_eq Release_eq_refl _ r Hr)
    as (y & Hy & _ & E).
  apply Release_eq_spec in E.
  assert (y = r); [|now subst].
  apply (primary_key_determines (releases_of db)); auto.
  apply (attached_row db self). apply attached_spec.
  now apply set_iter_In in Hy.
Qed.

Lemma affected_releases_keys (db : Database) (self : SecurityRelease) :
  primary_key_unique (releases_of db) ->
  NoDup (map version (affected_releases db self)).
Proof.
  intros Hpk. unfold affected_releases.
  set (listed := flat_map (issue_releases db) (securityissue_set db self)).
  apply (Permutation_NoDup
           (l := map version (set_of Release_hash Release_eq listed))).
  - apply Permutation_map. symmetry.
    transitivity (set_iter Release_hash Release_eq listed);
      [apply order_by_perm|apply set_iter_perm].
  - apply NoDup_map_of_pairs.
    eapply ForallOrdPairs_In_impl; [|apply set_of_distinct].
    intros a b Ha Hb Hab E. apply Hab.
    assert (a = b); [|subst; split; [reflexivity|now apply Release_eq_spec]].
    apply (primary_key_determines (releases_of db)); auto;
      apply (attached_row db self); apply attached_spec;
      eapply set_of_In; eassumption.
Qed.

(** Selecting rows of a table keeps their primary keys distinct. *)
Lemma selected_keys_distinct (keep : Release -> bool) (table : list Release) :
  primary_key_unique table -> primary_key_unique (filter keep table).
Proof.
  unfold primary_key_unique.
  induction table as [|x table IH]; simpl; intros Hnd; [constructor|].
  apply NoDup_cons_iff in Hnd. destruct Hnd as [Hx Hnd].
  destruct (keep x); simpl; [|now apply IH].
  apply NoDup_cons; [|now apply IH].
  intros Hin. apply Hx. apply in_map_iff in Hin.
  destruct Hin as (y & E & Hy). apply filter_In in Hy.
  apply in_map_iff. exists y. tauto.
Qed.

(** X21.  [versions] and [latest_release] read the same list, the final
    ones among [affected_releases]: the latest release is the one whose
    version comes first, and it fails, always with [IndexError], exactly
    when [versions] is empty.  Every version listed is that of a final
    release attached to the checklist; with unique primary keys each such
    release is listed, once.  [affected_branches] has one entry for each
    affected release after the one for main. *)
Theorem versions_and_latest_release (db : Database) (self : SecurityRelease) :
  (forall r, latest_release db self = Ok r ->
             exists rest, versions db self = version r :: rest) /\
  (latest_release db self = Raise IndexError <-> versions db self = []) /\
  (forall e, latest_release db self = Raise e -> e = IndexError) /\
  (forall v, In v (versions db self) ->
             exists r, attached db self r /\ status r = "f" /\ version r = v) /\
  (primary_key_unique (releases_of db) ->
   NoDup (versions db self) /\
   forall r, attached db self r -> status r = "f" ->
             In (version r) (versions db self)) /\
  hd_error (affected_branches db self) = Some "main" /\
  length (affected_branches db self) = S (length (affected_releases db self)).
Proof.
  unfold latest_release, versions, affected_branches.
  split; [|split; [|split; [|split; [|split; [|split]]]]].
  - intros r. destruct (filter _ _) as [|x l]; [discriminate|].
    cbn [getitem nth_error map]. intros E. inversion E. now exists (map version l).
  - destruct (filter _ _) as [|x l]; cbn; split; try reflexivity; discriminate.
  - intros e. destruct (filter _ _) as [|x l]; cbn; intros E; now inversion E.
  - intros v Hv. apply in_map_iff in Hv. destruct Hv as (r & <- & Hr).
    apply filter_In in Hr. destruct Hr as [Hr Hf].
    exists r. split; [now apply affected_releases_attached|].
    split; [|reflexivity].
    unfold is_pre_release in Hf. rewrite negb_involutive in Hf.
    now apply String.eqb_eq.
  - intros Hpk. split.
    + apply selected_keys_distinct. now apply affected_releases_keys.
    + intros r Hr Hf. apply in_map. apply filter_In.
      split; [now apply attached_affected|].
      unfold is_pre_release. rewrite negb_involutive. now apply String.eqb_eq.
  - reflexivity.
  - cbn [length]. now rewrite length_map.
Qed.

(** ** Failures of the CVE record *)


(** ** Upload path of a saved release *)

(** X23.  Once a release has been saved, the directory its artifacts are
    uploaded to is named by the feature version of the stored row: the
    tuple the object holds and the columns written agree on major and
    minor.  The upload leaves the object as it is. *)
Theorem upload_path_of_saved (w w' : World) (self self' : Instance)
  (filename : string) :
  save w self = Ok (w', self') ->
  upload_to_artifact self' filename
  = Ok ("releases/" ++ feature_version (attrs self') ++ "/" ++ filename, self').
Proof.
  intros H.
  destruct (save_inv _ _ _ _ H)
    as (ma & mi & mc & k & st & it & self1 & Et & _ & Ea & _).
  destruct (save_instance _ _ _ _ H) as (t & self1' & Et' & _ & Eg).
  assert (Ht : t = [CInt ma; CInt mi; CInt mc; CStr k; CInt it]) by congruence.
  subst t. unfold upload_to_artifact. rewrite Eg.
  cbn [bind firstn str_component]. unfold feature_version.
  rewrite Ea. cbn [major minor].
  do 2 f_equal. cbn [String.append]. do 9 f_equal.
  now rewrite !append_assoc.
Qed.

Lemma upload_path_of_saved_witness :
  save world_211 instance_212 = Ok saved_212 /\
  upload_to_artifact (snd saved_212) "Django-2.1.2.tar.gz"
  = Ok ("releases/2.1/Django-2.1.2.tar.gz", snd saved_212).
Proof.
  assert (H : save world_211 instance_212 = Ok (fst saved_212, snd saved_212))
    by (vm_compute; reflexivity).
  split; [exact H|].
  exact (upload_path_of_saved _ _ _ _ "Django-2.1.2.tar.gz" H).
Defined.

(** [Release.objects.create] inserts: a second release under a key that
    is taken is refused, where [save] would overwrite the row. *)
Example create_existing_key :
  create world_211 (new_release "2.1.1" true false (Some 739350%Z) None)
  = Raise IntegrityError /\
  is_ok (save world_211
           (new_release "2.1.1" true false (Some 739350%Z) None)) = true.
Proof. split; vm_compute; reflexivity. Qed.

(** The order of releases that [__lt__] does not separate is that of the
    slots of the set: the four spellings of 5.2, read from the join table
    in the order of their keys, come out as follows. *)
Example affected_releases_of_ties :
  map version (issue_releases db_ties issue_ties)
  = ["5.2"; "5.2.0"; "5.2final"; "5.2rc1"] /\
  map version (affected_releases db_ties checklist_ties)
  = ["5.2final"; "5.2"; "5.2rc1"; "5.2.0"] /\
  map version (affected_releases sample_db sample_checklist)
  = ["5.2"; "5.2rc1"].
Proof. repeat split; vm_compute; reflexivity. Qed.
